(** * Reconciliation toolkit of the operator's [pkg/k8s] package

    A shallow embedding of the Go sources
    - [pkg/k8s/resource_namer.go]  (DNS-1123 label generation),
    - [pkg/k8s/finalizer.go]       (JSON patches for finalizers),
    - [pkg/k8s/network.go]         (Service / EndpointSlice reconciliation),
    - the package's client helpers (RBAC check, metadata merge),
    - the StatefulSet helpers      (update, forced update),
    - the pod helpers              (readiness, DNS settings),
    followed by the properties established about them.

    Conventions.  A Go [string] is a sequence of bytes and is a Rocq
    [string]; a Go [map[string]string] is a reference to a mutable
    [gmap string string] living in a store, [nil] being the absent
    reference; a slice is a list (a nil slice is the empty list unless said
    otherwise); a function that can panic returns an [outcome]. *)

From Stdlib Require Import ZArith String Ascii List Bool Lia.
From stdpp Require Import base option gmap strings list fin_maps pretty.

Local Open Scope string_scope.
Local Open Scope list_scope.
Local Open Scope Z_scope.

(** ** The Go runtime: panics and the [error] interface *)

Inductive panic : Type :=
| SliceBoundsOutOfRange
| NilPointerDereference.

Inductive outcome (A : Type) : Type :=
| Returned (a : A)
| Panicked (p : panic).
Arguments Returned {A} a.
Arguments Panicked {A} p.

(** [metav1.Status] and its parts, as far as the package reads them. *)
Record StatusCause : Type := mkStatusCause {
  cause_Type : string;
  cause_Message : string;
  cause_Field : string }.

Record StatusDetails : Type := mkStatusDetails {
  details_Name : string;
  details_Kind : string;
  details_Causes : list StatusCause }.

(** [Details] is a pointer in Go ([*StatusDetails]): [None] is nil. *)
Record Status : Type := mkStatus {
  status_Code : Z;
  status_Reason : string;
  status_Message : string;
  status_Details : option StatusDetails }.

(** The dynamic types of [error] values the package meets:
    [*apierrors.StatusError], an error built by [errors.New] (or by any
    other package, carrying only its text), and [fmt.Errorf] with a [%w]
    verb, which keeps the wrapped error. *)
Inductive error : Type :=
| StatusError (ErrStatus : Status)
| errors_New (text : string)
| Errorf_w (context : string) (wrapped : error).

Definition StatusReasonInvalid : string := "Invalid".

(** ** github.com/cespare/xxhash/v2: the XXH64 digest (seed 0)

    The package is a dependency of the repository, not part of it.  The
    digest is written out from the published XXH64 algorithm on 64-bit
    words, every addition and product reduced modulo 2^64; writing the
    whole input to a fresh digest and calling [Sum64] gives the one-shot
    value below.  The definitions reproduce every label expected by the
    tests of the namer (see the examples at the end of the file). *)
Module xxhash.

Definition u64 (x : Z) : Z := x mod 2 ^ 64.

Definition rol (x r : Z) : Z :=
  Z.lor (u64 (Z.shiftl x r)) (Z.shiftr x (64 - r)).

Definition prime1 : Z := 11400714785074694791.
Definition prime2 : Z := 14029467366897019727.
Definition prime3 : Z := 1609587929392839161.
Definition prime4 : Z := 9650029242287828579.
Definition prime5 : Z := 2870177450012600261.

Definition round (acc input : Z) : Z :=
  u64 (rol (u64 (acc + u64 (input * prime2))) 31 * prime1).

Definition mergeRound (acc val : Z) : Z :=
  u64 (u64 (Z.lxor acc (round 0 val) * prime1) + prime4).

(** Little-endian reads. *)
Fixpoint le (b : list Z) : Z :=
  match b with
  | [] => 0
  | x :: r => x + 256 * le r
  end.
Definition u64le (b : list Z) : Z := le (firstn 8 b).
Definition u32le (b : list Z) : Z := le (firstn 4 b).

(** The main loop over 32-byte blocks; [n] bounds the number of blocks. *)
Fixpoint blocks (n : nat) (b : list Z) (v : Z * Z * Z * Z)
  : (Z * Z * Z * Z) * list Z :=
  match n with
  | O => (v, b)
  | S n' =>
      if 32 <=? Z.of_nat (length b) then
        let '(v1, v2, v3, v4) := v in
        blocks n' (skipn 32 b)
          (round v1 (u64le b), round v2 (u64le (skipn 8 b)),
           round v3 (u64le (skipn 16 b)), round v4 (u64le (skipn 24 b)))
      else (v, b)
  end.

Fixpoint words (n : nat) (b : list Z) (h : Z) : Z * list Z :=
  match n with
  | O => (h, b)
  | S n' =>
      if 8 <=? Z.of_nat (length b) then
        let h1 := Z.lxor h (round 0 (u64le b)) in
        words n' (skipn 8 b) (u64 (u64 (rol h1 27 * prime1) + prime4))
      else (h, b)
  end.

Definition halfword (b : list Z) (h : Z) : Z * list Z :=
  if 4 <=? Z.of_nat (length b) then
    let h1 := Z.lxor h (u64 (u32le b * prime1)) in
    (u64 (u64 (rol h1 23 * prime2) + prime3), skipn 4 b)
  else (h, b).

Fixpoint trailing (b : list Z) (h : Z) : Z :=
  match b with
  | [] => h
  | x :: r => trailing r (u64 (rol (Z.lxor h (u64 (x * prime5))) 11 * prime1))
  end.

Definition avalanche (h : Z) : Z :=
  let h1 := Z.lxor h (Z.shiftr h 33) in
  let h2 := u64 (h1 * prime2) in
  let h3 := Z.lxor h2 (Z.shiftr h2 29) in
  let h4 := u64 (h3 * prime3) in
  Z.lxor h4 (Z.shiftr h4 32).

Definition digest (b : list Z) : Z :=
  let n := Z.of_nat (length b) in
  let '(h, rest) :=
    if 32 <=? n then
      let '((v1, v2, v3, v4), rest) :=
        blocks (length b) b (u64 (prime1 + prime2), prime2, 0, u64 (0 - prime1)) in
      let h := u64 (rol v1 1 + rol v2 7 + rol v3 12 + rol v4 18) in
      (mergeRound (mergeRound (mergeRound (mergeRound h v1) v2) v3) v4, rest)
    else (prime5, b) in
  let '(h, rest) := words (length rest) rest (u64 (h + n)) in
  let '(h, rest) := halfword rest h in
  avalanche (trailing rest h).

Fixpoint bytes (s : string) : list Z :=
  match s with
  | EmptyString => []
  | String c r => Z.of_N (N_of_ascii c) :: bytes r
  end.

(** [xxh := xxhash.New(); xxh.Write([]byte(name)); xxh.Sum64()] *)
Definition Sum64 (name : string) : Z := digest (bytes name).

End xxhash.

(** ** Package [strings], [fmt] and [regexp], at the level of bytes *)
Module gostrings.

Definition code (c : ascii) : Z := Z.of_N (N_of_ascii c).

Definition isUpper (c : ascii) : bool := (65 <=? code c) && (code c <=? 90).
Definition isLower (c : ascii) : bool := (97 <=? code c) && (code c <=? 122).
Definition isDigit (c : ascii) : bool := (48 <=? code c) && (code c <=? 57).
Definition isHyphen (c : ascii) : bool := code c =? 45.

Fixpoint all (p : ascii -> bool) (s : string) : bool :=
  match s with
  | EmptyString => true
  | String c r => p c && all p r
  end.

Fixpoint mapBytes (f : ascii -> ascii) (s : string) : string :=
  match s with
  | EmptyString => EmptyString
  | String c r => String (f c) (mapBytes f r)
  end.

(** [c += 'a' - 'A'] on an upper-case ASCII letter. *)
Definition lowerByte (c : ascii) : ascii :=
  if isUpper c then ascii_of_N (N_of_ascii c + 32) else c.

(** [strings.Map(unicode.ToLower, s)], the path [strings.ToLower] takes
    when [s] holds a byte outside ASCII: it depends on the Unicode case
    tables of the Go distribution and is a parameter of the model. *)
Class UnicodeTables : Type := Map_unicode_ToLower : string -> string.

(** [strings.ToLower]: ASCII-only strings are lowered byte by byte. *)
Definition ToLower `{UnicodeTables} (s : string) : string :=
  if all (fun c => code c <? 128) s then mapBytes lowerByte s
  else Map_unicode_ToLower s.

Fixpoint TrimLeft (s : string) (cut : ascii) : string :=
  match s with
  | EmptyString => EmptyString
  | String c r => if Ascii.eqb c cut then TrimLeft r cut else s
  end.

Fixpoint TrimRight (s : string) (cut : ascii) : string :=
  match s with
  | EmptyString => EmptyString
  | String c r =>
      match TrimRight r cut with
      | EmptyString => if Ascii.eqb c cut then EmptyString else String c EmptyString
      | r' => String c r'
      end
  end.

(** [strings.Trim(s, cutset)] for a cutset of one ASCII byte. *)
Definition Trim (s : string) (cut : ascii) : string :=
  TrimLeft (TrimRight s cut) cut.

Definition HasPrefix (s prefix : string) : bool := String.prefix prefix s.

Fixpoint Join (elems : list string) (sep : string) : string :=
  match elems with
  | [] => ""
  | [e] => e
  | e :: rest => e +:+ sep +:+ Join rest sep
  end.

(** [s[:n]]; the caller has checked [n <= len(s)]. *)
Definition slice_to (s : string) (n : nat) : string := substring 0 n s.

(** [re.ReplaceAllString(src, repl)] for a regexp of the form [[class]+]:
    every maximal run of bytes of the class is replaced by [repl].  Every
    byte of a multi-byte or invalid UTF-8 sequence is at least 128, so for
    a class that contains all non-ASCII characters runs of characters and
    runs of bytes coincide. *)
Fixpoint replaceRuns (class : ascii -> bool) (repl : string) (inRun : bool)
         (src : string) : string :=
  match src with
  | EmptyString => EmptyString
  | String c r =>
      if class c then
        if inRun then replaceRuns class repl true r
        else repl +:+ replaceRuns class repl true r
      else String c (replaceRuns class repl false r)
  end.

Definition ReplaceAllString (class : ascii -> bool) (src repl : string) : string :=
  replaceRuns class repl false src.

(** [%x] of an unsigned 64-bit integer: lower-case digits, no padding. *)
Definition hexDigit (d : Z) : ascii :=
  ascii_of_N (Z.to_N (if d <? 10 then 48 + d else 87 + d)).

Fixpoint hexDigits (n : nat) (x : Z) (acc : string) : string :=
  match n with
  | O => acc
  | S n' =>
      let acc' := String (hexDigit (x mod 16)) acc in
      if x / 16 =? 0 then acc' else hexDigits n' (x / 16) acc'
  end.

Definition FormatHex (x : Z) : string := hexDigits 16 x "".

End gostrings.

(** ** k8s.io/apimachinery/pkg/util/validation *)
Module validation.
Import gostrings.

Definition DNS1123LabelMaxLength : nat := 63.

Definition isAlnum (c : ascii) : bool := isLower c || isDigit c.
Definition isLabelByte (c : ascii) : bool := isAlnum c || isHyphen c.

(** The texts of the library's messages are parameters. *)
Class Messages : Type := {
  MaxLenError : nat -> string;
  dns1123LabelError : string -> string }.

(** Matcher for [([-a-z0-9]*[a-z0-9])?] up to the end of the text. *)
Fixpoint matchRest (s : string) : bool :=
  match s with
  | EmptyString => true
  | String c r =>
      match r with
      | EmptyString => isAlnum c
      | _ => isLabelByte c && matchRest r
      end
  end.

(** [dns1123LabelRegexp.MatchString], for
    [^[a-z0-9]([-a-z0-9]*[a-z0-9])?$]. *)
Definition dns1123LabelRegexp_MatchString (s : string) : bool :=
  match s with
  | EmptyString => false
  | String c r => isAlnum c && matchRest r
  end.

(** Modelled from the spec: [validation.IsDNS1123Label] belongs to the
    Kubernetes library and is not part of the repository.  It reports one
    message when the value is longer than 63 bytes and one when it does
    not match the label grammar [[a-z0-9]([a-z0-9-]*[a-z0-9])?]. *)
Definition IsDNS1123Label `{Messages} (value : string) : list string :=
  (if (DNS1123LabelMaxLength <? String.length value)%nat
   then [MaxLenError DNS1123LabelMaxLength] else [])
  ++ (if dns1123LabelRegexp_MatchString value then []
      else [dns1123LabelError value]).

End validation.

(** ** pkg/k8s/resource_namer.go *)
Module namer.
Import gostrings validation.

Section Namer.
Context `{UnicodeTables} `{Messages}.

(** [var invalidDNS1123Characters = regexp.MustCompile("[^-a-z0-9]+")] *)
Definition invalidDNS1123Characters (c : ascii) : bool := negb (isLabelByte c).

Record ResourceNamer : Type := NewResourceNamerWithPrefix { prefix : string }.

Definition sanitizedLabel (rn : ResourceNamer) (name : string) : string :=
  let name :=
    if negb (String.eqb (prefix rn) "")
    then TrimRight (prefix rn) "-" +:+ "-" +:+ name
    else name in
  let name := ToLower name in
  let name := ReplaceAllString invalidDNS1123Characters name "-" in
  Trim name "-".

Definition isValidDNS1123Label (name : string) : option error :=
  match IsDNS1123Label name with
  | [] => None
  | errs => Some (errors_New (Join errs ","))
  end.

(** [xxh.Write] never fails, so its error branch is left out.  [h[:9]]
    panics when [h] has fewer than nine bytes. *)
Definition UniqueDNS1123Label (rn : ResourceNamer) (name : string)
  : outcome (string * option error) :=
  let h := "-" +:+ FormatHex (xxhash.Sum64 name) in
  if (String.length h <? 9)%nat then Panicked SliceBoundsOutOfRange
  else
    let h := slice_to h 9 in
    let name := sanitizedLabel rn name in
    let name :=
      if (DNS1123LabelMaxLength - 9 <? String.length name)%nat
      then slice_to name (DNS1123LabelMaxLength - 9) else name in
    let name := name +:+ h in
    match IsDNS1123Label name with
    | [] => Returned (name, isValidDNS1123Label name)
    | errs => Returned ("", Some (errors_New (Join errs ",")))
    end.

Definition DNS1123Label (rn : ResourceNamer) (name : string)
  : string * option error :=
  let name := sanitizedLabel rn name in
  let name :=
    if (DNS1123LabelMaxLength <? String.length name)%nat
    then slice_to name DNS1123LabelMaxLength else name in
  (name, isValidDNS1123Label name).

End Namer.
End namer.

(** ** The label grammar, stated independently of the matcher *)
Module grammar.
Import gostrings validation.

Inductive regex : Type :=
| Class (p : ascii -> bool)
| Cat (r1 r2 : regex)
| Star (r : regex)
| Opt (r : regex).

Inductive matches : regex -> string -> Prop :=
| matches_class p c :
    p c = true -> matches (Class p) (String c EmptyString)
| matches_cat r1 r2 s1 s2 :
    matches r1 s1 -> matches r2 s2 -> matches (Cat r1 r2) (s1 +:+ s2)
| matches_star_nil r :
    matches (Star r) EmptyString
| matches_star_cons r s1 s2 :
    matches r s1 -> matches (Star r) s2 -> matches (Star r) (s1 +:+ s2)
| matches_opt_none r :
    matches (Opt r) EmptyString
| matches_opt_some r s :
    matches r s -> matches (Opt r) s.

(** [[a-z0-9]([-a-z0-9]*[a-z0-9])?] *)
Definition dns1123LabelFmt : regex :=
  Cat (Class isAlnum) (Opt (Cat (Star (Class isLabelByte)) (Class isAlnum))).

(** A legal label: in the language of the grammar, at most 63 bytes. *)
Definition legalLabel (s : string) : Prop :=
  matches dns1123LabelFmt s /\ (String.length s <= DNS1123LabelMaxLength)%nat.

End grammar.

(** ** The unique label as the specification words it

    The hash suffix is described there as a hyphen followed by the eight
    lowest-order hexadecimal digits of the hash. *)
Module worded.
Import gostrings validation namer.

Fixpoint lowestHexDigits (k : nat) (x : Z) (acc : string) : string :=
  match k with
  | O => acc
  | S k' => lowestHexDigits k' (x / 16) (String (hexDigit (x mod 16)) acc)
  end.

Definition lowestSuffix (name : string) : string :=
  "-" +:+ lowestHexDigits 8 (xxhash.Sum64 name) "".

Definition UniqueLabel `{UnicodeTables} (rn : ResourceNamer) (name : string) : string :=
  slice_to (sanitizedLabel rn name) (DNS1123LabelMaxLength - 9) +:+ lowestSuffix name.

End worded.

(** ** pkg/k8s/finalizer.go *)
Module finalizer.

(** The values stored under the keys of a [map[string]any] literal here:
    a string or a slice of strings. *)
Inductive any : Type :=
| AnyString (s : string)
| AnyStrings (l : list string).

(** A [[]byte]: [None] is the nil slice, [Some ""] an empty one. *)
Definition bytes : Type := option string.

(** [json.Marshal] on a [[]map[string]any] belongs to the Go standard
    library and is a parameter. *)
Class Encoder : Type :=
  json_Marshal : list (gmap string any) -> bytes * option error.

Definition StatusCleanupFinalizerName : string :=
  "monitoring.coreos.com/status-cleanup".

(** [slices.Contains] *)
Fixpoint Contains (l : list string) (x : string) : bool :=
  match l with
  | [] => false
  | y :: r => String.eqb y x || Contains r x
  end.

(** [fmt.Sprintf("/metadata/finalizers/%d", i)] *)
Definition indexPath (i : nat) : string := "/metadata/finalizers/" +:+ pretty i.

Section Patches.
Context `{Encoder}.

Definition FinalizerAddPatch (finalizers : list string) (finalizerName : string)
  : bytes * option error :=
  if Contains finalizers finalizerName then (Some "", None)
  else if (length finalizers =? 0)%nat then
    json_Marshal
      [ {[ "op" := AnyString "add";
           "path" := AnyString "/metadata/finalizers";
           "value" := AnyStrings [finalizerName] ]} ]
  else
    json_Marshal
      [ {[ "op" := AnyString "add";
           "path" := AnyString "/metadata/finalizers/-";
           "value" := AnyString finalizerName ]} ].

(** The [range] loop, [i] being the index of the head of [rest]. *)
Fixpoint deleteFrom (i : nat) (rest : list string) (finalizerName : string)
  : bytes * option error :=
  match rest with
  | [] => (None, None)
  | f :: rest' =>
      if String.eqb f finalizerName then
        json_Marshal
          [ {[ "op" := AnyString "test";
               "path" := AnyString (indexPath i);
               "value" := AnyString finalizerName ]};
            {[ "op" := AnyString "remove";
               "path" := AnyString (indexPath i) ]} ]
      else deleteFrom (S i) rest' finalizerName
  end.

Definition FinalizerDeletePatch (finalizers : list string) (finalizerName : string)
  : bytes * option error :=
  deleteFrom 0 finalizers finalizerName.

End Patches.

(** The patch operations of the data model, and the JSON object each one
    stands for. *)
Inductive operation : Type :=
| Add (path : string) (value : any)
| Test (path : string) (value : any)
| Remove (path : string).

Definition object_of (o : operation) : gmap string any :=
  match o with
  | Add p v => {[ "op" := AnyString "add"; "path" := AnyString p; "value" := v ]}
  | Test p v => {[ "op" := AnyString "test"; "path" := AnyString p; "value" := v ]}
  | Remove p => {[ "op" := AnyString "remove"; "path" := AnyString p ]}
  end.

End finalizer.

(** ** The RBAC check ([IsAllowed]) *)
Module rbac.

(** [strconv.Quote], used by the [%q] verb. *)
Class Quoting : Type := Quote : string -> string.

Record ResourceAttribute : Type := mkResourceAttribute {
  Resource : string;
  Name : string;
  Group : string;
  Version : string;
  Verbs : list string }.

(** [authv1.ResourceAttributes] *)
Record ResourceAttributes : Type := mkResourceAttributes {
  ra_Namespace : string;
  ra_Verb : string;
  ra_Group : string;
  ra_Version : string;
  ra_Resource : string;
  ra_Name : string }.

(** [authv1.SubjectAccessReviewStatus] *)
Record SubjectAccessReviewStatus : Type := mkSARStatus {
  Allowed : bool;
  Denied : bool;
  Reason : string }.

(** [v1.NamespaceAll] *)
Definition NamespaceAll : string := "".

(** [clientauthv1.SelfSubjectAccessReviewInterface]: [Create] answers a
    review with a status or fails, and may change the state of whatever
    stands behind the client. *)
Record SelfSubjectAccessReviewInterface (St : Type) : Type := {
  Create : ResourceAttributes -> St -> (SubjectAccessReviewStatus + error) * St }.
Arguments Create {St} _ _ _.

(** A submitted check with its answer. *)
Abbreviation answered :=
  (string * ResourceAttribute * string * (SubjectAccessReviewStatus + error))%type.

Section IsAllowed.
Context `{Quoting} {St : Type} (ssarClient : SelfSubjectAccessReviewInterface St).

Definition reviewRequest (ns : string) (ra : ResourceAttribute) (verb : string)
  : ResourceAttributes :=
  let resourceAttributes :=
    {| ra_Verb := verb; ra_Group := Group ra; ra_Version := Version ra;
       ra_Resource := Resource ra; ra_Name := Name ra; ra_Namespace := ns |} in
  if String.eqb (ra_Group resourceAttributes) ""
     && String.eqb (ra_Resource resourceAttributes) "namespaces"
     && negb (String.eqb (ra_Name resourceAttributes) "")
     && String.eqb (ra_Namespace resourceAttributes) ""
  then {| ra_Verb := verb; ra_Group := Group ra; ra_Version := Version ra;
          ra_Resource := Resource ra; ra_Name := Name ra;
          ra_Namespace := Name ra |}
  else resourceAttributes.

Definition missingPermission (ns : string) (ra : ResourceAttribute) (verb : string)
  : error :=
  let resource :=
    if negb (String.eqb (Name ra) "") then Resource ra +:+ "/" +:+ Name ra
    else Resource ra in
  if String.eqb ns NamespaceAll then
    errors_New ("missing " +:+ Quote verb +:+ " permission on resource "
                +:+ Quote resource +:+ " (group: " +:+ Quote (Group ra)
                +:+ ") for all namespaces")
  else
    errors_New ("missing " +:+ Quote verb +:+ " permission on resource "
                +:+ Quote resource +:+ " (group: " +:+ Quote (Group ra)
                +:+ ") for namespace " +:+ Quote ns).

(** The three nested [range] loops.  Each returns [inl err] when a
    review failed (the function then returns at once), or [inr] of the
    missing permissions accumulated so far. *)
Fixpoint overVerbs (ns : string) (ra : ResourceAttribute) (verbs : list string)
         (missingPermissions : list error) (st : St)
  : (error + list error) * St :=
  match verbs with
  | [] => (inr missingPermissions, st)
  | verb :: verbs' =>
      match Create ssarClient (reviewRequest ns ra verb) st with
      | (inr err, st') => (inl err, st')
      | (inl ssarResponse, st') =>
          let missingPermissions' :=
            if negb (Allowed ssarResponse)
            then missingPermissions ++ [missingPermission ns ra verb]
            else missingPermissions in
          overVerbs ns ra verbs' missingPermissions' st'
      end
  end.

Fixpoint overAttributes (ns : string) (attributes : list ResourceAttribute)
         (missingPermissions : list error) (st : St)
  : (error + list error) * St :=
  match attributes with
  | [] => (inr missingPermissions, st)
  | ra :: attributes' =>
      match overVerbs ns ra (Verbs ra) missingPermissions st with
      | (inl err, st') => (inl err, st')
      | (inr missingPermissions', st') =>
          overAttributes ns attributes' missingPermissions' st'
      end
  end.

Fixpoint overNamespaces (namespaces : list string)
         (attributes : list ResourceAttribute)
         (missingPermissions : list error) (st : St)
  : (error + list error) * St :=
  match namespaces with
  | [] => (inr missingPermissions, st)
  | ns :: namespaces' =>
      match overAttributes ns attributes missingPermissions st with
      | (inl err, st') => (inl err, st')
      | (inr missingPermissions', st') =>
          overNamespaces namespaces' attributes missingPermissions' st'
      end
  end.

(** Returns [(allowed, missing permissions, error)]. *)
Definition IsAllowed (namespaces : list string)
           (attributes : list ResourceAttribute) (st : St)
  : (bool * list error * option error) * St :=
  if (length attributes =? 0)%nat then
    ((false, [], Some (errors_New "resource attributes must not be empty")), st)
  else
    let namespaces :=
      if (length namespaces =? 0)%nat then [NamespaceAll] else namespaces in
    match overNamespaces namespaces attributes [] st with
    | (inl err, st') => ((false, [], Some err), st')
    | (inr missingPermissions, st') =>
        (((length missingPermissions =? 0)%nat, missingPermissions, None), st')
    end.

(** *** The same evaluation, described over the flat list of checks *)

Definition checks (namespaces : list string) (attributes : list ResourceAttribute)
  : list (string * ResourceAttribute * string) :=
  ns ← (if (length namespaces =? 0)%nat then [NamespaceAll] else namespaces);
  ra ← attributes;
  verb ← Verbs ra;
  [(ns, ra, verb)].

(** Submit the checks in order, stopping after the first failed request;
    every submitted check is listed with its answer. *)
Fixpoint submit (cs : list (string * ResourceAttribute * string)) (st : St)
  : list answered * St :=
  match cs with
  | [] => ([], st)
  | (ns, ra, verb) :: cs' =>
      match Create ssarClient (reviewRequest ns ra verb) st with
      | (inr err, st') => ([(ns, ra, verb, inr err)], st')
      | (inl status, st') =>
          let '(answers, st'') := submit cs' st' in
          ((ns, ra, verb, inl status) :: answers, st'')
      end
  end.

Definition failure
  (answers : list answered)
  : option error :=
  match last answers with
  | Some (_, inr err) => Some err
  | _ => None
  end.

Definition denials
  (answers : list answered)
  : list error :=
  '(ns, ra, verb, answer) ← answers;
  match answer with
  | inl status => if Allowed status then [] else [missingPermission ns ra verb]
  | inr _ => []
  end.

(** What the loops hand back after the answers [answers], having
    started with the denials [acc]. *)
Definition handBack (acc : list error)
  (answers : list answered)
  : error + list error :=
  match failure answers with
  | Some err => inl err
  | None => inr (acc ++ denials answers)
  end.

End IsAllowed.
End rbac.

(** ** Objects, and the store their maps and pointers live in

    A Go map is a reference: two variables can name the same map, and a
    write through one is seen through the other.  The package relies on it
    ([mergeMapsByPrefix] writes into the map it is given), so maps live in
    a store and objects hold locations.  The same holds for the [*bool]
    fields of an owner reference, which Go compares by address.

    Every record is given for two representations of maps and flag
    pointers: locations of the store (an object in memory) and plain values
    (an object as the API server sends and receives it). *)
Module metav1.

Definition loc : Type := positive.

Record store : Type := mkStore {
  maps : gmap loc (gmap string string);
  bools : gmap loc bool }.

(** The content of the map at [l]. *)
Definition contents (s : store) (l : loc) : gmap string string :=
  default ∅ (maps s !! l).

(** What a possibly nil map reads as. *)
Definition view (s : store) (m : option loc) : gmap string string :=
  match m with
  | None => ∅
  | Some l => contents s l
  end.

(** [make(map[string]string)] *)
Definition make (s : store) : loc * store :=
  let l := fresh (dom (maps s)) in
  (l, mkStore (<[l := ∅]> (maps s)) (bools s)).

(** [m[k] = v] for the map at [l] *)
Definition mapassign (l : loc) (k v : string) (s : store) : store :=
  mkStore (<[l := <[k := v]> (contents s l)]> (maps s)) (bools s).

Record OwnerReference (B : Type) : Type := mkOwnerReference {
  ref_APIVersion : string;
  ref_Kind : string;
  ref_Name : string;
  ref_UID : string;
  ref_Controller : option B;
  ref_BlockOwnerDeletion : option B }.
Arguments mkOwnerReference {B}.
Arguments ref_APIVersion {B}.
Arguments ref_Kind {B}.
Arguments ref_Name {B}.
Arguments ref_UID {B}.
Arguments ref_Controller {B}.
Arguments ref_BlockOwnerDeletion {B}.

Record ObjectMeta (M B : Type) : Type := mkObjectMeta {
  Name : string;
  Namespace : string;
  ResourceVersion : string;
  Labels : option M;
  Annotations : option M;
  OwnerReferences : list (OwnerReference B) }.
Arguments mkObjectMeta {M B}.
Arguments Name {M B}.
Arguments Namespace {M B}.
Arguments ResourceVersion {M B}.
Arguments Labels {M B}.
Arguments Annotations {M B}.
Arguments OwnerReferences {M B}.

(** Go's [==] on two [metav1.OwnerReference] structs in memory: the four
    strings by content, the two pointers by address. *)
#[global] Instance OwnerReference_eq_dec : EqDecision (OwnerReference loc).
Proof. solve_decision. Defined.

(** *** Decoding an object received from the server into memory, and
    encoding an object in memory for sending *)

Definition decodeMap (m : option (gmap string string)) (s : store)
  : option loc * store :=
  match m with
  | None => (None, s)
  | Some m =>
      let l := fresh (dom (maps s)) in
      (Some l, mkStore (<[l := m]> (maps s)) (bools s))
  end.

Definition decodeBool (b : option bool) (s : store) : option loc * store :=
  match b with
  | None => (None, s)
  | Some b =>
      let l := fresh (dom (bools s)) in
      (Some l, mkStore (maps s) (<[l := b]> (bools s)))
  end.

Definition decodeOwnerReference (r : OwnerReference bool) (s : store)
  : OwnerReference loc * store :=
  let '(c, s) := decodeBool (ref_Controller r) s in
  let '(b, s) := decodeBool (ref_BlockOwnerDeletion r) s in
  (mkOwnerReference (ref_APIVersion r) (ref_Kind r) (ref_Name r) (ref_UID r) c b, s).

Fixpoint decodeOwnerReferences (rs : list (OwnerReference bool)) (s : store)
  : list (OwnerReference loc) * store :=
  match rs with
  | [] => ([], s)
  | r :: rs' =>
      let '(r', s) := decodeOwnerReference r s in
      let '(rs'', s) := decodeOwnerReferences rs' s in
      (r' :: rs'', s)
  end.

Definition decodeObjectMeta (m : ObjectMeta (gmap string string) bool) (s : store)
  : ObjectMeta loc loc * store :=
  let '(labels, s) := decodeMap (Labels m) s in
  let '(annotations, s) := decodeMap (Annotations m) s in
  let '(refs, s) := decodeOwnerReferences (OwnerReferences m) s in
  (mkObjectMeta (Name m) (Namespace m) (ResourceVersion m) labels annotations refs, s).

Definition encodeOwnerReference (s : store) (r : OwnerReference loc)
  : OwnerReference bool :=
  mkOwnerReference (ref_APIVersion r) (ref_Kind r) (ref_Name r) (ref_UID r)
    ((fun l => default false (bools s !! l)) <$> ref_Controller r)
    ((fun l => default false (bools s !! l)) <$> ref_BlockOwnerDeletion r).

Definition encodeObjectMeta (s : store) (m : ObjectMeta loc loc)
  : ObjectMeta (gmap string string) bool :=
  mkObjectMeta (Name m) (Namespace m) (ResourceVersion m)
    (contents s <$> Labels m) (contents s <$> Annotations m)
    (encodeOwnerReference s <$> OwnerReferences m).

End metav1.

(** ** The metadata merge policy (from the package's client helpers) *)
Module merge.
Import gostrings metav1.

(** The [range] loop of [mergeMapsByPrefix] over the entries of [from],
    writing into the map at [to].  The order in which Go visits the
    entries is unspecified; keys are distinct, so it does not matter. *)
Definition copyByPrefix (from : gmap string string) (to : loc) (prefix : string)
           (s : store) : store :=
  map_fold (fun k v s => if HasPrefix k prefix then mapassign to k v s else s)
           s from.

Definition mergeMapsByPrefix (from to : option loc) (prefix : string) (s : store)
  : option loc * store :=
  let '(to, s) :=
    match to with
    | None => make s
    | Some l => (l, s)
    end in
  let '(from, s) :=
    match from with
    | None => make s
    | Some l => (l, s)
    end in
  (Some to, copyByPrefix (contents s from) to prefix s).

Definition mergeMaps (newObj oldObj : option loc) (s : store) : option loc * store :=
  mergeMapsByPrefix newObj oldObj "" s.

(** [newObj] is a pointer: the updated record is returned. *)
Definition mergeMetadata (newObj oldObj : ObjectMeta loc loc) (s : store)
  : ObjectMeta loc loc * store :=
  let newObj :=
    mkObjectMeta (Name newObj) (Namespace newObj) (ResourceVersion oldObj)
      (Labels newObj) (Annotations newObj) (OwnerReferences newObj) in
  let '(labels, s) := mergeMaps (Labels newObj) (Labels oldObj) s in
  let newObj :=
    mkObjectMeta (Name newObj) (Namespace newObj) (ResourceVersion newObj)
      labels (Annotations newObj) (OwnerReferences newObj) in
  let '(annotations, s) := mergeMaps (Annotations newObj) (Annotations oldObj) s in
  (mkObjectMeta (Name newObj) (Namespace newObj) (ResourceVersion newObj)
     (Labels newObj) annotations (OwnerReferences newObj), s).

(** [from] is a pointer, [to] is passed by value: only [from] is
    assigned, and the caller's [to] changes only through its map. *)
Definition mergeKubectlAnnotations (from to : ObjectMeta loc loc) (s : store)
  : ObjectMeta loc loc * store :=
  let '(annotations, s) :=
    mergeMapsByPrefix (Annotations from) (Annotations to) "kubectl.kubernetes.io/" s in
  (mkObjectMeta (Name from) (Namespace from) (ResourceVersion from)
     (Labels from) annotations (OwnerReferences from), s).

(** [existing := make(map[metav1.OwnerReference]bool)], as the list of
    its keys. *)
Definition mergeOwnerReferences (oldObj newObj : list (OwnerReference loc))
  : list (OwnerReference loc) :=
  let existing := foldl (fun existing ownerRef => ownerRef :: existing) [] oldObj in
  foldl (fun oldObj ownerRef =>
           if bool_decide (ownerRef ∈ existing) then oldObj
           else oldObj ++ [ownerRef])
        oldObj newObj.

(** The merge of two mappings as the data model states it: the union of
    the keys, the desired value on a shared key, the observed value on a
    key of the observed mapping alone. *)
Definition desiredWins (result desired observed : gmap string string) : Prop :=
  forall k,
    result !! k = match desired !! k with
                  | Some v => Some v
                  | None => observed !! k
                  end.

(** A map that is not nil exists in the store. *)
Definition refAllocated (s : store) (r : option loc) : Prop :=
  forall l, r = Some l -> is_Some (maps s !! l).

(** All maps an object holds exist in the store. *)
Definition allocated (s : store) (m : ObjectMeta loc loc) : Prop :=
  refAllocated s (Labels m) /\ refAllocated s (Annotations m).

End merge.

(** ** Clients, the world a reconciliation runs in, and the retry loop *)
Module client.
Import metav1.

Inductive DeletionPropagation : Type :=
| DeletePropagationOrphan
| DeletePropagationBackground
| DeletePropagationForeground.

(** A typed client of client-go for objects sent as [O], over whatever
    state [St] the server has.  A call yields an object or an error. *)
Record Interface (St O : Type) : Type := {
  Get : string -> St -> (O + error) * St;
  Create : O -> St -> (O + error) * St;
  Update : O -> St -> (O + error) * St;
  Delete : string -> option DeletionPropagation -> St -> option error * St }.
Arguments Get {St O} _ _ _.
Arguments Create {St O} _ _ _.
Arguments Update {St O} _ _ _.
Arguments Delete {St O} _ _ _ _.

(** The requests issued, with their answers, in order. *)
Inductive call (O : Type) : Type :=
| CallGet (name : string) (answer : O + error)
| CallCreate (obj : O) (answer : O + error)
| CallUpdate (obj : O) (answer : O + error)
| CallDelete (name : string) (policy : option DeletionPropagation)
             (answer : option error).
Arguments CallGet {O}.
Arguments CallCreate {O}.
Arguments CallUpdate {O}.
Arguments CallDelete {O}.

Record world (St O : Type) : Type := mkWorld {
  heap : store;
  server : St;
  log : list (call O) }.
Arguments mkWorld {St O}.
Arguments heap {St O}.
Arguments server {St O}.
Arguments log {St O}.

(** [apierrors.IsNotFound] and [apierrors.IsConflict] classify an error by
    the reason and code it carries; the classification is a parameter. *)
Class Classifier : Type := {
  IsNotFound : error -> bool;
  IsConflict : error -> bool }.

Section Calls.
Context {St O : Type} (c : Interface St O).

Definition withHeap (h : store) (w : world St O) : world St O :=
  mkWorld h (server w) (log w).

Definition callGet (name : string) (w : world St O) : (O + error) * world St O :=
  let '(answer, st) := Get c name (server w) in
  (answer, mkWorld (heap w) st (log w ++ [CallGet name answer])).

Definition callCreate (obj : O) (w : world St O) : (O + error) * world St O :=
  let '(answer, st) := Create c obj (server w) in
  (answer, mkWorld (heap w) st (log w ++ [CallCreate obj answer])).

Definition callUpdate (obj : O) (w : world St O) : (O + error) * world St O :=
  let '(answer, st) := Update c obj (server w) in
  (answer, mkWorld (heap w) st (log w ++ [CallUpdate obj answer])).

Definition callDelete (name : string) (policy : option DeletionPropagation)
           (w : world St O) : option error * world St O :=
  let '(answer, st) := Delete c name policy (server w) in
  (answer, mkWorld (heap w) st (log w ++ [CallDelete name policy answer])).

(** The requests of [calls], issued in this order on a server in state
    [st], get from the client the answers [calls] records and leave
    the server in state [st']. *)
Fixpoint served (st : St) (calls : list (call O)) (st' : St) : Prop :=
  match calls with
  | [] => st' = st
  | CallGet name answer :: rest =>
      answer = (Get c name st).1 /\ served (Get c name st).2 rest st'
  | CallCreate obj answer :: rest =>
      answer = (Create c obj st).1 /\ served (Create c obj st).2 rest st'
  | CallUpdate obj answer :: rest =>
      answer = (Update c obj st).1 /\ served (Update c obj st).2 rest st'
  | CallDelete name policy answer :: rest =>
      answer = (Delete c name policy st).1
      /\ served (Delete c name policy st).2 rest st'
  end.

End Calls.

(** The error an answer carries, if any. *)
Definition answerError {O : Type} (answer : O + error) : option error :=
  match answer with
  | inl _ => None
  | inr err => Some err
  end.

(** The error a call was answered with, and the object a create or an
    update was answered with. *)
Definition callError {O : Type} (k : call O) : option error :=
  match k with
  | CallGet _ answer | CallCreate _ answer | CallUpdate _ answer => answerError answer
  | CallDelete _ _ answer => answer
  end.

Definition callObject {O : Type} (k : call O) : option O :=
  match k with
  | CallCreate _ (inl o) | CallUpdate _ (inl o) => Some o
  | _ => None
  end.

(** What the last call of an attempt was answered with. *)
Definition attemptError {O : Type} (calls : list (call O)) : option error :=
  last calls ≫= callError.

Definition attemptObject {O : Type} (calls : list (call O)) : option O :=
  last calls ≫= callObject.

(** The attempt ended on a conflict. *)
Definition conflicted `{Classifier} {O : Type} (calls : list (call O)) : bool :=
  match attemptError calls with
  | Some err => IsConflict err
  | None => false
  end.

(** Modelled from the spec: [retry.RetryOnConflict(retry.DefaultRetry, fn)]
    of client-go is not part of the repository.  The closure is run; a
    conflict triggers a fresh attempt, up to a small fixed number of
    attempts (five in [retry.DefaultRetry]); success or any other error
    ends the loop and is returned unaltered; when the attempts run out the
    last conflict is returned.  The waits between attempts have no effect
    on the model.  [S] is the state the closure captures and updates. *)
Section Retry.
Context `{Classifier} {W S : Type}.

Definition DefaultRetry_Steps : nat := 5.

Fixpoint OnConflict (steps : nat) (fn : S -> W -> (option error * S) * W)
         (lastErr : option error) (s : S) (w : W) : (option error * S) * W :=
  match steps with
  | O => ((lastErr, s), w)
  | Datatypes.S steps' =>
      let '((err, s'), w') := fn s w in
      match err with
      | None => ((None, s'), w')
      | Some e =>
          if IsConflict e then OnConflict steps' fn (Some e) s' w'
          else ((Some e, s'), w')
      end
  end.

Definition RetryOnConflict (fn : S -> W -> (option error * S) * W)
           (s : S) (w : W) : (option error * S) * W :=
  OnConflict DefaultRetry_Steps fn None s w.

End Retry.
End client.

(** ** pkg/k8s/network.go *)
Module network.
Import metav1 merge client.

Record ServicePort : Type := mkServicePort {
  port_Name : string;
  port_Port : Z }.

(** [v1.ServiceSpec]: the four fields the server assigns, and two of the
    fields the operator sets.  [IPFamilyPolicy] is a pointer in Go, never
    written through: [None] is nil. *)
Record ServiceSpec : Type := mkServiceSpec {
  Ports : list ServicePort;
  Selector : gmap string string;
  ClusterIP : string;
  ClusterIPs : list string;
  IPFamilies : list string;
  IPFamilyPolicy : option string }.

Record Service (M B : Type) : Type := mkService {
  svc_ObjectMeta : ObjectMeta M B;
  svc_Spec : ServiceSpec }.
Arguments mkService {M B}.
Arguments svc_ObjectMeta {M B}.
Arguments svc_Spec {M B}.

Record EndpointSlice (M B : Type) : Type := mkEndpointSlice {
  eps_ObjectMeta : ObjectMeta M B;
  eps_AddressType : string;
  eps_Endpoints : list string }.
Arguments mkEndpointSlice {M B}.
Arguments eps_ObjectMeta {M B}.
Arguments eps_AddressType {M B}.
Arguments eps_Endpoints {M B}.

(** Objects in memory and on the wire. *)
Abbreviation ServiceM := (Service loc loc).
Abbreviation ServiceW := (Service (gmap string string) bool).
Abbreviation EndpointSliceM := (EndpointSlice loc loc).
Abbreviation EndpointSliceW := (EndpointSlice (gmap string string) bool).

Definition decodeService (o : ServiceW) (s : store) : ServiceM * store :=
  let '(m, s) := decodeObjectMeta (svc_ObjectMeta o) s in
  (mkService m (svc_Spec o), s).

Definition encodeService (s : store) (o : ServiceM) : ServiceW :=
  mkService (encodeObjectMeta s (svc_ObjectMeta o)) (svc_Spec o).

Definition decodeEndpointSlice (o : EndpointSliceW) (s : store)
  : EndpointSliceM * store :=
  let '(m, s) := decodeObjectMeta (eps_ObjectMeta o) s in
  (mkEndpointSlice m (eps_AddressType o) (eps_Endpoints o), s).

Definition encodeEndpointSlice (s : store) (o : EndpointSliceM) : EndpointSliceW :=
  mkEndpointSlice (encodeObjectMeta s (eps_ObjectMeta o))
    (eps_AddressType o) (eps_Endpoints o).

Section Services.
Context `{Classifier} {St : Type} (sclient : Interface St ServiceW).

(** The closure handed to [RetryOnConflict]; it captures [svc] (a
    pointer, updated in place) and [ret]. *)
Definition serviceAttempt (captured : ServiceM * option ServiceW)
           (w : world St ServiceW)
  : (option error * (ServiceM * option ServiceW)) * world St ServiceW :=
  let '(svc, ret) := captured in
  let '(answer, w) := callGet sclient (Name (svc_ObjectMeta svc)) w in
  match answer with
  | inr err =>
      if negb (IsNotFound err) then ((Some err, (svc, ret)), w)
      else
        let '(answer, w) := callCreate sclient (encodeService (heap w) svc) w in
        match answer with
        | inl created => ((None, (svc, Some created)), w)
        | inr err => ((Some err, (svc, None)), w)
        end
  | inl observed =>
      let '(service, h) := decodeService observed (heap w) in
      let w := withHeap h w in
      (* Apply immutable fields from the existing service. *)
      let spec :=
        mkServiceSpec (Ports (svc_Spec svc)) (Selector (svc_Spec svc))
          (ClusterIP (svc_Spec service)) (ClusterIPs (svc_Spec service))
          (IPFamilies (svc_Spec service)) (IPFamilyPolicy (svc_Spec service)) in
      let m := svc_ObjectMeta svc in
      let m :=
        mkObjectMeta (Name m) (Namespace m) (ResourceVersion m)
          (Labels m) (Annotations m)
          (mergeOwnerReferences (OwnerReferences (svc_ObjectMeta service))
                                (OwnerReferences m)) in
      let '(m, h) := mergeMetadata m (svc_ObjectMeta service) (heap w) in
      let w := withHeap h w in
      let svc := mkService m spec in
      let '(answer, w) := callUpdate sclient (encodeService (heap w) svc) w in
      match answer with
      | inl updated => ((None, (svc, Some updated)), w)
      | inr err => ((Some err, (svc, None)), w)
      end
  end.

(** The object sent carries the name, the ports and the selector of
    the desired Service. *)
Definition wants {M B : Type} (svc : ServiceM) (sent : Service M B) : Prop :=
  Name (svc_ObjectMeta sent) = Name (svc_ObjectMeta svc)
  /\ Ports (svc_Spec sent) = Ports (svc_Spec svc)
  /\ Selector (svc_Spec sent) = Selector (svc_Spec svc).

(** What the closure captures when an attempt starts: the desired
    Service, with the name, ports and selector the caller gave it, and
    no object to return yet. *)
Definition pending (svc : ServiceM) (captured : ServiceM * option ServiceW) : Prop :=
  wants svc captured.1 /\ captured.2 = None.

(** The calls one attempt can issue for the desired Service [svc]: a
    read that fails; a read answered "not found" and a create; a read
    that finds [observed] and an update writing an object that carries
    the four fields the server assigned to [observed]. *)
Inductive serviceCalls (svc : ServiceM) : list (call ServiceW) -> Prop :=
| calls_read_failed err :
    IsNotFound err = false ->
    serviceCalls svc [CallGet (Name (svc_ObjectMeta svc)) (inr err)]
| calls_created err created answer :
    IsNotFound err = true ->
    wants svc created ->
    serviceCalls svc [CallGet (Name (svc_ObjectMeta svc)) (inr err);
                      CallCreate created answer]
| calls_updated observed written answer :
    wants svc written ->
    ClusterIP (svc_Spec written) = ClusterIP (svc_Spec observed) ->
    ClusterIPs (svc_Spec written) = ClusterIPs (svc_Spec observed) ->
    IPFamilies (svc_Spec written) = IPFamilies (svc_Spec observed) ->
    IPFamilyPolicy (svc_Spec written) = IPFamilyPolicy (svc_Spec observed) ->
    serviceCalls svc [CallGet (Name (svc_ObjectMeta svc)) (inl observed);
                      CallUpdate written answer].

(** Returns [ret], the error, and the caller's [svc] as the call left
    it. *)
Definition CreateOrUpdateService (svc : ServiceM) (w : world St ServiceW)
  : (option ServiceW * option error * ServiceM) * world St ServiceW :=
  let '((err, (svc, ret)), w) := RetryOnConflict serviceAttempt (svc, None) w in
  ((ret, err, svc), w).

End Services.

Section EndpointSlices.
Context `{Classifier} {St : Type} (c : Interface St EndpointSliceW).

Definition endpointSliceAttempt (eps : EndpointSliceM)
           (w : world St EndpointSliceW)
  : (option error * EndpointSliceM) * world St EndpointSliceW :=
  if String.eqb (Name (eps_ObjectMeta eps)) "" then
    let '(answer, w) := callCreate c (encodeEndpointSlice (heap w) eps) w in
    match answer with
    | inl _ => ((None, eps), w)
    | inr err => ((Some err, eps), w)
    end
  else
    let '(answer, w) := callGet c (Name (eps_ObjectMeta eps)) w in
    match answer with
    | inr err =>
        if negb (IsNotFound err) then ((Some err, eps), w)
        else
          let '(answer, w) := callCreate c (encodeEndpointSlice (heap w) eps) w in
          match answer with
          | inl _ => ((None, eps), w)
          | inr err => ((Some err, eps), w)
          end
    | inl observed =>
        let '(endpoints, h) := decodeEndpointSlice observed (heap w) in
        let w := withHeap h w in
        let '(m, h) := mergeMetadata (eps_ObjectMeta eps)
                         (eps_ObjectMeta endpoints) (heap w) in
        let w := withHeap h w in
        let eps := mkEndpointSlice m (eps_AddressType eps) (eps_Endpoints eps) in
        let '(answer, w) := callUpdate c (encodeEndpointSlice (heap w) eps) w in
        match answer with
        | inl _ => ((None, eps), w)
        | inr err => ((Some err, eps), w)
        end
    end.

(** The answers to the creates of a nameless EndpointSlice: all but the
    last are conflicts, and the last is one only when the attempts ran
    out. *)
Definition onlyConflictsBeforeLast (steps : nat)
           (answers : list (EndpointSliceW + error)) : Prop :=
  (forall i answer, (i + 1 < length answers)%nat -> answers !! i = Some answer ->
                    exists err, answer = inr err /\ IsConflict err = true)
  /\ ((length answers < steps)%nat ->
      forall err, last answers = Some (inr err) -> IsConflict err = false).

Definition CreateOrUpdateEndpointSlice (eps : EndpointSliceM)
           (w : world St EndpointSliceW)
  : (option error * EndpointSliceM) * world St EndpointSliceW :=
  RetryOnConflict endpointSliceAttempt eps w.

End EndpointSlices.
End network.

(** ** The StatefulSet helpers, and [UpdateDaemonSet] *)
Module workloads.
Import gostrings metav1 merge client.

(** [corev1.PodTemplateSpec] *)
Record PodTemplateSpec (M B : Type) : Type := mkPodTemplateSpec {
  tpl_ObjectMeta : ObjectMeta M B;
  tpl_Containers : list string }.
Arguments mkPodTemplateSpec {M B}.
Arguments tpl_ObjectMeta {M B}.
Arguments tpl_Containers {M B}.

(** What [appsv1.StatefulSet] and [appsv1.DaemonSet] have in common as
    far as the package goes: the object's metadata, the pod selector and
    the pod template. *)
Record Workload (M B : Type) : Type := mkWorkload {
  wl_ObjectMeta : ObjectMeta M B;
  wl_Selector : gmap string string;
  wl_Template : PodTemplateSpec M B }.
Arguments mkWorkload {M B}.
Arguments wl_ObjectMeta {M B}.
Arguments wl_Selector {M B}.
Arguments wl_Template {M B}.

Abbreviation WorkloadM := (Workload loc loc).
Abbreviation WorkloadW := (Workload (gmap string string) bool).

Definition decodeWorkload (o : WorkloadW) (s : store) : WorkloadM * store :=
  let '(m, s) := decodeObjectMeta (wl_ObjectMeta o) s in
  let '(t, s) := decodeObjectMeta (tpl_ObjectMeta (wl_Template o)) s in
  (mkWorkload m (wl_Selector o)
     (mkPodTemplateSpec t (tpl_Containers (wl_Template o))), s).

Definition encodeWorkload (s : store) (o : WorkloadM) : WorkloadW :=
  mkWorkload (encodeObjectMeta s (wl_ObjectMeta o)) (wl_Selector o)
    (mkPodTemplateSpec (encodeObjectMeta s (tpl_ObjectMeta (wl_Template o)))
       (tpl_Containers (wl_Template o))).

Section Workloads.
Context `{Classifier} {St : Type} (wclient : Interface St WorkloadW).

(** The closure of [updateStatefulSet]; the closure of [UpdateDaemonSet]
    is the same text with [dset] for [sset]. *)
Definition updateAttempt (sset : WorkloadM) (w : world St WorkloadW)
  : (option error * WorkloadM) * world St WorkloadW :=
  let '(answer, w) := callGet wclient (Name (wl_ObjectMeta sset)) w in
  match answer with
  | inr err => ((Some err, sset), w)
  | inl observed =>
      let '(existingSset, h) := decodeWorkload observed (heap w) in
      let '(m, h) := mergeMetadata (wl_ObjectMeta sset)
                       (wl_ObjectMeta existingSset) h in
      let sset := mkWorkload m (wl_Selector sset) (wl_Template sset) in
      (* Propagate annotations set by kubectl on spec.template.annotations. *)
      let '(_, h) :=
        mergeKubectlAnnotations (tpl_ObjectMeta (wl_Template existingSset))
          (tpl_ObjectMeta (wl_Template sset)) h in
      let w := withHeap h w in
      let '(answer, w) := callUpdate wclient (encodeWorkload (heap w) sset) w in
      match answer with
      | inl _ => ((None, sset), w)
      | inr err => ((Some err, sset), w)
      end
  end.

(** The pod template annotations of an object on the wire. *)
Definition templateAnnotations (o : WorkloadW) : gmap string string :=
  default ∅ (Annotations (tpl_ObjectMeta (wl_Template o))).

(** The calls one attempt issues when the desired pod template came
    with the annotation map [proposed]: a read that fails, or a read
    that finds [observed] followed by an update writing an object whose
    template annotations have, on every key with the kubectl prefix
    that [observed] has, the value [observed] has, and on every key
    without the prefix what was proposed. *)
Inductive updateCalls (name : string) (proposed : gmap string string)
  : list (call WorkloadW) -> Prop :=
| update_read_failed err :
    updateCalls name proposed [CallGet name (inr err)]
| update_written observed written answer :
    (forall k v,
        HasPrefix k "kubectl.kubernetes.io/" = true ->
        templateAnnotations observed !! k = Some v ->
        templateAnnotations written !! k = Some v) ->
    (forall k,
        HasPrefix k "kubectl.kubernetes.io/" = false ->
        templateAnnotations written !! k = proposed !! k) ->
    updateCalls name proposed
      [CallGet name (inl observed); CallUpdate written answer].

(** What holds before every attempt: the desired object keeps its name
    and its template; its maps exist; the template annotation map, at
    [t], still has the proposed values on keys without the prefix. *)
Definition attemptReady (name : string) (proposed : gmap string string) (t : loc)
           (sset : WorkloadM) (w : world St WorkloadW) : Prop :=
  Name (wl_ObjectMeta sset) = name
  /\ Annotations (tpl_ObjectMeta (wl_Template sset)) = Some t
  /\ is_Some (maps (heap w) !! t)
  /\ allocated (heap w) (wl_ObjectMeta sset)
  /\ (forall k, HasPrefix k "kubectl.kubernetes.io/" = false ->
                contents (heap w) t !! k = proposed !! k).

Definition updateStatefulSet (sset : WorkloadM) (w : world St WorkloadW)
  : (option error * WorkloadM) * world St WorkloadW :=
  RetryOnConflict updateAttempt sset w.

Definition UpdateDaemonSet (dset : WorkloadM) (w : world St WorkloadW)
  : (option error * WorkloadM) * world St WorkloadW :=
  RetryOnConflict updateAttempt dset w.

(** [onDeleteFunc] is a Go function value or nil; calling it may change
    the world in any way. *)
Definition ForceUpdateStatefulSet (sset : WorkloadM)
           (onDeleteFunc : option (string -> world St WorkloadW -> world St WorkloadW))
           (w : world St WorkloadW)
  : (outcome (option error) * WorkloadM) * world St WorkloadW :=
  let '((err, sset), w) := updateStatefulSet sset w in
  match err with
  | None => ((Returned None, sset), w)
  | Some err =>
      match err with
      | StatusError ErrStatus =>
          if negb (status_Code ErrStatus =? 422)
             || negb (String.eqb (status_Reason ErrStatus) StatusReasonInvalid)
          then ((Returned (Some (Errorf_w "failed to update StatefulSet: " err)),
                 sset), w)
          else
            match status_Details ErrStatus with
            | None => ((Panicked NilPointerDereference, sset), w)
            | Some details =>
                let failMsg := cause_Message <$> details_Causes details in
                let w :=
                  match onDeleteFunc with
                  | Some f => f (Join failMsg ", ") w
                  | None => w
                  end in
                let '(answer, w) :=
                  callDelete wclient (Name (wl_ObjectMeta sset))
                    (Some DeletePropagationForeground) w in
                ((Returned answer, sset), w)
            end
      | _ =>
          ((Returned (Some (Errorf_w "failed to update StatefulSet: " err)),
            sset), w)
      end
  end.

End Workloads.
End workloads.

(** Concrete parameters used to run the model on examples: inputs of the
    examples are ASCII, where the Unicode tables are never consulted. *)
Module examples.
Import gostrings validation.

Definition asciiOnly : UnicodeTables := fun s => s.

Definition messages : Messages :=
  {| MaxLenError n := "must be no more than " +:+ pretty n +:+ " characters";
     dns1123LabelError _ :=
       "a lowercase RFC 1123 label must consist of lower case alphanumeric "
       +:+ "characters or '-', and must start and end with an alphanumeric "
       +:+ "character" |}.

Fixpoint repeated (s : string) (n : nat) : string :=
  match n with
  | O => ""
  | S n' => s +:+ repeated s n'
  end.

(** The two namer functions with these parameters. *)
Definition unique (prefix name : string) : outcome (string * option error) :=
  @namer.UniqueDNS1123Label asciiOnly messages
    (namer.NewResourceNamerWithPrefix prefix) name.

Definition label (prefix name : string) : string * option error :=
  @namer.DNS1123Label asciiOnly messages
    (namer.NewResourceNamerWithPrefix prefix) name.

(** An encoder that reports how many operations it was given. *)
Definition countingEncoder : finalizer.Encoder :=
  fun patch => (Some (pretty (length patch)), None).

End examples.

(** Clients and objects for running the model, after the fake clientset
    of the package's tests: the server state maps names to objects. *)
Module fake.
Import metav1 client network workloads.

Definition notFound (name : string) : error :=
  StatusError (mkStatus 404 "NotFound" (name +:+ " not found") None).

Definition alreadyExists (name : string) : error :=
  StatusError (mkStatus 409 "AlreadyExists" (name +:+ " already exists") None).

Definition byReason : Classifier :=
  {| IsNotFound e :=
       match e with
       | StatusError st => String.eqb (status_Reason st) "NotFound"
       | _ => false
       end;
     IsConflict e :=
       match e with
       | StatusError st => String.eqb (status_Reason st) "Conflict"
       | _ => false
       end |}.

Definition clientset {O : Type} (nameOf : O -> string)
  : Interface (gmap string O) O :=
  {| Get name st :=
       (match st !! name with
        | Some o => inl o
        | None => inr (notFound name)
        end, st);
     Create o st :=
       match st !! nameOf o with
       | Some _ => (inr (alreadyExists (nameOf o)), st)
       | None => (inl o, <[nameOf o := o]> st)
       end;
     Update o st :=
       match st !! nameOf o with
       | Some _ => (inl o, <[nameOf o := o]> st)
       | None => (inr (notFound (nameOf o)), st)
       end;
     Delete name _ st :=
       match st !! name with
       | Some _ => (None, delete name st)
       | None => (Some (notFound name), st)
       end |}.

Definition workloads : Interface (gmap string WorkloadW) WorkloadW :=
  clientset (fun o => Name (wl_ObjectMeta o)).

Definition endpointSlices : Interface (gmap string EndpointSliceW) EndpointSliceW :=
  clientset (fun o => Name (eps_ObjectMeta o)).

(** A server that holds the object and rejects every update as invalid,
    with status 422 and no details, as an admission webhook may. *)
Definition rejected : error :=
  StatusError (mkStatus 422 "Invalid" "admission webhook denied the request" None).

Definition rejecting : Interface (gmap string WorkloadW) WorkloadW :=
  {| Get := Get workloads;
     Create := Create workloads;
     Update o st := (inr rejected, st);
     Delete := Delete workloads |}.

Definition emptyStore : store := mkStore ∅ ∅.

Definition restartedAt : string := "kubectl.kubernetes.io/restartedAt".

(** The StatefulSet "prometheus" of the tests, on the wire, with the
    given pod template annotations. *)
Definition prometheus (annotations : option (gmap string string)) : WorkloadW :=
  mkWorkload (mkObjectMeta "prometheus" "ns-1" "" None None []) ∅
    (mkPodTemplateSpec (mkObjectMeta "" "" "" None annotations []) []).

(** The same StatefulSet in memory: its template annotations, when there
    are some, are the map at location 1. *)
Definition prometheusM (annotations : option loc) : WorkloadM :=
  mkWorkload (mkObjectMeta "prometheus" "ns-1" "" None None []) ∅
    (mkPodTemplateSpec (mkObjectMeta "" "" "" None annotations []) []).

Definition cluster (existing : WorkloadW) (desired : option (gmap string string))
  : world (gmap string WorkloadW) WorkloadW :=
  mkWorld
    (match desired with
     | Some m => mkStore {[ 1%positive := m ]} ∅
     | None => emptyStore
     end)
    {[ "prometheus" := existing ]} [].

(** The metadata of a Service in memory as the server holds it (labels at
    location 1, annotations at 2) and as the operator wants it (labels at
    3, annotations at 4). *)
Definition metadataStore : store :=
  mkStore {[ 1%positive := {[ "app" := "ksm" ]};
             2%positive := {[ "note" := "kept" ]};
             3%positive := {[ "app" := "overridden"; "label" := "value" ]};
             4%positive := ∅ ]} ∅.

Definition observedMeta : ObjectMeta loc loc :=
  mkObjectMeta "prometheus-operated" "ns-1" "42"
    (Some 1%positive) (Some 2%positive) [].

Definition desiredMeta : ObjectMeta loc loc :=
  mkObjectMeta "prometheus-operated" "ns-1" ""
    (Some 3%positive) (Some 4%positive) [].

Definition services : Interface (gmap string ServiceW) ServiceW :=
  clientset (fun o => Name (svc_ObjectMeta o)).

(** The owner reference of the governing Service, with the given
    [Controller] flag. *)
Definition owner {B : Type} (controller : option B) : OwnerReference B :=
  mkOwnerReference "monitoring.coreos.com/v1" "Prometheus" "k8s" "uid-1"
    controller None.

(** The spec of the governing Service as the operator builds it, and
    with the four fields the server assigns on creation. *)
Definition unassigned : ServiceSpec :=
  mkServiceSpec [mkServicePort "web" 9090] {[ "app" := "prometheus" ]} "" [] [] None.

Definition assigned : ServiceSpec :=
  mkServiceSpec [mkServicePort "web" 9090] {[ "app" := "prometheus" ]}
    "10.96.0.17" ["10.96.0.17"] ["IPv4"] (Some "SingleStack").

Definition governing {M B : Type} (resourceVersion : string)
           (refs : list (OwnerReference B)) (spec : ServiceSpec) : Service M B :=
  mkService (mkObjectMeta "prometheus-operated" "ns-1" resourceVersion None None refs)
    spec.

(** The Service of the package's test of the immutable fields, as the
    server holds it and as it is submitted afterwards. *)
Definition service {M B : Type} : Service M B :=
  mkService (mkObjectMeta "prometheus-operated-test" "default" "" None None [])
    (mkServiceSpec
       [mkServicePort "https-metrics" 10250; mkServicePort "http-metrics" 10255] ∅
       "127.0.0.1" ["127.0.0.1"; "192.168.0.159"] ["IPv6"] (Some "RequireDualStack")).

Definition modifiedSvc {M B : Type} : Service M B :=
  mkService (mkObjectMeta "prometheus-operated-test" "default" "" None None [])
    (mkServiceSpec [mkServicePort "https-metrics" 10250] ∅ "" [] [] None).

(** A store holding one flag, [true], at location 1. *)
Definition flagStore : store := mkStore ∅ {[ 1%positive := true ]}.

(** A nameless EndpointSlice. *)
Definition nameless : EndpointSliceM :=
  mkEndpointSlice (mkObjectMeta "" "ns-1" "" None None []) "IPv4" [].

(** A reviewer that allows "get" only and cannot be reached for the
    namespace "down"; its state counts the reviews. *)
Definition reviewer : rbac.SelfSubjectAccessReviewInterface nat :=
  {| rbac.Create attrs n :=
       (if String.eqb (rbac.ra_Namespace attrs) "down"
        then inr (errors_New "connection refused")
        else inl (rbac.mkSARStatus (String.eqb (rbac.ra_Verb attrs) "get") false ""),
        Datatypes.S n) |}.

Definition quoting : rbac.Quoting :=
  fun s => String (ascii_of_nat 34) s +:+ String (ascii_of_nat 34) "".

End fake.

(** ** Pod helpers: readiness, DNS settings *)

(** The DNS types of the operator's API ([pkg/apis/monitoring/v1]), as the
    package reads them.  [Value] is a [*string]: [P] is what a pointer to a
    string is, [None] being nil. *)
Module monitoringv1.

Record PodDNSConfigOption (P : Type) : Type := mkPodDNSConfigOption {
  Name : string;
  Value : option P }.
Arguments mkPodDNSConfigOption {P}.
Arguments Name {P}.
Arguments Value {P}.

Record PodDNSConfig (P : Type) : Type := mkPodDNSConfig {
  Nameservers : list string;
  Searches : list string;
  Options : list (PodDNSConfigOption P) }.
Arguments mkPodDNSConfig {P}.
Arguments Nameservers {P}.
Arguments Searches {P}.
Arguments Options {P}.

End monitoringv1.

(** [k8s.io/api/core/v1]: pods, as far as the package reads and writes
    them.  Phases, condition types and condition statuses are string
    types; the constants have the values the API gives them. *)
Module corev1.

Definition PodPending : string := "Pending".
Definition PodRunning : string := "Running".
Definition PodSucceeded : string := "Succeeded".
Definition PodFailed : string := "Failed".
Definition PodUnknown : string := "Unknown".
Definition PodReady : string := "Ready".
Definition ConditionTrue : string := "True".

Record PodCondition : Type := mkPodCondition {
  cond_Type : string;
  cond_Status : string }.

Record PodStatus : Type := mkPodStatus {
  Phase : string;
  Conditions : list PodCondition }.

Record PodDNSConfigOption (P : Type) : Type := mkPodDNSConfigOption {
  Name : string;
  Value : option P }.
Arguments mkPodDNSConfigOption {P}.
Arguments Name {P}.
Arguments Value {P}.

Record PodDNSConfig (P : Type) : Type := mkPodDNSConfig {
  Nameservers : list string;
  Searches : list string;
  Options : list (PodDNSConfigOption P) }.
Arguments mkPodDNSConfig {P}.
Arguments Nameservers {P}.
Arguments Searches {P}.
Arguments Options {P}.

(** [DNSConfig] is a [*PodDNSConfig]; the function that sets it stores
    the address of a struct of its own, so the struct itself stands for
    the pointer. *)
Record PodSpec (P : Type) : Type := mkPodSpec {
  HostNetwork : bool;
  DNSPolicy : string;
  DNSConfig : option (PodDNSConfig P) }.
Arguments mkPodSpec {P}.
Arguments HostNetwork {P}.
Arguments DNSPolicy {P}.
Arguments DNSConfig {P}.

Record Pod (P : Type) : Type := mkPod {
  pod_Spec : PodSpec P;
  pod_Status : PodStatus }.
Arguments mkPod {P}.
Arguments pod_Spec {P}.
Arguments pod_Status {P}.

End corev1.

Module pods.
Import corev1.

(** The [for] loop of [PodRunningAndReady] over the conditions, with the
    [return] that follows it. *)
Fixpoint readyCondition (conditions : list PodCondition) : bool * option error :=
  match conditions with
  | [] => (false, Some (errors_New "pod ready condition not found"))
  | cond :: rest =>
      if negb (String.eqb (cond_Type cond) PodReady) then readyCondition rest
      else (String.eqb (cond_Status cond) ConditionTrue, None)
  end.

Definition PodRunningAndReady {P : Type} (pod : Pod P) : bool * option error :=
  let phase := Phase (pod_Status pod) in
  if String.eqb phase PodFailed || String.eqb phase PodSucceeded then
    (false, Some (errors_New ("pod completed with phase " +:+ phase)))
  else if String.eqb phase PodRunning then
    readyCondition (Conditions (pod_Status pod))
  else (false, None).

Section DNS.
Context {P : Type}.

(** [podSpec] is a pointer: the updated spec is returned. *)
Definition UpdateDNSConfig (podSpec : PodSpec P)
           (config : option (monitoringv1.PodDNSConfig P)) : PodSpec P :=
  match config with
  | None => podSpec
  | Some config =>
      let dnsConfig :=
        mkPodDNSConfig (monitoringv1.Nameservers config)
          (monitoringv1.Searches config) [] in
      let dnsConfig :=
        foldl (fun dnsConfig opt =>
                 mkPodDNSConfig (Nameservers dnsConfig) (Searches dnsConfig)
                   (Options dnsConfig
                    ++ [mkPodDNSConfigOption (monitoringv1.Name opt)
                          (monitoringv1.Value opt)]))
              dnsConfig (monitoringv1.Options config) in
      mkPodSpec (HostNetwork podSpec) (DNSPolicy podSpec) (Some dnsConfig)
  end.

(** [monitoringv1.DNSPolicy] is a string type, converted as it is. *)
Definition UpdateDNSPolicy (podSpec : PodSpec P) (dnsPolicy : option string)
  : PodSpec P :=
  match dnsPolicy with
  | None => podSpec
  | Some dnsPolicy =>
      mkPodSpec (HostNetwork podSpec) dnsPolicy (DNSConfig podSpec)
  end.

End DNS.
End pods.

(** ** pkg/k8s/finalizer.go: the status-cleanup finalizer *)
Module cleanup.
Import finalizer.

(** [metav1.Object] is an interface; of its methods the package calls
    [GetFinalizers]. *)
Class Object (T : Type) : Type := GetFinalizers : T -> list string.

Definition HasStatusCleanupFinalizer {T : Type} `{Object T} (obj : T) : bool :=
  Contains (GetFinalizers obj) StatusCleanupFinalizerName.

End cleanup.

(** ** The reconcile protocol, as seen in the requests issued

    What one attempt of a create-or-update function may send for the
    object named [name], when the desired object came with the label
    entries [labels], the annotation entries [annotations] and the content
    [content].  [meta] and [body] read the metadata and the content of an
    object on the wire; [converged] is the test, if the kind has one, that
    makes an attempt stop after the read. *)
Module protocol.
Import metav1 merge client.

Abbreviation ObjectMetaW := (ObjectMeta (gmap string string) bool).

Section Calls.
Context `{Classifier} {O Q : Type} (meta : O -> ObjectMetaW) (body : O -> Q)
        (converged : O -> O -> Prop).

(** What is wanted: a name, label and annotation entries, a content. *)
Record wanted : Type := mkWanted {
  name : string;
  labels : gmap string string;
  annotations : gmap string string;
  content : Q }.

(** The object carries the name, every desired entry and the content. *)
Definition carries (d : wanted) (o : O) : Prop :=
  Name (meta o) = name d
  /\ labels d ⊆ default ∅ (Labels (meta o))
  /\ annotations d ⊆ default ∅ (Annotations (meta o))
  /\ body o = content d.

(** The object has the resource version of [observed] and every label
    and annotation key of [observed]. *)
Definition basedOn (observed o : O) : Prop :=
  ResourceVersion (meta o) = ResourceVersion (meta observed)
  /\ dom (default ∅ (Labels (meta observed))) ⊆ dom (default ∅ (Labels (meta o)))
  /\ dom (default ∅ (Annotations (meta observed)))
     ⊆ dom (default ∅ (Annotations (meta o))).

(** The desired object's metadata [m], in memory, still asks for what
    is wanted: it has the name, its maps exist and hold the desired
    entries. *)
Definition asks (d : wanted) (m : ObjectMeta loc loc) (h : store) : Prop :=
  Name m = name d
  /\ allocated h m
  /\ labels d ⊆ view h (Labels m)
  /\ annotations d ⊆ view h (Annotations m).

Inductive attemptCalls (d : wanted) : list (call O) -> Prop :=
| attempt_read_failed err :
    IsNotFound err = false ->
    attemptCalls d [CallGet (name d) (inr err)]
| attempt_created err desired answer :
    IsNotFound err = true ->
    carries d desired ->
    attemptCalls d [CallGet (name d) (inr err); CallCreate desired answer]
| attempt_converged observed merged :
    carries d merged ->
    basedOn observed merged ->
    converged observed merged ->
    attemptCalls d [CallGet (name d) (inl observed)]
| attempt_updated observed written answer :
    carries d written ->
    basedOn observed written ->
    ~ converged observed written ->
    attemptCalls d [CallGet (name d) (inl observed); CallUpdate written answer].

End Calls.
Arguments mkWanted {Q}.
Arguments name {Q}.
Arguments labels {Q}.
Arguments annotations {Q}.
Arguments content {Q}.

(** Every map and flag of [s] is in [s'], with the same content. *)
Definition keeps (s s' : store) : Prop :=
  (forall l, is_Some (maps s !! l) -> maps s' !! l = maps s !! l)
  /\ (forall l, is_Some (bools s !! l) -> bools s' !! l = bools s !! l).

(** The flags the owner references point to exist in the store. *)
Definition flagsAllocated (s : store) (refs : list (OwnerReference loc)) : Prop :=
  forall r l, r ∈ refs ->
              ref_Controller r = Some l \/ ref_BlockOwnerDeletion r = Some l ->
              is_Some (bools s !! l).

End protocol.

(** ** pkg/k8s/network.go: Endpoints *)
Module endpoints.
Import metav1 merge client network.

(** [v1.EndpointSubset] *)
Record EndpointSubset : Type := mkEndpointSubset {
  sub_Addresses : list string;
  sub_Ports : list ServicePort }.

(** [v1.Endpoints] *)
Record Endpoints (M B : Type) : Type := mkEndpoints {
  ep_ObjectMeta : ObjectMeta M B;
  ep_Subsets : list EndpointSubset }.
Arguments mkEndpoints {M B}.
Arguments ep_ObjectMeta {M B}.
Arguments ep_Subsets {M B}.

Abbreviation EndpointsM := (Endpoints loc loc).
Abbreviation EndpointsW := (Endpoints (gmap string string) bool).

Definition decodeEndpoints (o : EndpointsW) (s : store) : EndpointsM * store :=
  let '(m, s) := decodeObjectMeta (ep_ObjectMeta o) s in
  (mkEndpoints m (ep_Subsets o), s).

Definition encodeEndpoints (s : store) (o : EndpointsM) : EndpointsW :=
  mkEndpoints (encodeObjectMeta s (ep_ObjectMeta o)) (ep_Subsets o).

Section Endpoints.
Context `{Classifier} {St : Type} (eclient : Interface St EndpointsW).

(** The closure handed to [RetryOnConflict]; it captures [eps], a
    pointer, updated in place. *)
Definition endpointsAttempt (eps : EndpointsM) (w : world St EndpointsW)
  : (option error * EndpointsM) * world St EndpointsW :=
  let '(answer, w) := callGet eclient (Name (ep_ObjectMeta eps)) w in
  match answer with
  | inr err =>
      if negb (IsNotFound err) then ((Some err, eps), w)
      else
        let '(answer, w) := callCreate eclient (encodeEndpoints (heap w) eps) w in
        match answer with
        | inl _ => ((None, eps), w)
        | inr err => ((Some err, eps), w)
        end
  | inl observed =>
      let '(endpoints, h) := decodeEndpoints observed (heap w) in
      let w := withHeap h w in
      let '(m, h) := mergeMetadata (ep_ObjectMeta eps)
                       (ep_ObjectMeta endpoints) (heap w) in
      let w := withHeap h w in
      let eps := mkEndpoints m (ep_Subsets eps) in
      let '(answer, w) := callUpdate eclient (encodeEndpoints (heap w) eps) w in
      match answer with
      | inl _ => ((None, eps), w)
      | inr err => ((Some err, eps), w)
      end
  end.

Definition CreateOrUpdateEndpoints (eps : EndpointsM) (w : world St EndpointsW)
  : (option error * EndpointsM) * world St EndpointsW :=
  RetryOnConflict endpointsAttempt eps w.

End Endpoints.
End endpoints.

(** ** Secrets and ConfigMaps (from the package's client helpers) *)
Module config.
Import metav1 merge client.

(** [v1.Secret] without its metadata.  The byte slices of [Data] are
    never written through by the package and are values here. *)
Record SecretData : Type := mkSecretData {
  sec_Data : gmap string string;
  sec_StringData : gmap string string;
  sec_Type : string }.

(** [v1.ConfigMap] without its metadata. *)
Record ConfigMapData : Type := mkConfigMapData {
  cm_Data : gmap string string;
  cm_BinaryData : gmap string string }.

(** An object of either kind: its metadata and the rest. *)
Record Object (D M B : Type) : Type := mkObject {
  obj_ObjectMeta : ObjectMeta M B;
  obj_Content : D }.
Arguments mkObject {D M B}.
Arguments obj_ObjectMeta {D M B}.
Arguments obj_Content {D M B}.

Abbreviation SecretM := (Object SecretData loc loc).
Abbreviation SecretW := (Object SecretData (gmap string string) bool).
Abbreviation ConfigMapM := (Object ConfigMapData loc loc).
Abbreviation ConfigMapW := (Object ConfigMapData (gmap string string) bool).

(** [apiequality.Semantic.DeepEqual] belongs to the Kubernetes library
    and is a parameter.  It compares what two objects hold, following
    pointers and maps, so it is a function of the objects as they would
    be sent. *)
Class Equalities (O : Type) : Type := Semantic_DeepEqual : O -> O -> bool.

Section Objects.
Context {D : Type}.

Definition decodeObject (o : Object D (gmap string string) bool) (s : store)
  : Object D loc loc * store :=
  let '(m, s) := decodeObjectMeta (obj_ObjectMeta o) s in
  (mkObject m (obj_Content o), s).

Definition encodeObject (s : store) (o : Object D loc loc)
  : Object D (gmap string string) bool :=
  mkObject (encodeObjectMeta s (obj_ObjectMeta o)) (obj_Content o).

(** [o.DeepCopyObject()]: every map and every flag of the copy is a
    new one, with the content of the original. *)
Definition DeepCopyObject (o : Object D loc loc) (s : store)
  : Object D loc loc * store :=
  decodeObject (encodeObject s o) s.

Context `{Classifier} `{Equalities (Object D (gmap string string) bool)}
        {St : Type} (c : Interface St (Object D (gmap string string) bool)).

(** The closure of [CreateOrUpdateSecret]; the closure of
    [CreateOrUpdateConfigMap] is the same text with [existingCM] for
    [existingSecret] and the ConfigMap client. *)
Definition writeAttempt (desired : Object D loc loc)
           (w : world St (Object D (gmap string string) bool))
  : (option error * Object D loc loc)
    * world St (Object D (gmap string string) bool) :=
  let '(answer, w) := callGet c (Name (obj_ObjectMeta desired)) w in
  match answer with
  | inr err =>
      if negb (IsNotFound err) then ((Some err, desired), w)
      else
        let '(answer, w) := callCreate c (encodeObject (heap w) desired) w in
        match answer with
        | inl _ => ((None, desired), w)
        | inr err => ((Some err, desired), w)
        end
  | inl observed =>
      let '(existingSecret, h) := decodeObject observed (heap w) in
      let '(mutated, h) := DeepCopyObject existingSecret h in
      let '(m, h) := mergeMetadata (obj_ObjectMeta desired)
                       (obj_ObjectMeta mutated) h in
      let w := withHeap h w in
      let desired := mkObject m (obj_Content desired) in
      if Semantic_DeepEqual (encodeObject (heap w) existingSecret)
                            (encodeObject (heap w) desired)
      then ((None, desired), w)
      else
        let '(answer, w) := callUpdate c (encodeObject (heap w) desired) w in
        match answer with
        | inl _ => ((None, desired), w)
        | inr err => ((Some err, desired), w)
        end
  end.

End Objects.

Section Kinds.
Context `{Classifier} {St : Type}.

Definition CreateOrUpdateSecret `{Equalities SecretW}
           (secretClient : Interface St SecretW)
           (desired : SecretM) (w : world St SecretW)
  : (option error * SecretM) * world St SecretW :=
  RetryOnConflict (writeAttempt secretClient) desired w.

Definition CreateOrUpdateConfigMap `{Equalities ConfigMapW}
           (cmClient : Interface St ConfigMapW)
           (desired : ConfigMapM) (w : world St ConfigMapW)
  : (option error * ConfigMapM) * world St ConfigMapW :=
  RetryOnConflict (writeAttempt cmClient) desired w.

End Kinds.
End config.

(** Clients and objects for running the further helpers, after the
    package's tests: Endpoints, Secrets and ConfigMaps on the fake
    clientset, and a rejection that carries details. *)
Module fixtures.
Import metav1 client network endpoints config workloads.

Definition endpointsClient : Interface (gmap string EndpointsW) EndpointsW :=
  fake.clientset (fun o => Name (ep_ObjectMeta o)).

Definition secrets : Interface (gmap string SecretW) SecretW :=
  fake.clientset (fun o => Name (obj_ObjectMeta o)).

Definition configMaps : Interface (gmap string ConfigMapW) ConfigMapW :=
  fake.clientset (fun o => Name (obj_ObjectMeta o)).

(** An equality on objects as sent that compares the resource version,
    the labels, the annotations and the data. *)
Definition sameMeta (a b : ObjectMeta (gmap string string) bool) : bool :=
  String.eqb (ResourceVersion a) (ResourceVersion b)
  && bool_decide (default ∅ (Labels a) = default ∅ (Labels b))
  && bool_decide (default ∅ (Annotations a) = default ∅ (Annotations b)).

Definition secretEqualities : Equalities SecretW :=
  fun a b =>
    sameMeta (obj_ObjectMeta a) (obj_ObjectMeta b)
    && bool_decide (sec_Data (obj_Content a) = sec_Data (obj_Content b)).

Definition configMapEqualities : Equalities ConfigMapW :=
  fun a b =>
    sameMeta (obj_ObjectMeta a) (obj_ObjectMeta b)
    && bool_decide (cm_Data (obj_Content a) = cm_Data (obj_Content b)).

(** A store with the label map of a desired object at location 1. *)
Definition labelStore : store :=
  mkStore {[ 1%positive := {[ "app.kubernetes.io/name" := "kube-state-metrics" ]} ]} ∅.

Definition labelled {M : Type} (resourceVersion : string) (labels : option M)
  : ObjectMeta M bool :=
  mkObjectMeta "kube-state-metrics" "ns-1" resourceVersion labels None [].

Definition labelledM (labels : option loc) : ObjectMeta loc loc :=
  mkObjectMeta "kube-state-metrics" "ns-1" "" labels None [].

(** The Endpoints of the tests: one address, the port "web". *)
Definition subsets : list EndpointSubset :=
  [mkEndpointSubset ["10.1.2.3"] [mkServicePort "web" 8080]].

Definition desiredEndpoints : EndpointsM :=
  mkEndpoints (labelledM (Some 1%positive)) subsets.

Definition observedEndpoints : EndpointsW :=
  mkEndpoints (labelled "7" (Some {[ "team" := "observability" ]})) [].

Definition credentials (password : string) : SecretData :=
  mkSecretData {[ "password" := password ]} ∅ "Opaque".

Definition desiredSecret : SecretM :=
  mkObject (labelledM (Some 1%positive)) (credentials "new").

Definition observedSecret : SecretW :=
  mkObject (labelled "7" (Some {[ "team" := "observability" ]})) (credentials "old").

Definition settings (value : string) : ConfigMapData :=
  mkConfigMapData {[ "prometheus.yaml" := value ]} ∅.

Definition desiredConfigMap : ConfigMapM :=
  mkObject (labelledM (Some 1%positive)) (settings "new").

Definition observedConfigMap : ConfigMapW :=
  mkObject (labelled "7" (Some {[ "team" := "observability" ]})) (settings "old").

(** A server holding [observed] under the name of the desired objects. *)
Definition holding {O : Type} (observed : O) : world (gmap string O) O :=
  mkWorld labelStore {[ "kube-state-metrics" := observed ]} [].

(** A server that rejects every update as invalid, with the causes of
    the rejection. *)
Definition immutable : StatusDetails :=
  mkStatusDetails "prometheus" "StatefulSet"
    [mkStatusCause "FieldValueForbidden" "spec: Forbidden: updates to statefulset spec"
       "spec";
     mkStatusCause "FieldValueInvalid" "selector is immutable" "spec.selector"].

Definition forbidden : Status :=
  mkStatus 422 "Invalid" "StatefulSet is invalid" (Some immutable).

Definition refusing : Interface (gmap string WorkloadW) WorkloadW :=
  {| Get := Get fake.workloads;
     Create := Create fake.workloads;
     Update o st := (inr (StatusError forbidden), st);
     Delete := Delete fake.workloads |}.

(** An object with finalizers. *)
Definition finalized : cleanup.Object (list string) := fun finalizers => finalizers.

End fixtures.

(** * Properties *)

(** ** Resource namer *)
Section NamerFacts.
Import gostrings validation grammar namer.
Context `{UnicodeTables} `{Messages}.

Lemma all_app p s1 s2 : all p (s1 +:+ s2) = all p s1 && all p s2.
Proof.
  induction s1 as [|c s1 IH]; simpl; [reflexivity|].
  rewrite IH. apply andb_assoc.
Qed.

Lemma length_app s1 s2 :
  String.length (s1 +:+ s2) = (String.length s1 + String.length s2)%nat.
Proof. induction s1 as [|c s1 IH]; simpl; [reflexivity | now rewrite IH]. Qed.

Lemma slice_to_all p s n : all p s = true -> all p (slice_to s n) = true.
Proof.
  unfold slice_to. revert n.
  induction s as [|c s IH]; intros [|n] Hs; simpl in *; try reflexivity.
  apply andb_true_iff in Hs as [Hc Hs]. rewrite Hc. simpl. now apply IH.
Qed.

Lemma slice_to_length s n :
  String.length (slice_to s n) = Nat.min n (String.length s).
Proof.
  unfold slice_to. revert n.
  induction s as [|c s IH]; intros [|n]; simpl; try reflexivity.
  now rewrite IH.
Qed.

Lemma slice_to_head c s n :
  slice_to (String c s) (S n) = String c (slice_to s n).
Proof. reflexivity. Qed.

(** After the replacement only label bytes remain. *)
Lemma replaceRuns_label_bytes b s :
  all isLabelByte (replaceRuns invalidDNS1123Characters "-" b s) = true.
Proof.
  revert b. induction s as [|c s IH]; intros b; simpl; [reflexivity|].
  unfold invalidDNS1123Characters at 1.
  destruct (isLabelByte c) eqn:Hc; simpl.
  - rewrite Hc. apply IH.
  - destruct b; simpl; apply IH.
Qed.

Lemma TrimLeft_all p s cut : all p s = true -> all p (TrimLeft s cut) = true.
Proof.
  induction s as [|c s IH]; simpl; intros Hs; [reflexivity|].
  destruct (Ascii.eqb c cut); [|exact Hs].
  apply andb_true_iff in Hs as [_ Hs]. now apply IH.
Qed.

Lemma TrimRight_all p s cut : all p s = true -> all p (TrimRight s cut) = true.
Proof.
  induction s as [|c s IH]; simpl; intros Hs; [reflexivity|].
  apply andb_true_iff in Hs as [Hc Hs]. specialize (IH Hs).
  destruct (TrimRight s cut) as [|c' r'].
  - destruct (Ascii.eqb c cut); simpl; [reflexivity | now rewrite Hc].
  - change (all p (String c (String c' r')) = true).
    simpl. simpl in IH. now rewrite Hc, IH.
Qed.

Lemma TrimLeft_head s cut c r : TrimLeft s cut = String c r -> c <> cut.
Proof.
  induction s as [|c0 s IH]; simpl; [discriminate|].
  destruct (Ascii.eqb c0 cut) eqn:E; [exact IH|].
  intros [= <- <-]. now apply Ascii.eqb_neq.
Qed.

Lemma sanitizedLabel_label_bytes rn name :
  all isLabelByte (sanitizedLabel rn name) = true.
Proof.
  unfold sanitizedLabel, Trim, ReplaceAllString.
  apply TrimLeft_all, TrimRight_all, replaceRuns_label_bytes.
Qed.

(** A sanitized name never starts with a hyphen: it starts with a letter
    or a digit. *)
Lemma sanitizedLabel_head rn name c r :
  sanitizedLabel rn name = String c r -> isAlnum c = true.
Proof.
  intros E. pose proof (sanitizedLabel_label_bytes rn name) as Hall.
  rewrite E in Hall. simpl in Hall. apply andb_true_iff in Hall as [Hc _].
  unfold sanitizedLabel, Trim in E. apply TrimLeft_head in E.
  unfold isLabelByte in Hc. apply orb_true_iff in Hc as [Hc|Hc]; [exact Hc|].
  exfalso. apply E. unfold isHyphen, code in Hc.
  apply Z.eqb_eq in Hc.
  rewrite <- (ascii_N_embedding c). 
  replace (N_of_ascii c) with 45%N by lia. reflexivity.
Qed.

End NamerFacts.

Section LabelFacts.
Import gostrings validation grammar namer.
Context `{UnicodeTables} `{Messages}.

Lemma hexDigit_alnum d : 0 <= d < 16 -> isAlnum (hexDigit d) = true.
Proof.
  intros Hd.
  assert (d = 0 \/ d = 1 \/ d = 2 \/ d = 3 \/ d = 4 \/ d = 5 \/ d = 6 \/ d = 7 \/
          d = 8 \/ d = 9 \/ d = 10 \/ d = 11 \/ d = 12 \/ d = 13 \/ d = 14 \/
          d = 15) as Hcases by lia.
  repeat (destruct Hcases as [-> | Hcases]; [reflexivity|]).
  subst d. reflexivity.
Qed.

Lemma hexDigits_alnum n x acc :
  all isAlnum acc = true -> all isAlnum (hexDigits n x acc) = true.
Proof.
  revert x acc. induction n as [|n IH]; intros x acc Hacc; simpl; [exact Hacc|].
  assert (all isAlnum (String (hexDigit (x mod 16)) acc) = true) as Hacc'.
  { simpl. rewrite Hacc, hexDigit_alnum; [reflexivity|].
    apply Z.mod_pos_bound. lia. }
  destruct (x / 16 =? 0); [exact Hacc'|]. now apply IH.
Qed.

Lemma hexDigits_length_ge n x acc :
  (String.length acc <= String.length (hexDigits n x acc))%nat.
Proof.
  revert x acc. induction n as [|n IH]; intros x acc; simpl; [lia|].
  destruct (x / 16 =? 0); simpl; [lia|].
  etransitivity; [|apply IH]. simpl. lia.
Qed.

Lemma hexDigits_length_digits k n x acc :
  (k < n)%nat -> 16 ^ Z.of_nat k <= x ->
  (String.length acc + k + 1 <= String.length (hexDigits n x acc))%nat.
Proof.
  revert n x acc. induction k as [|k IH]; intros n x acc Hk Hx.
  - destruct n as [|n]; [lia|]. simpl.
    destruct (x / 16 =? 0); simpl; [lia|].
    etransitivity; [|apply hexDigits_length_ge]. simpl. lia.
  - destruct n as [|n]; [lia|]. simpl.
    rewrite Nat2Z.inj_succ, Z.pow_succ_r in Hx by lia.
    assert (16 ^ Z.of_nat k <= x / 16) as Hq.
    { apply Z.div_le_lower_bound; lia. }
    assert (0 < 16 ^ Z.of_nat k) by (apply Z.pow_pos_nonneg; lia).
    destruct (Z.eqb_spec (x / 16) 0) as [E|_]; [lia|].
    etransitivity; [|apply IH; [lia|exact Hq]]. simpl. lia.
Qed.

(** A hash of at least 2^28 prints with at least eight digits. *)
Lemma FormatHex_length x : 2 ^ 28 <= x -> (8 <= String.length (FormatHex x))%nat.
Proof.
  intros Hx. unfold FormatHex.
  pose proof (hexDigits_length_digits 7 16 x "" ltac:(lia)) as Hlen.
  simpl String.length in Hlen. apply Hlen.
  change (16 ^ Z.of_nat 7) with (2 ^ 28). exact Hx.
Qed.

Lemma FormatHex_alnum x : all isAlnum (FormatHex x) = true.
Proof. now apply hexDigits_alnum. Qed.

Lemma alnum_label_bytes s : all isAlnum s = true -> all isLabelByte s = true.
Proof.
  induction s as [|c s IH]; simpl; [reflexivity|].
  intros Hs. apply andb_true_iff in Hs as [Hc Hs].
  unfold isLabelByte. rewrite Hc. simpl. now apply IH.
Qed.

Lemma matchRest_alnum s : all isAlnum s = true -> matchRest s = true.
Proof.
  induction s as [|c s IH]; simpl; [reflexivity|].
  intros Hs. apply andb_true_iff in Hs as [Hc Hs].
  destruct s as [|c' s']; [exact Hc|].
  unfold isLabelByte. rewrite Hc. simpl. now apply IH.
Qed.

Lemma matchRest_app a b :
  all isLabelByte a = true -> b <> EmptyString -> matchRest b = true ->
  matchRest (a +:+ b) = true.
Proof.
  intros Ha Hb Hm. induction a as [|c a IH]; [exact Hm|].
  simpl in Ha. apply andb_true_iff in Ha as [Hc Ha].
  change (String c a +:+ b) with (String c (a +:+ b)).
  specialize (IH Ha). destruct (a +:+ b) as [|c' r] eqn:E.
  - destruct a; [simpl in E; contradiction | discriminate].
  - change (isLabelByte c && matchRest (String c' r) = true).
    now rewrite Hc, IH.
Qed.

Lemma matchRest_split r :
  matchRest r = true -> r <> EmptyString ->
  exists a c, r = a +:+ String c EmptyString
              /\ all isLabelByte a = true /\ isAlnum c = true.
Proof.
  induction r as [|c r IH]; intros Hm Hne; [contradiction|].
  destruct r as [|c' r'].
  - exists EmptyString, c. simpl in Hm. auto.
  - simpl in Hm. apply andb_true_iff in Hm as [Hc Hm].
    destruct IH as (a & d & E & Ha & Hd); [exact Hm | discriminate |].
    exists (String c a), d. rewrite E. simpl. rewrite Hc, Ha. auto.
Qed.

Lemma star_label_bytes a :
  all isLabelByte a = true -> matches (Star (Class isLabelByte)) a.
Proof.
  induction a as [|c a IH]; simpl; intros Ha; [constructor|].
  apply andb_true_iff in Ha as [Hc Ha].
  change (String c a) with (String c EmptyString +:+ a).
  apply matches_star_cons; [now constructor | now apply IH].
Qed.

Lemma star_label_bytes_inv re a :
  matches re a -> re = Star (Class isLabelByte) -> all isLabelByte a = true.
Proof.
  induction 1 as [| | |r s1 s2 H1 _ H2 IH| |]; intros E; try discriminate.
  - reflexivity.
  - injection E as ->. inversion H1; subst.
    change (isLabelByte c && all isLabelByte s2 = true).
    rewrite (IH eq_refl). now rewrite andb_true_r.
Qed.

(** The matcher decides the grammar. *)
Lemma MatchString_grammar s :
  dns1123LabelRegexp_MatchString s = true <-> matches dns1123LabelFmt s.
Proof.
  split.
  - destruct s as [|c r]; [discriminate|]. simpl.
    intros Hm. apply andb_true_iff in Hm as [Hc Hm].
    change (String c r) with (String c EmptyString +:+ r).
    apply matches_cat; [now constructor|].
    destruct r as [|c' r'] eqn:Er; [constructor|]. rewrite <- Er in *.
    destruct (matchRest_split r Hm) as (a & d & -> & Ha & Hd);
      [subst r; discriminate|].
    apply matches_opt_some, matches_cat;
      [now apply star_label_bytes | now constructor].
  - unfold dns1123LabelFmt. intros Hm.
    inversion Hm as [|r1 r2 s1 s2 H1 H2| | | |]; subst.
    inversion H1; subst. simpl.
    match goal with Hp : isAlnum _ = true |- _ => rewrite Hp end. simpl.
    inversion H2 as [| | | |r0|r0 s0 H3]; subst; [reflexivity|].
    inversion H3 as [|r1 r2 a b Ha Hb| | | |]; subst.
    inversion Hb; subst.
    change (matchRest (a +:+ String c0 EmptyString) = true).
    apply matchRest_app; [| discriminate | assumption].
    now apply (star_label_bytes_inv _ _ Ha).
Qed.

Lemma IsDNS1123Label_nil value :
  IsDNS1123Label value = [] <-> legalLabel value.
Proof.
  unfold IsDNS1123Label, legalLabel. rewrite <- MatchString_grammar.
  destruct (Nat.ltb_spec DNS1123LabelMaxLength (String.length value));
    destruct (dns1123LabelRegexp_MatchString value); simpl;
    split; try discriminate; try (intros [? ?]; try discriminate; lia);
    intros _; split; try reflexivity; lia.
Qed.

Lemma isValidDNS1123Label_None name :
  isValidDNS1123Label name = None <-> legalLabel name.
Proof.
  rewrite <- IsDNS1123Label_nil. unfold isValidDNS1123Label.
  destruct (IsDNS1123Label name); split; try discriminate; reflexivity.
Qed.

End LabelFacts.

Section NamerClaims.
Import gostrings validation grammar namer.
Context `{UnicodeTables} `{Messages}.

Lemma suffix_slice x :
  slice_to ("-" +:+ FormatHex x) 9 = "-" +:+ slice_to (FormatHex x) 8.
Proof. reflexivity. Qed.

Lemma suffix_panics_iff_short x :
  2 ^ 28 <= x -> (String.length ("-" +:+ FormatHex x) <? 9)%nat = false.
Proof.
  intros Hx. apply Nat.ltb_ge.
  change (9 <= S (String.length (FormatHex x)))%nat.
  pose proof (FormatHex_length x Hx). lia.
Qed.

Lemma suffix_matchRest x :
  2 ^ 28 <= x -> matchRest ("-" +:+ slice_to (FormatHex x) 8) = true.
Proof.
  intros Hx.
  pose proof (slice_to_all isAlnum _ 8 (FormatHex_alnum x)) as Hall.
  pose proof (slice_to_length (FormatHex x) 8) as Hlen.
  pose proof (FormatHex_length x Hx) as Hge.
  destruct (slice_to (FormatHex x) 8) as [|d ds] eqn:E.
  - change (String.length "") with 0%nat in Hlen. lia.
  - change (isLabelByte "-" && matchRest (String d ds) = true).
    now rewrite (matchRest_alnum _ Hall).
Qed.

(** C1 (as amended).  The suffix is a hyphen followed by the FIRST eight
    digits of the hash printed in lower-case hexadecimal, that is its most
    significant digits; this needs the hash to print with at least eight
    digits (a hash of at least 2^28).  The sanitized name is cut to
    63 - 9 = 54 bytes and the suffix appended; the concatenation is
    returned when the sanitized name is not empty, and a validation error
    otherwise.  In particular "NAME", "foo--" and "foo^%#$bar" give
    "name-4cfd3574", "foo-e705c7c8" and "foo-bar-f3e212b1". *)
Theorem UniqueDNS1123Label_leading_digits :
  (forall rn name,
      2 ^ 28 <= xxhash.Sum64 name ->
      let suffix := "-" +:+ slice_to (FormatHex (xxhash.Sum64 name)) 8 in
      let sanitized := sanitizedLabel rn name in
      let truncated :=
        if (63 - 9 <? String.length sanitized)%nat
        then slice_to sanitized (63 - 9)%nat else sanitized in
      String.length suffix = 9%nat
      /\ (String.length truncated <= 54)%nat
      /\ UniqueDNS1123Label rn name =
           match sanitized with
           | EmptyString =>
               Returned ("", Some (errors_New (dns1123LabelError suffix)))
           | String _ _ => Returned (truncated +:+ suffix, None)
           end)
  /\ UniqueDNS1123Label (NewResourceNamerWithPrefix "") "NAME"
     = Returned ("name-4cfd3574", None)
  /\ UniqueDNS1123Label (NewResourceNamerWithPrefix "") "foo--"
     = Returned ("foo-e705c7c8", None)
  /\ UniqueDNS1123Label (NewResourceNamerWithPrefix "") "foo^%#$bar"
     = Returned ("foo-bar-f3e212b1", None).
Proof.
  split; [|repeat split; vm_compute; reflexivity].
  intros rn name Hx. cbv zeta. change (63 - 9)%nat with 54%nat.
  set (suffix := "-" +:+ slice_to (FormatHex (xxhash.Sum64 name)) 8).
  assert (String.length suffix = 9%nat) as Hlen.
  { subst suffix.
    change (S (String.length (slice_to (FormatHex (xxhash.Sum64 name)) 8)) = 9%nat).
    rewrite slice_to_length. pose proof (FormatHex_length _ Hx). lia. }
  unfold UniqueDNS1123Label.
  rewrite (suffix_panics_iff_short _ Hx), suffix_slice. fold suffix.
  change (DNS1123LabelMaxLength - 9)%nat with 54%nat.
  pose proof (sanitizedLabel_label_bytes rn name) as Hall.
  pose proof (sanitizedLabel_head rn name) as Hhead.
  destruct (sanitizedLabel rn name) as [|c r].
  - change (if (54 <? String.length "")%nat then slice_to "" 54 else "") with "".
    change ("" +:+ suffix) with suffix.
    split; [exact Hlen|]. split; [simpl; lia|].
    unfold IsDNS1123Label. rewrite Hlen. reflexivity.
  - set (truncated := if (54 <? String.length (String c r))%nat
                      then slice_to (String c r) 54 else String c r).
    assert (String.length truncated <= 54)%nat as Htr.
    { subst truncated.
      destruct (Nat.ltb_spec 54 (String.length (String c r))); [|lia].
      rewrite slice_to_length. lia. }
    split; [exact Hlen|]. split; [exact Htr|].
    assert (legalLabel (truncated +:+ suffix)) as Hlegal.
    { split.
      - apply MatchString_grammar.
        assert (exists r', truncated = String c r'
                           /\ all isLabelByte r' = true) as (r' & -> & Hr').
        { simpl in Hall. apply andb_true_iff in Hall as [_ Hall].
          subst truncated.
          destruct (54 <? String.length (String c r))%nat.
          - exists (slice_to r 53). split; [reflexivity|].
            now apply slice_to_all.
          - now exists r. }
        change (isAlnum c && matchRest (r' +:+ suffix) = true).
        rewrite (Hhead c r eq_refl). simpl.
        apply matchRest_app; [exact Hr' | discriminate |].
        now apply suffix_matchRest.
      - rewrite length_app, Hlen. unfold DNS1123LabelMaxLength. lia. }
    pose proof (proj2 (IsDNS1123Label_nil _) Hlegal) as Hnil.
    rewrite Hnil.
    now rewrite (proj2 (isValidDNS1123Label_None _) Hlegal).
Qed.

(** Whenever [DNS1123Label] or [UniqueDNS1123Label] returns without
    error, the returned string is in the language of
    [[a-z0-9]([-a-z0-9]*[a-z0-9])?] and has at most 63 bytes; and when the
    sanitized and truncated candidate is not such a label (for instance
    because nothing is left of the name), an error is returned, by
    [UniqueDNS1123Label] provided the hash prints with eight digits. *)
Lemma labels_returned_are_legal rn name :
  let sanitized := sanitizedLabel rn name in
  let cut n := if (n <? String.length sanitized)%nat
               then slice_to sanitized n else sanitized in
  let suffix := slice_to ("-" +:+ FormatHex (xxhash.Sum64 name)) 9 in
  (forall s, DNS1123Label rn name = (s, None) -> legalLabel s)
  /\ (forall s, UniqueDNS1123Label rn name = Returned (s, None) -> legalLabel s)
  /\ (~ legalLabel (cut 63%nat) ->
      exists e, DNS1123Label rn name = (cut 63%nat, Some e))
  /\ (2 ^ 28 <= xxhash.Sum64 name ->
      ~ legalLabel (cut 54%nat +:+ suffix) ->
      exists e, UniqueDNS1123Label rn name = Returned ("", Some e))
  /\ (sanitized = "" -> exists e, DNS1123Label rn name = ("", Some e)).
Proof.
  intros sanitized cut suffix.
  split; [|split; [|split; [|split]]].
  - unfold DNS1123Label. intros s [= <- Hv].
    now apply isValidDNS1123Label_None.
  - unfold UniqueDNS1123Label. intros s.
    destruct (_ <? 9)%nat; [discriminate|].
    destruct (IsDNS1123Label _) eqn:E; [|discriminate].
    intros [= <- _]. now apply IsDNS1123Label_nil.
  - intros Hbad. unfold DNS1123Label. fold sanitized.
    change (if (DNS1123LabelMaxLength <? String.length sanitized)%nat
            then slice_to sanitized DNS1123LabelMaxLength else sanitized)
      with (cut 63%nat).
    destruct (isValidDNS1123Label (cut 63%nat)) as [e|] eqn:E; [now exists e|].
    exfalso. now apply Hbad, isValidDNS1123Label_None.
  - intros Hx Hbad. unfold UniqueDNS1123Label.
    rewrite (suffix_panics_iff_short _ Hx). fold sanitized suffix.
    change (if (DNS1123LabelMaxLength - 9 <? String.length sanitized)%nat
            then slice_to sanitized (DNS1123LabelMaxLength - 9) else sanitized)
      with (cut 54%nat).
    destruct (IsDNS1123Label (cut 54%nat +:+ suffix)) eqn:E.
    + exfalso. now apply Hbad, IsDNS1123Label_nil.
    + eexists. reflexivity.
  - intros Hs. unfold DNS1123Label. fold sanitized. rewrite Hs.
    eexists. reflexivity.
Qed.

End NamerClaims.

(** C1 at "NAME": the hash is 0x4cfd357450b2090a, well above 2^28. *)
Lemma UniqueDNS1123Label_leading_digits_witness :
  2 ^ 28 <= xxhash.Sum64 "NAME"
  /\ @namer.UniqueDNS1123Label examples.asciiOnly examples.messages
       (namer.NewResourceNamerWithPrefix "") "NAME"
     = Returned ("name" +:+ "-4cfd3574", None).
Proof.
  assert (2 ^ 28 <= xxhash.Sum64 "NAME") as Hx by (vm_compute; discriminate).
  split; [exact Hx|].
  exact (proj2 (proj2 (proj1 (@UniqueDNS1123Label_leading_digits
           examples.asciiOnly examples.messages)
           (namer.NewResourceNamerWithPrefix "") "NAME" Hx))).
Defined.

(** C1 as worded fails at "NAME": the eight lowest-order digits of the hash
    are 50b2090a, while the function appends 4cfd3574. *)
Lemma UniqueDNS1123Label_lowest_digits_counterexample :
  @worded.UniqueLabel examples.asciiOnly (namer.NewResourceNamerWithPrefix "") "NAME"
  = "name-50b2090a"
  /\ forall e,
      @namer.UniqueDNS1123Label examples.asciiOnly examples.messages
        (namer.NewResourceNamerWithPrefix "") "NAME"
      <> Returned (@worded.UniqueLabel examples.asciiOnly
                     (namer.NewResourceNamerWithPrefix "") "NAME", e).
Proof.
  split; [vm_compute; reflexivity|].
  intros e. vm_compute. intros [= E]. 
Qed.

(** [labels_returned_are_legal] at "NAME". *)
Example labels_returned_are_legal_at_NAME :
  examples.label "" "NAME" = ("name", None)
  /\ grammar.legalLabel "name".
Proof.
  split; [reflexivity|].
  exact (proj1 (@labels_returned_are_legal examples.asciiOnly examples.messages
                  (namer.NewResourceNamerWithPrefix "") "NAME") "name" eq_refl).
Qed.

(** C2 at the name "#.$&;$=.", of which sanitization leaves nothing: its
    hash, 0xac9f3d9, prints with seven digits, so [h[:9]] is out of range
    and [UniqueDNS1123Label] panics where the claim has it return a
    validation error. *)
Theorem UniqueDNS1123Label_panics_on_short_hash :
  xxhash.Sum64 "#.$&;$=." = 0xac9f3d9
  /\ @namer.sanitizedLabel examples.asciiOnly
       (namer.NewResourceNamerWithPrefix "") "#.$&;$=." = ""
  /\ ~ grammar.legalLabel ("" +:+ "-ac9f3d9")
  /\ examples.unique "" "#.$&;$=." = Panicked SliceBoundsOutOfRange.
Proof.
  split; [vm_compute; reflexivity|]. split; [vm_compute; reflexivity|].
  split; [|vm_compute; reflexivity].
  intros [Hm _].
  apply MatchString_grammar in Hm.
  discriminate Hm.
Qed.

(** The same panic on a name that is a legal label as it stands. *)
Example UniqueDNS1123Label_panics_on_legal_name :
  xxhash.Sum64 "elzwgwgr" = 0x519877d
  /\ examples.label "" "elzwgwgr" = ("elzwgwgr", None)
  /\ examples.unique "" "elzwgwgr" = Panicked SliceBoundsOutOfRange.
Proof. repeat split; vm_compute; reflexivity. Qed.

(** ** Finalizer patches *)
Section FinalizerClaims.
Import finalizer.
Context `{Encoder}.

Lemma Contains_elem_of l x : Contains l x = true <-> x ∈ l.
Proof.
  induction l as [|y l IH]; simpl.
  - split; [discriminate | intros Hin; inversion Hin].
  - rewrite orb_true_iff, IH, String.eqb_eq, elem_of_cons.
    split; intros [?|?]; auto.
Qed.

Lemma deleteFrom_absent i l x : x ∉ l -> deleteFrom i l x = (None, None).
Proof.
  revert i. induction l as [|y l IH]; intros i Hx; simpl; [reflexivity|].
  apply not_elem_of_cons in Hx as [Hne Hx].
  destruct (String.eqb_spec y x) as [->|_]; [contradiction|].
  now apply IH.
Qed.

Lemma deleteFrom_first base l x i :
  l !! i = Some x ->
  (forall j, (j < i)%nat -> l !! j <> Some x) ->
  deleteFrom base l x =
    json_Marshal [ object_of (Test (indexPath (base + i)) (AnyString x));
                   object_of (Remove (indexPath (base + i))) ].
Proof.
  revert base i. induction l as [|y l IH]; intros base i Hi Hfirst;
    [discriminate|].
  simpl. destruct i as [|i].
  - injection Hi as ->. rewrite String.eqb_refl, Nat.add_0_r. reflexivity.
  - destruct (String.eqb_spec y x) as [->|_].
    + exfalso. apply (Hfirst 0%nat); [lia | reflexivity].
    + rewrite (IH (S base) i Hi).
      * now replace (S base + i)%nat with (base + S i)%nat by lia.
      * intros j Hj. apply (Hfirst (S j)). lia.
Qed.

(** C5.  [FinalizerAddPatch]: no patch (an empty payload) when the name
    is already present; one [add] operation setting [/metadata/finalizers]
    to the list [[name]] when there is no finalizer; otherwise one [add]
    operation appending the name at [/metadata/finalizers/-].
    [FinalizerDeletePatch]: for the first index [i] holding the name, the
    two operations [test] of [/metadata/finalizers/i] against the name,
    then [remove] of [/metadata/finalizers/i]; no patch (nil) when the
    name is absent. *)
Theorem finalizer_patches (finalizers : list string) (name : string) :
  (name ∈ finalizers -> FinalizerAddPatch finalizers name = (Some "", None))
  /\ (finalizers = [] ->
      FinalizerAddPatch finalizers name =
        json_Marshal [ object_of (Add "/metadata/finalizers" (AnyStrings [name])) ])
  /\ (name ∉ finalizers -> finalizers <> [] ->
      FinalizerAddPatch finalizers name =
        json_Marshal [ object_of (Add "/metadata/finalizers/-" (AnyString name)) ])
  /\ (forall i,
        finalizers !! i = Some name ->
        (forall j, (j < i)%nat -> finalizers !! j <> Some name) ->
        FinalizerDeletePatch finalizers name =
          json_Marshal
            [ object_of (Test ("/metadata/finalizers/" +:+ pretty i) (AnyString name));
              object_of (Remove ("/metadata/finalizers/" +:+ pretty i)) ])
  /\ (name ∉ finalizers -> FinalizerDeletePatch finalizers name = (None, None)).
Proof.
  unfold FinalizerAddPatch, FinalizerDeletePatch.
  split; [|split; [|split; [|split]]].
  - intros Hin. apply Contains_elem_of in Hin. now rewrite Hin.
  - intros ->. reflexivity.
  - intros Hnot Hne.
    destruct (Contains finalizers name) eqn:E.
    + apply Contains_elem_of in E. contradiction.
    + destruct finalizers; [contradiction | reflexivity].
  - intros i Hi Hfirst. exact (deleteFrom_first 0 finalizers name i Hi Hfirst).
  - apply deleteFrom_absent.
Qed.

End FinalizerClaims.

(** C5 on the lists of the package's tests. *)
Lemma finalizer_patches_witness :
  let F := "cleanup.kubernetes.io/finalizer" in
  @finalizer.FinalizerAddPatch examples.countingEncoder ["a"; F; "b"] F = (Some "", None)
  /\ @finalizer.FinalizerAddPatch examples.countingEncoder [] F
     = examples.countingEncoder
         [ finalizer.object_of
             (finalizer.Add "/metadata/finalizers" (finalizer.AnyStrings [F])) ]
  /\ @finalizer.FinalizerAddPatch examples.countingEncoder ["a"; "b"] F
     = examples.countingEncoder
         [ finalizer.object_of
             (finalizer.Add "/metadata/finalizers/-" (finalizer.AnyString F)) ]
  /\ @finalizer.FinalizerDeletePatch examples.countingEncoder ["a"; F; "b"] F
     = examples.countingEncoder
         [ finalizer.object_of
             (finalizer.Test "/metadata/finalizers/1" (finalizer.AnyString F));
           finalizer.object_of (finalizer.Remove "/metadata/finalizers/1") ]
  /\ @finalizer.FinalizerDeletePatch examples.countingEncoder ["a"; "b"] F = (None, None).
Proof.
  intros F.
  assert (F ∈ ["a"; F; "b"]) as Hin by (apply list_elem_of_lookup; exists 1%nat; reflexivity).
  assert (F ∉ ["a"; "b"]) as Hout.
  { intros Hbad. apply list_elem_of_In in Hbad. simpl in Hbad.
    destruct Hbad as [E|[E|[]]]; discriminate E. }
  assert (forall j, (j < 1)%nat -> ["a"; F; "b"] !! j <> Some F) as Hfirst.
  { intros j Hj. assert (j = 0%nat) as -> by lia. discriminate. }
  split; [exact (proj1 (@finalizer_patches examples.countingEncoder ["a"; F; "b"] F) Hin)|].
  split; [exact (proj1 (proj2 (@finalizer_patches examples.countingEncoder [] F)) eq_refl)|].
  split; [exact (proj1 (proj2 (proj2 (@finalizer_patches examples.countingEncoder ["a"; "b"] F)))
                   Hout ltac:(discriminate))|].
  split; [exact (proj1 (proj2 (proj2 (proj2
                   (@finalizer_patches examples.countingEncoder ["a"; F; "b"] F))))
                   1%nat eq_refl Hfirst)|].
  exact (proj2 (proj2 (proj2 (proj2 (@finalizer_patches examples.countingEncoder ["a"; "b"] F))))
           Hout).
Defined.

(** ** The RBAC check *)
Section RbacClaims.
Import rbac.
Context `{Quoting} {St : Type} (ssarClient : SelfSubjectAccessReviewInterface St).

Lemma failure_cons_allowed c status (answers : list answered) :
  failure ((c, inl status) :: answers) = failure answers.
Proof. unfold failure. destruct answers; reflexivity. Qed.

Lemma failure_app (a1 a2 : list answered) :
  failure a1 = None -> failure (a1 ++ a2) = failure a2.
Proof.
  intros H1. destruct a2 as [|x a2 _] using rev_ind.
  - now rewrite app_nil_r.
  - unfold failure. now rewrite app_assoc, !last_snoc.
Qed.

Lemma denials_app (a1 a2 : list answered) :
  denials (a1 ++ a2)
  = denials a1 ++ denials a2.
Proof. unfold denials. apply bind_app. Qed.

Lemma submit_app cs1 cs2 st :
  submit ssarClient (cs1 ++ cs2) st =
    let '(a1, st1) := submit ssarClient cs1 st in
    match failure a1 with
    | Some _ => (a1, st1)
    | None =>
        let '(a2, st2) := submit ssarClient cs2 st1 in
        (a1 ++ a2, st2)
    end.
Proof.
  revert st. induction cs1 as [|[[ns ra] verb] cs1 IH]; intros st; simpl.
  - now destruct (submit ssarClient cs2 st).
  - destruct (Create ssarClient (reviewRequest ns ra verb) st) as [[status|err] st'].
    + rewrite IH. destruct (submit ssarClient cs1 st') as [a1 st1].
      rewrite failure_cons_allowed.
      destruct (failure a1); [reflexivity|].
      now destruct (submit ssarClient cs2 st1).
    + reflexivity.
Qed.

Lemma overVerbs_submit ns ra verbs acc st :
  overVerbs ssarClient ns ra verbs acc st =
    let '(answers, st') :=
      submit ssarClient (verbs ≫= fun verb => [(ns, ra, verb)]) st in
    (handBack acc answers, st').
Proof.
  revert acc st. induction verbs as [|verb verbs IH]; intros acc st.
  - simpl. unfold handBack. simpl. now rewrite app_nil_r.
  - rewrite bind_cons.
    change ([(ns, ra, verb)] ++ (verbs ≫= fun verb => [(ns, ra, verb)]))
      with ((ns, ra, verb) :: (verbs ≫= fun verb => [(ns, ra, verb)])).
    cbn [overVerbs submit].
    destruct (Create ssarClient (reviewRequest ns ra verb) st) as [[status|err] st'].
    + rewrite IH.
      destruct (submit ssarClient (verbs ≫= _) st') as [answers st''].
      unfold handBack. rewrite failure_cons_allowed.
      destruct (failure answers); [reflexivity|].
      f_equal. f_equal.
      change (denials ((ns, ra, verb, inl status) :: answers))
        with ((if Allowed status then [] else [missingPermission ns ra verb])
              ++ denials answers).
      destruct (Allowed status); simpl; [reflexivity|].
      now rewrite <- app_assoc.
    + reflexivity.
Qed.

Lemma handBack_app acc (a1 a2 : list answered) :
  failure a1 = None ->
  handBack acc (a1 ++ a2) = handBack (acc ++ denials a1) a2.
Proof.
  intros H1. unfold handBack. rewrite (failure_app _ _ H1), denials_app.
  destruct (failure a2); [reflexivity|]. now rewrite app_assoc.
Qed.

Lemma overAttributes_submit ns attributes acc st :
  overAttributes ssarClient ns attributes acc st =
    let '(answers, st') :=
      submit ssarClient
        (attributes ≫= fun ra => Verbs ra ≫= fun verb => [(ns, ra, verb)]) st in
    (handBack acc answers, st').
Proof.
  revert acc st. induction attributes as [|ra attributes IH]; intros acc st.
  - simpl. unfold handBack. simpl. now rewrite app_nil_r.
  - cbn [overAttributes]. rewrite overVerbs_submit, bind_cons, submit_app.
    destruct (submit ssarClient (Verbs ra ≫= _) st) as [a1 st1].
    unfold handBack at 1. destruct (failure a1) as [err|] eqn:E1.
    + unfold handBack. now rewrite E1.
    + rewrite IH.
      destruct (submit ssarClient (attributes ≫= _) st1) as [a2 st2].
      now rewrite handBack_app.
Qed.

Lemma overNamespaces_submit namespaces attributes acc st :
  overNamespaces ssarClient namespaces attributes acc st =
    let '(answers, st') :=
      submit ssarClient
        (namespaces ≫= fun ns =>
           attributes ≫= fun ra => Verbs ra ≫= fun verb => [(ns, ra, verb)]) st in
    (handBack acc answers, st').
Proof.
  revert acc st. induction namespaces as [|ns namespaces IH]; intros acc st.
  - simpl. unfold handBack. simpl. now rewrite app_nil_r.
  - cbn [overNamespaces]. rewrite overAttributes_submit, bind_cons, submit_app.
    destruct (submit ssarClient (attributes ≫= _) st) as [a1 st1].
    unfold handBack at 1. destruct (failure a1) as [err|] eqn:E1.
    + unfold handBack. now rewrite E1.
    + rewrite IH.
      destruct (submit ssarClient (namespaces ≫= _) st1) as [a2 st2].
      now rewrite handBack_app.
Qed.

(** Without a failed request every check is submitted. *)
Lemma submit_all cs st :
  failure (submit ssarClient cs st).1 = None ->
  (submit ssarClient cs st).1.*1 = cs.
Proof.
  revert st. induction cs as [|[[ns ra] verb] cs IH]; intros st;
    [reflexivity|].
  cbn [submit].
  destruct (Create ssarClient (reviewRequest ns ra verb) st) as [[status|err] st'].
  - specialize (IH st'). destruct (submit ssarClient cs st') as [answers st''].
    cbn [fst] in *. rewrite failure_cons_allowed. intros Hf.
    rewrite fmap_cons. f_equal. now apply IH.
  - discriminate.
Qed.


End RbacClaims.

(** ** Metadata merge *)
Section MergeFacts.
Import gostrings metav1 merge.

Lemma HasPrefix_empty k : HasPrefix k "" = true.
Proof. now destruct k. Qed.

Lemma contents_mapassign_eq l k v s :
  contents (mapassign l k v s) l = <[k := v]> (contents s l).
Proof. unfold contents, mapassign. simpl. now rewrite lookup_insert_eq. Qed.

Lemma contents_mapassign_ne l l' k v s :
  l <> l' -> contents (mapassign l k v s) l' = contents s l'.
Proof. intros Hne. unfold contents, mapassign. simpl. now rewrite lookup_insert_ne. Qed.

Lemma allocated_mapassign l l' k v s :
  is_Some (maps s !! l') -> is_Some (maps (mapassign l k v s) !! l').
Proof.
  intros Hl'. unfold mapassign. simpl.
  destruct (decide (l = l')) as [->|Hne].
  - rewrite lookup_insert_eq. eauto.
  - now rewrite lookup_insert_ne.
Qed.

(** The loop of [mergeMapsByPrefix]: afterwards the map at [to] holds the
    entries of [from] whose key has the prefix, over what it held. *)
Lemma copyByPrefix_spec (from : gmap string string) to prefix s :
  let s' := copyByPrefix from to prefix s in
  (forall k, contents s' to !! k =
             match from !! k with
             | Some v => if HasPrefix k prefix then Some v else contents s to !! k
             | None => contents s to !! k
             end)
  /\ (forall l, l <> to -> contents s' l = contents s l)
  /\ bools s' = bools s
  /\ (forall l, is_Some (maps s !! l) -> is_Some (maps s' !! l)).
Proof.
  unfold copyByPrefix.
  apply (map_fold_weak_ind (fun s' (from : gmap string string) =>
    (forall k, contents s' to !! k =
               match from !! k with
               | Some v => if HasPrefix k prefix then Some v else contents s to !! k
               | None => contents s to !! k
               end)
    /\ (forall l, l <> to -> contents s' l = contents s l)
    /\ bools s' = bools s
    /\ (forall l, is_Some (maps s !! l) -> is_Some (maps s' !! l)))).
  - repeat split; auto.
  - intros i x m r Hi (Hto & Hother & Hbools & Halloc).
    destruct (HasPrefix i prefix) eqn:Hp.
    + split; [|split; [|split]].
      * intros k. rewrite contents_mapassign_eq.
        destruct (decide (i = k)) as [->|Hne].
        -- now rewrite !lookup_insert_eq, Hp.
        -- rewrite !lookup_insert_ne by done. apply Hto.
      * intros l Hl. rewrite contents_mapassign_ne by done. now apply Hother.
      * exact Hbools.
      * intros l Hl. now apply allocated_mapassign, Halloc.
    + split; [|split; [|split]]; auto.
      intros k. destruct (decide (i = k)) as [->|Hne].
      * rewrite lookup_insert_eq, Hp, Hto, Hi. reflexivity.
      * rewrite lookup_insert_ne by done. apply Hto.
Qed.

Lemma make_spec s :
  let l := (make s).1 in
  let s' := (make s).2 in
  maps s !! l = None
  /\ contents s' l = ∅
  /\ (forall l', l' <> l -> maps s' !! l' = maps s !! l')
  /\ is_Some (maps s' !! l)
  /\ bools s' = bools s.
Proof.
  unfold make. simpl. set (l := fresh (dom (maps s))).
  assert (maps s !! l = None) as Hfresh.
  { apply not_elem_of_dom. apply is_fresh. }
  split; [exact Hfresh|]. split; [|split; [|split]].
  - unfold contents. simpl. now rewrite lookup_insert_eq.
  - intros l' Hne. now rewrite lookup_insert_ne.
  - rewrite lookup_insert_eq. eauto.
  - reflexivity.
Qed.

(** [mergeMapsByPrefix], for maps that exist in the store: the result is
    the map [to] (a new one when [to] is nil), holding afterwards the
    entries of [from] with the prefix over the entries of [to]; no other
    existing map changes. *)
Lemma mergeMapsByPrefix_spec from to prefix s :
  refAllocated s from -> refAllocated s to ->
  let r := (mergeMapsByPrefix from to prefix s).1 in
  let s' := (mergeMapsByPrefix from to prefix s).2 in
  (exists l, r = Some l
             /\ (forall l', to = Some l' -> l = l')
             /\ (to = None -> maps s !! l = None)
             /\ is_Some (maps s' !! l))
  /\ (forall k, view s' r !! k =
                match view s from !! k with
                | Some v => if HasPrefix k prefix then Some v else view s to !! k
                | None => view s to !! k
                end)
  /\ (forall l, is_Some (maps s !! l) -> to <> Some l ->
                contents s' l = contents s l)
  /\ (forall l, is_Some (maps s !! l) -> is_Some (maps s' !! l))
  /\ bools s' = bools s.
Proof.
  intros Hfrom Hto. unfold mergeMapsByPrefix.
  (* the map written to *)
  destruct to as [t|].
  - (* [to] exists *)
    destruct from as [f|].
    + simpl. destruct (copyByPrefix_spec (contents s f) t prefix s)
        as (Hc & Hother & Hbools & Halloc).
      split; [|split; [|split; [|split]]]; auto.
      * exists t. repeat split; auto; try congruence.
      * intros l Hl Hne. apply Hother. congruence.
    + destruct (make_spec s) as (Hfresh & Hempty & Hsame & Hnew & Hb).
      destruct (make s) as [f s1] eqn:Emake. simpl in *.
      assert (t <> f) as Htf.
      { intros ->. destruct (Hto f eq_refl) as [? Hx]. congruence. }
      destruct (copyByPrefix_spec (contents s1 f) t prefix s1)
        as (Hc & Hother & Hbools & Halloc).
      assert (forall l, l <> f -> contents s1 l = contents s l) as Hcont.
      { intros l Hl. unfold contents. now rewrite Hsame. }
      split; [|split; [|split; [|split]]].
      * exists t. repeat split; auto; try congruence.
        apply Halloc. rewrite Hsame by done. now apply Hto.
      * intros k. rewrite Hc, Hempty, lookup_empty. now rewrite Hcont.
      * intros l Hl Hne. rewrite Hother by congruence.
        apply Hcont. intros ->. destruct Hl as [? Hx]. congruence.
      * intros l Hl. apply Halloc.
        destruct (decide (l = f)) as [->|Hne]; [exact Hnew|].
        now rewrite Hsame.
      * congruence.
  - (* [to] is nil: a new map *)
    destruct (make_spec s) as (Hfresh & Hempty & Hsame & Hnew & Hb).
    destruct (make s) as [t s1] eqn:Emake. simpl in Hfresh, Hempty, Hsame, Hnew, Hb.
    assert (forall l, l <> t -> contents s1 l = contents s l) as Hcont.
    { intros l Hl. unfold contents. now rewrite Hsame. }
    destruct from as [f|].
    + simpl.
      assert (f <> t) as Hft.
      { intros ->. destruct (Hfrom t eq_refl) as [? Hx]. congruence. }
      destruct (copyByPrefix_spec (contents s1 f) t prefix s1)
        as (Hc & Hother & Hbools & Halloc).
      split; [|split; [|split; [|split]]].
      * exists t. repeat split; auto; try congruence. 
      * intros k. rewrite Hc, Hempty, lookup_empty, (Hcont f Hft).
        simpl. rewrite ?lookup_empty. reflexivity.
      * intros l Hl _. rewrite Hother.
        -- apply Hcont. intros ->. destruct Hl as [? Hx]. congruence.
        -- intros ->. destruct Hl as [? Hx]. congruence.
      * intros l Hl. apply Halloc.
        destruct (decide (l = t)) as [->|Hne]; [exact Hnew|].
        now rewrite Hsame.
      * congruence.
    + destruct (make_spec s1) as (Hfresh2 & Hempty2 & Hsame2 & Hnew2 & Hb2).
      destruct (make s1) as [f s2] eqn:Emake2.
      simpl in Hfresh2, Hempty2, Hsame2, Hnew2, Hb2. simpl.
      assert (t <> f) as Htf.
      { intros ->. destruct Hnew as [? Hx]. congruence. }
      assert (forall l, l <> f -> contents s2 l = contents s1 l) as Hcont2.
      { intros l Hl. unfold contents. now rewrite Hsame2. }
      destruct (copyByPrefix_spec (contents s2 f) t prefix s2)
        as (Hc & Hother & Hbools & Halloc).
      split; [|split; [|split; [|split]]].
      * exists t. repeat split; auto; try congruence.
        apply Halloc. rewrite Hsame2 by done. exact Hnew.
      * intros k. rewrite Hc, Hempty2, lookup_empty, (Hcont2 t Htf), Hempty.
        simpl. rewrite ?lookup_empty. reflexivity.
      * intros l Hl _.
        assert (l <> t) by (intros ->; destruct Hl as [? Hx]; congruence).
        assert (l <> f).
        { intros ->. destruct Hl as [? Hx].
          rewrite <- Hsame in Hx by done. congruence. }
        rewrite Hother, Hcont2, Hcont by done. reflexivity.
      * intros l Hl. apply Halloc.
        destruct (decide (l = f)) as [->|Hne]; [exact Hnew2|].
        rewrite Hsame2 by done.
        destruct (decide (l = t)) as [->|Hne']; [exact Hnew|].
        now rewrite Hsame.
      * congruence.
Qed.

Lemma view_frame s s' (r : option loc) (avoid : option loc) :
  refAllocated s r ->
  (forall l, r = Some l -> avoid <> Some l) ->
  (forall l, is_Some (maps s !! l) -> avoid <> Some l -> contents s' l = contents s l) ->
  view s' r = view s r.
Proof.
  intros Hr Hne Hframe. destruct r as [l|]; [|reflexivity].
  simpl. apply Hframe; [now apply Hr | now apply Hne].
Qed.

Lemma desiredWins_union result desired observed :
  desiredWins result desired observed <-> result = desired ∪ observed.
Proof.
  unfold desiredWins. split.
  - intros Hw. apply map_eq. intros k. rewrite Hw, lookup_union.
    destruct (desired !! k), (observed !! k); reflexivity.
  - intros -> k. rewrite lookup_union.
    destruct (desired !! k), (observed !! k); reflexivity.
Qed.

(** [mergeMetadata] on two objects in memory whose maps exist, the
    observed label map being no other map of theirs. *)
Lemma mergeMetadata_desired_wins_store (s : store) (desired observed : ObjectMeta loc loc) :
  allocated s desired ->
  allocated s observed ->
  (forall l, Labels observed = Some l ->
             Annotations observed <> Some l /\ Annotations desired <> Some l) ->
  let merged := (mergeMetadata desired observed s).1 in
  let s' := (mergeMetadata desired observed s).2 in
  ResourceVersion merged = ResourceVersion observed
  /\ desiredWins (view s' (Labels merged))
       (view s (Labels desired)) (view s (Labels observed))
  /\ desiredWins (view s' (Annotations merged))
       (view s (Annotations desired)) (view s (Annotations observed)).
Proof.
  intros [Hdl Hda] [Hol Hoa] Hsep. unfold mergeMetadata, mergeMaps. simpl.
  destruct (mergeMapsByPrefix_spec (Labels desired) (Labels observed) "" s Hdl Hol)
    as ((l1 & Hr1 & Hsame1 & Hfresh1 & Hnew1) & Hv1 & Hframe1 & Halloc1 & _).
  destruct (mergeMapsByPrefix (Labels desired) (Labels observed) "" s)
    as [labels s1] eqn:E1. simpl in Hr1, Hv1, Hframe1, Halloc1, Hnew1. subst labels.
  assert (refAllocated s1 (Annotations desired)) as Hda1
      by (intros a Ha; apply Halloc1, Hda, Ha).
  assert (refAllocated s1 (Annotations observed)) as Hoa1
      by (intros a Ha; apply Halloc1, Hoa, Ha).
  destruct (mergeMapsByPrefix_spec (Annotations desired) (Annotations observed) "" s1
              Hda1 Hoa1)
    as (_ & Hv2 & Hframe2 & _ & _).
  destruct (mergeMapsByPrefix (Annotations desired) (Annotations observed) "" s1)
    as [annotations s2] eqn:E2. simpl in Hv2, Hframe2. simpl.
  assert (Annotations observed <> Some l1) as Hl1.
  { intros Ha. destruct (Labels observed) as [l'|] eqn:El.
    - rewrite (Hsame1 l' eq_refl) in Ha.
      exact (proj1 (Hsep l' eq_refl) Ha).
    - destruct (Hoa l1 Ha) as [? Hx]. rewrite (Hfresh1 eq_refl) in Hx. discriminate. }
  assert (desiredWins (contents s2 l1) (view s (Labels desired))
            (view s (Labels observed))) as Hlabels.
  { intros k. rewrite (Hframe2 l1 Hnew1 Hl1).
    specialize (Hv1 k). simpl in Hv1.
    rewrite Hv1, HasPrefix_empty. reflexivity. }
  assert (desiredWins (view s2 annotations) (view s (Annotations desired))
            (view s (Annotations observed))) as Hannotations.
  { intros k. rewrite Hv2, HasPrefix_empty.
    rewrite (view_frame s s1 (Annotations desired) (Labels observed) Hda);
      [|intros a Ha El; exact (proj2 (Hsep a El) Ha) | exact Hframe1].
    rewrite (view_frame s s1 (Annotations observed) (Labels observed) Hoa);
      [|intros a Ha El; exact (proj1 (Hsep a El) Ha) | exact Hframe1].
    reflexivity. }
  split; [reflexivity|]. split; [exact Hlabels | exact Hannotations].
Qed.

(** C3.  [mergeMetadata] gives the desired object the observed object's
    resource version, and makes its labels, and likewise its annotations,
    the union of the observed and the desired mapping: the desired value
    on a shared key, the observed value on a key of the observed mapping
    alone.  The maps are those of two objects in memory, the observed
    object's label map being no other map of theirs (it is the map that
    receives the merged labels). *)
Theorem mergeMetadata_desired_wins (s : store) (desired observed : ObjectMeta loc loc) :
  allocated s desired ->
  allocated s observed ->
  (forall l, Labels observed = Some l ->
             Annotations observed <> Some l /\ Annotations desired <> Some l) ->
  let merged := (mergeMetadata desired observed s).1 in
  let s' := (mergeMetadata desired observed s).2 in
  ResourceVersion merged = ResourceVersion observed
  /\ desiredWins (view s' (Labels merged))
       (view s (Labels desired)) (view s (Labels observed))
  /\ desiredWins (view s' (Annotations merged))
       (view s (Annotations desired)) (view s (Annotations observed))
  /\ view s' (Labels merged) = view s (Labels desired) ∪ view s (Labels observed)
  /\ view s' (Annotations merged)
     = view s (Annotations desired) ∪ view s (Annotations observed).
Proof.
  intros Hd Ho Hsep.
  destruct (mergeMetadata_desired_wins_store s desired observed Hd Ho Hsep)
    as (Hrv & Hlabels & Hannotations).
  split; [exact Hrv|]. split; [exact Hlabels|]. split; [exact Hannotations|].
  split; now apply desiredWins_union.
Qed.

Lemma foldl_append_unless {A} (P : A -> bool) (acc l : list A) :
  foldl (fun acc x => if P x then acc else acc ++ [x]) acc l
  = acc ++ List.filter (fun x => negb (P x)) l.
Proof.
  revert acc. induction l as [|x l IH]; intros acc; simpl.
  - now rewrite app_nil_r.
  - rewrite IH. destruct (P x); simpl; [reflexivity|].
    now rewrite <- app_assoc.
Qed.

Lemma foldl_cons_elem_of {A} (l acc : list A) x :
  x ∈ foldl (fun acc y => y :: acc) acc l <-> x ∈ l \/ x ∈ acc.
Proof.
  revert acc. induction l as [|y l IH]; intros acc; simpl.
  - split; [auto | intros [Hx|Hx]; [inversion Hx | exact Hx]].
  - rewrite IH, !elem_of_cons. tauto.
Qed.

(** What [mergeOwnerReferences] computes: the observed references, in
    order and unchanged, followed by the desired references that are equal
    to no observed reference, in the order of the desired list, where
    equality is Go's equality of the structs in memory: the strings by
    content, the two flag pointers by address. *)
Lemma mergeOwnerReferences_appends_missing
        (observed desired : list (OwnerReference loc)) :
  mergeOwnerReferences observed desired
  = observed ++ filter (fun r => r ∉ observed) desired
  /\ (forall i r, observed !! i = Some r ->
                  mergeOwnerReferences observed desired !! i = Some r)
  /\ (forall r, r ∈ observed -> r ∈ mergeOwnerReferences observed desired).
Proof.
  assert (mergeOwnerReferences observed desired
          = observed ++ filter (fun r => r ∉ observed) desired) as E.
  { unfold mergeOwnerReferences.
    rewrite (foldl_append_unless
               (fun r => bool_decide (r ∈ foldl (fun acc y => y :: acc) [] observed))).
    f_equal. induction desired as [|r desired IH]; [reflexivity|].
    simpl. rewrite filter_cons, IH.
    destruct (decide (r ∉ observed)) as [Hr|Hr].
    - rewrite bool_decide_false; [reflexivity|].
      rewrite foldl_cons_elem_of. intros [?|Hn]; [contradiction | inversion Hn].
    - rewrite bool_decide_true; [reflexivity|].
      apply foldl_cons_elem_of. left. now apply dec_stable. }
  split; [exact E|]. rewrite E. split.
  - intros i r Hi. now apply lookup_app_l_Some.
  - intros r Hr. apply elem_of_app. now left.
Qed.

End MergeFacts.
(** ** The retry loop and the reconcile protocol *)
Section RetryFacts.
Import metav1 client.
Context `{Classifier} {St O S : Type}.

(** Every attempt appends its calls to the log; the loop appends the
    calls of at most [steps] attempts. *)
Lemma OnConflict_attempts (I : S -> world St O -> Prop) (Q : list (call O) -> Prop)
      (fn : S -> world St O -> (option error * S) * world St O) :
  (forall s w, I s w ->
     I (fn s w).1.2 (fn s w).2
     /\ exists calls, log (fn s w).2 = log w ++ calls /\ Q calls) ->
  forall steps lastErr s w, I s w ->
    I (OnConflict steps fn lastErr s w).1.2 (OnConflict steps fn lastErr s w).2
    /\ exists attempts,
        log (OnConflict steps fn lastErr s w).2 = log w ++ concat attempts
        /\ Forall Q attempts /\ (length attempts <= steps)%nat.
Proof.
  intros Hfn steps. induction steps as [|steps IH]; intros lastErr s w Hs.
  - simpl. split; [exact Hs|]. exists []. simpl.
    rewrite app_nil_r. split; [reflexivity|]. split; [constructor | lia].
  - cbn [OnConflict].
    destruct (Hfn s w Hs) as (Hs' & calls & Hlog & HQ).
    destruct (fn s w) as [[err s'] w'] eqn:Efn. cbn [fst snd] in Hs', Hlog.
    assert (exists attempts,
               log w' = log w ++ concat attempts /\ Forall Q attempts
               /\ (length attempts <= Datatypes.S steps)%nat) as Hone.
    { exists [calls]. simpl. rewrite app_nil_r.
      split; [exact Hlog|]. split; [|lia]. now constructor. }
    destruct err as [e|]; [|split; [exact Hs' | exact Hone]].
    destruct (IsConflict e); [|split; [exact Hs' | exact Hone]].
    destruct (IH (Some e) s' w' Hs') as (Hfinal & attempts & Hlog' & HQ' & Hlen).
    split; [exact Hfinal|].
    exists (calls :: attempts). simpl.
    rewrite Hlog', Hlog, <- app_assoc.
    split; [reflexivity|]. split; [|lia]. now constructor.
Qed.

Lemma served_app (c : Interface St O) st calls1 st1 calls2 st2 :
  served c st calls1 st1 -> served c st1 calls2 st2 ->
  served c st (calls1 ++ calls2) st2.
Proof.
  revert st. induction calls1 as [|k calls1 IH]; intros st H1 H2.
  - simpl in *. now subst st1.
  - destruct k; simpl in *; destruct H1 as [Ha H1]; (split; [exact Ha|]);
      now apply IH.
Qed.

(** The loop as a sequence of attempts.  When each attempt records the
    calls it issues as the client answers them ([served]) and returns
    the error of its last call, the loop runs at least one attempt and at
    most [steps]: every attempt but the last ended on a conflict, the
    last one did not unless the attempts ran out, and its error and its
    state are those of the loop.  [P] is the shape of an attempt's calls,
    [R] relates them to the state the attempt leaves, [I] is what holds
    when an attempt starts. *)
Lemma OnConflict_trace (c : Interface St O)
      (I : S -> world St O -> Prop) (P : list (call O) -> Prop)
      (R : list (call O) -> S -> world St O -> Prop)
      (fn : S -> world St O -> (option error * S) * world St O) :
  (forall s w, I s w ->
     exists calls,
       log (fn s w).2 = log w ++ calls
       /\ served c (server w) calls (server (fn s w).2)
       /\ (fn s w).1.1 = attemptError calls
       /\ P calls
       /\ R calls (fn s w).1.2 (fn s w).2
       /\ (conflicted calls = true -> I (fn s w).1.2 (fn s w).2)) ->
  forall steps lastErr s w, I s w -> (1 <= steps)%nat ->
    exists conflicts final,
      log (OnConflict steps fn lastErr s w).2 = log w ++ concat conflicts ++ final
      /\ served c (server w) (concat conflicts ++ final)
           (server (OnConflict steps fn lastErr s w).2)
      /\ Forall (fun calls => P calls /\ conflicted calls = true) conflicts
      /\ P final
      /\ R final (OnConflict steps fn lastErr s w).1.2 (OnConflict steps fn lastErr s w).2
      /\ (OnConflict steps fn lastErr s w).1.1 = attemptError final
      /\ (length conflicts < steps)%nat
      /\ ((length conflicts + 1 < steps)%nat -> conflicted final = false).
Proof.
  intros Hfn steps. induction steps as [|steps IH]; intros lastErr s w Hs Hsteps;
    [lia|].
  cbn [OnConflict].
  destruct (Hfn s w Hs) as (calls & Hlog & Hserved & Herr & HP & HR & Hnext).
  destruct (fn s w) as [[err s'] w'] eqn:Efn. cbn [fst snd] in *.
  assert (forall result : (option error * S) * world St O,
             result = ((err, s'), w') ->
             (conflicted calls = true -> (0 + 1 < Datatypes.S steps)%nat -> False) ->
             exists conflicts final,
               log result.2 = log w ++ concat conflicts ++ final
               /\ served c (server w) (concat conflicts ++ final) (server result.2)
               /\ Forall (fun calls => P calls /\ conflicted calls = true) conflicts
               /\ P final
               /\ R final result.1.2 result.2
               /\ result.1.1 = attemptError final
               /\ (length conflicts < Datatypes.S steps)%nat
               /\ ((length conflicts + 1 < Datatypes.S steps)%nat ->
                   conflicted final = false)) as Hone.
  { intros result -> Hlast. exists [], calls. cbn [concat app length fst snd].
    split; [exact Hlog|]. split; [exact Hserved|]. split; [constructor|].
    split; [exact HP|]. split; [exact HR|]. split; [exact Herr|].
    split; [lia|]. intros Hlt.
    destruct (conflicted calls) eqn:Ec; [|reflexivity].
    exfalso. now apply Hlast. }
  destruct err as [e|].
  - destruct (IsConflict e) eqn:Econflict.
    + assert (conflicted calls = true) as Hconflicted.
      { unfold conflicted. now rewrite <- Herr. }
      destruct steps as [|steps].
      * apply Hone; [reflexivity|]. intros _ Hlt. lia.
      * destruct (IH (Some e) s' w' (Hnext Hconflicted) ltac:(lia))
          as (conflicts & final & Hlog' & Hserved' & Hall & HP' & HR' & Herr'
              & Hlen & Hfinal).
        exists (calls :: conflicts), final. cbn [concat length].
        split; [rewrite Hlog', Hlog, <- !app_assoc; reflexivity|].
        split; [rewrite <- app_assoc; now apply (served_app c _ _ (server w'))|].
        split; [constructor; [split; assumption | exact Hall]|].
        split; [exact HP'|]. split; [exact HR'|]. split; [exact Herr'|].
        split; [lia|]. intros Hlt. apply Hfinal. lia.
    + apply Hone; [reflexivity|]. intros Hc. exfalso.
      unfold conflicted in Hc. rewrite <- Herr in Hc. congruence.
  - apply Hone; [reflexivity|]. intros Hc. exfalso.
    unfold conflicted in Hc. rewrite <- Herr in Hc. discriminate.
Qed.

End RetryFacts.

Section ServiceClaims.
Import metav1 merge client network.
Context `{Classifier} {St : Type} (sclient : Interface St ServiceW).

Lemma mergeMetadata_Name desired observed s :
  Name (mergeMetadata desired observed s).1 = Name desired.
Proof.
  unfold mergeMetadata, mergeMaps.
  destruct (mergeMapsByPrefix _ _ _ s) as [labels s1].
  now destruct (mergeMapsByPrefix _ _ _ s1).
Qed.

Lemma decodeService_Spec observed s :
  svc_Spec (decodeService observed s).1 = svc_Spec observed.
Proof.
  unfold decodeService. now destruct (decodeObjectMeta _ s).
Qed.

(** One attempt, started with the desired Service as the caller gave it
    or as an earlier attempt left it. *)
Lemma serviceAttempt_trace svc captured w :
  pending svc captured ->
  exists calls,
    log (serviceAttempt sclient captured w).2 = log w ++ calls
    /\ served sclient (server w) calls (server (serviceAttempt sclient captured w).2)
    /\ (serviceAttempt sclient captured w).1.1 = attemptError calls
    /\ serviceCalls svc calls
    /\ (serviceAttempt sclient captured w).1.2.2 = attemptObject calls
    /\ (conflicted calls = true -> pending svc (serviceAttempt sclient captured w).1.2).
Proof.
  destruct captured as [svc0 ret]. intros [(Hname & Hports & Hselector) Hret].
  cbn [fst snd] in *. subst ret.
  unfold serviceAttempt, callGet, callCreate, callUpdate, withHeap. rewrite Hname.
  destruct (Get sclient (Name (svc_ObjectMeta svc)) (server w))
    as [[observed|err] st1] eqn:Eget; cbn [fst snd log heap server].
  - pose proof (decodeService_Spec observed (heap w)) as Hspec.
    destruct (decodeService observed (heap w)) as [service h1].
    cbn [fst snd log heap server] in *.
    match goal with
    | |- context [mergeMetadata ?d ?o ?s] =>
        pose proof (mergeMetadata_Name d o s) as Hn;
        destruct (mergeMetadata d o s) as [m h2]
    end.
    cbn [fst snd log heap server Name] in *.
    match goal with
    | |- context [Update sclient ?obj ?st] =>
        destruct (Update sclient obj st) as [answer st2] eqn:Eupdate;
        exists [CallGet (Name (svc_ObjectMeta svc)) (inl observed);
                CallUpdate obj answer]
    end.
    destruct answer as [updated|err]; cbn [fst snd log heap server].
    + split; [now rewrite <- app_assoc|].
      split; [cbn; rewrite Eget; cbn; rewrite Eupdate; cbn; auto|].
      split; [reflexivity|].
      split; [constructor; cbn; try congruence; repeat split; cbn; congruence|].
      split; [reflexivity|]. intros Hc. discriminate Hc.
    + split; [now rewrite <- app_assoc|].
      split; [cbn; rewrite Eget; cbn; rewrite Eupdate; cbn; auto|].
      split; [reflexivity|].
      split; [constructor; cbn; try congruence; repeat split; cbn; congruence|].
      split; [reflexivity|].
      intros _. split; [|reflexivity]. repeat split; cbn; congruence.
  - destruct (IsNotFound err) eqn:Enf; cbn [negb fst snd log heap server].
    + match goal with
      | |- context [Create sclient ?obj ?st] =>
          destruct (Create sclient obj st) as [answer st2] eqn:Ecreate;
          exists [CallGet (Name (svc_ObjectMeta svc)) (inr err);
                  CallCreate obj answer]
      end.
      destruct answer as [created|err']; cbn [fst snd log heap server].
      * split; [now rewrite <- app_assoc|].
        split; [cbn; rewrite Eget; cbn; rewrite Ecreate; cbn; auto|].
        split; [reflexivity|].
        split; [constructor; [exact Enf|]; repeat split; cbn; congruence|].
        split; [reflexivity|]. intros Hc. discriminate Hc.
      * split; [now rewrite <- app_assoc|].
        split; [cbn; rewrite Eget; cbn; rewrite Ecreate; cbn; auto|].
        split; [reflexivity|].
        split; [constructor; [exact Enf|]; repeat split; cbn; congruence|].
        split; [reflexivity|].
        intros _. split; [|reflexivity]. repeat split; cbn; congruence.
    + exists [CallGet (Name (svc_ObjectMeta svc)) (inr err)].
      split; [reflexivity|].
      split; [cbn; rewrite Eget; cbn; auto|].
      split; [reflexivity|].
      split; [now constructor|].
      split; [reflexivity|].
      intros _. split; [|reflexivity]. repeat split; cbn; congruence.
Qed.

(** The first attempt of a run that finds the Service. *)
Lemma served_found svc observed first rest st' (w : world St ServiceW) :
  serviceCalls svc first ->
  served sclient (server w) (first ++ rest) st' ->
  (Get sclient (Name (svc_ObjectMeta svc)) (server w)).1 = inl observed ->
  exists written,
    first = [CallGet (Name (svc_ObjectMeta svc)) (inl observed);
             CallUpdate written
               (Update sclient written
                  (Get sclient (Name (svc_ObjectMeta svc)) (server w)).2).1]
    /\ ClusterIP (svc_Spec written) = ClusterIP (svc_Spec observed)
    /\ ClusterIPs (svc_Spec written) = ClusterIPs (svc_Spec observed)
    /\ IPFamilies (svc_Spec written) = IPFamilies (svc_Spec observed)
    /\ IPFamilyPolicy (svc_Spec written) = IPFamilyPolicy (svc_Spec observed).
Proof.
  intros Hcalls Hserved Hget.
  destruct Hcalls as [err Hnf | err created answer Hnf Hwants
                     | observed' written answer Hwants H1 H2 H3 H4];
    cbn [app served] in Hserved.
  - destruct Hserved as [Hanswer _]. congruence.
  - destruct Hserved as [Hanswer _]. congruence.
  - destruct Hserved as (Hanswer & Hupdate & _).
    assert (observed' = observed) as -> by congruence.
    exists written. rewrite Hupdate. auto.
Qed.

(** C4.  Whatever the desired Service says, whenever an attempt of
    [CreateOrUpdateService] finds the Service, the object it writes
    carries the observed Service's [ClusterIP], [ClusterIPs],
    [IPFamilies] and [IPFamilyPolicy].  The function runs between one
    and five attempts against [sclient]: each one reads the Service by
    name and then stops on a failed read, creates the desired Service on
    "not found", or updates it with an object that has the four fields of
    the object just read.  Every attempt but the last ended on a
    conflict; the last did not, unless it was the fifth.  The calls are
    answered by the client, in this order, from the server's state at the
    start to its state at the end, and the function returns the error of
    the last call and the object its create or update was answered
    with.  In particular, when [Get sclient] finds the Service on the
    server as it is, the second request is [Update sclient] of an object
    with the four fields of the Service found. *)
Theorem CreateOrUpdateService_keeps_assigned_fields
        (svc : ServiceM) (w : world St ServiceW) :
  (exists conflicts final,
      log (CreateOrUpdateService sclient svc w).2 = log w ++ concat conflicts ++ final
      /\ served sclient (server w) (concat conflicts ++ final)
           (server (CreateOrUpdateService sclient svc w).2)
      /\ Forall (fun calls => serviceCalls svc calls /\ conflicted calls = true)
                conflicts
      /\ serviceCalls svc final
      /\ (length conflicts < 5)%nat
      /\ ((length conflicts < 4)%nat -> conflicted final = false)
      /\ (CreateOrUpdateService sclient svc w).1.1.2 = attemptError final
      /\ (CreateOrUpdateService sclient svc w).1.1.1 = attemptObject final)
  /\ (forall observed,
         (Get sclient (Name (svc_ObjectMeta svc)) (server w)).1 = inl observed ->
         exists written rest,
           log (CreateOrUpdateService sclient svc w).2
           = log w ++ CallGet (Name (svc_ObjectMeta svc)) (inl observed)
                      :: CallUpdate written
                           (Update sclient written
                              (Get sclient (Name (svc_ObjectMeta svc)) (server w)).2).1
                      :: rest
           /\ ClusterIP (svc_Spec written) = ClusterIP (svc_Spec observed)
           /\ ClusterIPs (svc_Spec written) = ClusterIPs (svc_Spec observed)
           /\ IPFamilies (svc_Spec written) = IPFamilies (svc_Spec observed)
           /\ IPFamilyPolicy (svc_Spec written) = IPFamilyPolicy (svc_Spec observed)).
Proof.
  unfold CreateOrUpdateService, RetryOnConflict.
  destruct (OnConflict_trace sclient
              (fun captured _ => pending svc captured)
              (serviceCalls svc)
              (fun calls (captured : ServiceM * option ServiceW) _ =>
                 captured.2 = attemptObject calls)
              (serviceAttempt sclient)
              (fun s w Hs => serviceAttempt_trace svc s w Hs)
              DefaultRetry_Steps None (svc, None) w)
    as (conflicts & final & Hlog & Hserved & Hall & HP & HR & Herr & Hlen & Hfinal).
  { split; [|reflexivity]. repeat split. }
  { unfold DefaultRetry_Steps. lia. }
  destruct (OnConflict DefaultRetry_Steps (serviceAttempt sclient) None (svc, None) w)
    as [[err [svc' ret]] w'].
  cbn [fst snd] in *. unfold DefaultRetry_Steps in *.
  split.
  - exists conflicts, final.
    split; [exact Hlog|]. split; [exact Hserved|]. split; [exact Hall|].
    split; [exact HP|]. split; [exact Hlen|].
    split; [intros Hlt; apply Hfinal; lia|]. split; [exact Herr | exact HR].
  - intros observed Hget.
    destruct conflicts as [|first conflicts].
    + cbn [concat app] in Hlog, Hserved.
      rewrite <- (app_nil_r final) in Hserved.
      destruct (served_found svc observed final [] _ w HP Hserved Hget)
        as (written & Hfirst & Hfields).
      exists written, []. split; [|exact Hfields].
      rewrite Hlog, Hfirst. reflexivity.
    + cbn [concat] in Hlog, Hserved. rewrite <- app_assoc in Hserved.
      inversion Hall as [|? ? [Hcalls _] _]; subst.
      destruct (served_found svc observed first _ _ w Hcalls Hserved Hget)
        as (written & Hfirst & Hfields).
      exists written, (concat conflicts ++ final). split; [|exact Hfields].
      rewrite Hlog, Hfirst, <- app_assoc. reflexivity.
Qed.

End ServiceClaims.

Section EndpointSliceClaims.
Import metav1 merge client network.
Context `{Classifier} {St : Type} (c : Interface St EndpointSliceW).

Lemma endpointSliceAttempt_nameless eps w :
  Name (eps_ObjectMeta eps) = "" ->
  endpointSliceAttempt c eps w =
    let obj := encodeEndpointSlice (heap w) eps in
    ((answerError (Create c obj (server w)).1, eps),
     mkWorld (heap w) (Create c obj (server w)).2
       (log w ++ [CallCreate obj (Create c obj (server w)).1])).
Proof.
  intros Hname. unfold endpointSliceAttempt, callCreate. rewrite Hname.
  cbn [String.eqb].
  destruct (Create c (encodeEndpointSlice (heap w) eps) (server w))
    as [[created|err] st1]; reflexivity.
Qed.

Lemma OnConflict_nameless steps lastErr eps w :
  Name (eps_ObjectMeta eps) = "" ->
  (1 <= steps)%nat ->
  let obj := encodeEndpointSlice (heap w) eps in
  let result := OnConflict steps (endpointSliceAttempt c) lastErr eps w in
  exists answers,
    (1 <= length answers <= steps)%nat
    /\ log result.2 = log w ++ (CallCreate obj <$> answers)
    /\ served c (server w) (CallCreate obj <$> answers) (server result.2)
    /\ heap result.2 = heap w
    /\ result.1.2 = eps
    /\ result.1.1 = last answers ≫= answerError
    /\ onlyConflictsBeforeLast steps answers.
Proof.
  intros Hname. revert lastErr w.
  induction steps as [|steps IH]; intros lastErr w Hsteps; [lia|].
  cbn zeta. cbn [OnConflict].
  rewrite (endpointSliceAttempt_nameless eps w Hname). cbn zeta.
  destruct (Create c (encodeEndpointSlice (heap w) eps) (server w))
    as [answer st1] eqn:Ecreate.
  cbn [fst snd log heap server].
  set (w1 := mkWorld (heap w) st1
               (log w ++ [CallCreate (encodeEndpointSlice (heap w) eps) answer])).
  assert (exists answers : list (EndpointSliceW + error),
             (1 <= length answers <= Datatypes.S steps)%nat
             /\ log w1 = log w ++ (CallCreate (encodeEndpointSlice (heap w) eps) <$> answers)
             /\ served c (server w)
                  (CallCreate (encodeEndpointSlice (heap w) eps) <$> answers) (server w1)
             /\ heap w1 = heap w
             /\ answerError answer = last answers ≫= answerError
             /\ (forall i a, (i + 1 < length answers)%nat -> answers !! i = Some a ->
                             exists err, a = inr err /\ IsConflict err = true)
             /\ last answers = Some answer) as Hone.
  { exists [answer]. cbn. rewrite Ecreate. cbn. repeat split; try lia; auto. }
  destruct answer as [created|err]; cbn [answerError].
  - destruct Hone as (answers & Hlen & Hlog & Hserved & Hheap & Herr & Hbefore & Hlast).
    exists answers. cbn [fst snd].
    split; [lia|]. split; [exact Hlog|]. split; [exact Hserved|].
    split; [exact Hheap|].
    split; [reflexivity|]. split; [exact Herr|]. split; [exact Hbefore|].
    intros _ e He. congruence.
  - destruct (IsConflict err) eqn:Econflict.
    + destruct steps as [|steps].
      * destruct Hone
          as (answers & Hlen & Hlog & Hserved & Hheap & Herr & Hbefore & Hlast).
        exists answers. cbn [OnConflict fst snd].
        split; [lia|]. split; [exact Hlog|]. split; [exact Hserved|].
        split; [exact Hheap|].
        split; [reflexivity|]. split; [exact Herr|]. split; [exact Hbefore|].
        intros Hshort. lia.
      * destruct (IH (Some err) w1 ltac:(lia))
          as (answers & Hlen & Hlog & Hserved & Hheap & Heps & Herr & Hbefore & Hlast).
        cbn zeta in *.
        exists (inr err :: answers).
        split; [cbn [length]; lia|]. split.
        { rewrite Hlog. subst w1. cbn [log heap]. rewrite <- app_assoc.
          reflexivity. }
        split.
        { rewrite fmap_cons. cbn [served]. rewrite Ecreate. cbn [fst snd].
          split; [reflexivity | exact Hserved]. }
        split; [rewrite Hheap; reflexivity|].
        split; [exact Heps|]. split.
        { rewrite Herr. destruct answers; [cbn in Hlen; lia | reflexivity]. }
        split.
        -- intros i a Hi Hlook. destruct i as [|i].
           ++ injection Hlook as <-. eauto.
           ++ apply (Hbefore i a); [cbn in Hi; lia | exact Hlook].
        -- intros Hshort e He. apply Hlast; [cbn in Hshort; lia|].
           destruct answers; [cbn in Hlen; lia | exact He].
    + destruct Hone as (answers & Hlen & Hlog & Hserved & Hheap & Herr & Hbefore & Hlast).
      exists answers. cbn [fst snd].
      split; [lia|]. split; [exact Hlog|]. split; [exact Hserved|].
      split; [exact Hheap|].
      split; [reflexivity|]. split; [exact Herr|]. split; [exact Hbefore|].
      intros _ e He. congruence.
Qed.

(** C10.  For a desired EndpointSlice with an empty name,
    [CreateOrUpdateEndpointSlice] only issues creates of the desired
    object as it stands: no read, no update, no metadata merge (the
    object and the store are left as they were).  The first request is
    the create, answered by the client [c] on the server as it is; the
    create is issued again only after a conflict, five times at most,
    each one answered by the client on the server as the one before left
    it; the function returns the outcome of the last create and leaves
    the server as that create left it.  In particular, unless
    [Create c] answers the first create with a conflict, that create is
    the only request, and its outcome and the server it leaves are what
    the function returns. *)
Theorem CreateOrUpdateEndpointSlice_nameless
        (eps : EndpointSliceM) (w : world St EndpointSliceW) :
  Name (eps_ObjectMeta eps) = "" ->
  let obj := encodeEndpointSlice (heap w) eps in
  let result := CreateOrUpdateEndpointSlice c eps w in
  (exists answers,
      (1 <= length answers <= 5)%nat
      /\ answers !! 0%nat = Some (Create c obj (server w)).1
      /\ log result.2 = log w ++ (CallCreate obj <$> answers)
      /\ served c (server w) (CallCreate obj <$> answers) (server result.2)
      /\ heap result.2 = heap w
      /\ result.1.2 = eps
      /\ result.1.1 = last answers ≫= answerError
      /\ onlyConflictsBeforeLast 5 answers)
  /\ (conflicted [CallCreate obj (Create c obj (server w)).1] = false ->
      result
      = ((answerError (Create c obj (server w)).1, eps),
         mkWorld (heap w) (Create c obj (server w)).2
           (log w ++ [CallCreate obj (Create c obj (server w)).1]))).
Proof.
  intros Hname obj result. split.
  - destruct (OnConflict_nameless DefaultRetry_Steps None eps w Hname)
      as (answers & Hlen & Hlog & Hserved & Hrest);
      [unfold DefaultRetry_Steps; lia|].
    exists answers. unfold DefaultRetry_Steps in Hlen.
    split; [exact Hlen|]. split.
    { destruct answers as [|answer answers]; [cbn in Hlen; lia|].
      rewrite fmap_cons in Hserved. cbn [served] in Hserved.
      destruct Hserved as [-> _]. reflexivity. }
    split; [exact Hlog|]. split; [exact Hserved | exact Hrest].
  - subst result obj.
    unfold CreateOrUpdateEndpointSlice, RetryOnConflict, DefaultRetry_Steps,
      conflicted, attemptError.
    cbn [OnConflict last mbind option_bind callError].
    rewrite (endpointSliceAttempt_nameless eps w Hname). cbn zeta.
    destruct (Create c (encodeEndpointSlice (heap w) eps) (server w))
      as [[created|err] st1]; cbn [fst snd answerError]; [reflexivity|].
    intros Hc. rewrite Hc. reflexivity.
Qed.

End EndpointSliceClaims.

(** ** Objects decoded into the store *)
Section DecodeFacts.
Import gostrings metav1 merge.

Lemma decodeMap_spec m s :
  let r := (decodeMap m s).1 in
  let s' := (decodeMap m s).2 in
  (forall l, is_Some (maps s !! l) -> maps s' !! l = maps s !! l)
  /\ (forall l, r = Some l -> maps s !! l = None /\ is_Some (maps s' !! l))
  /\ view s' r = default ∅ m.
Proof.
  destruct m as [m|]; simpl;
    [|split; [reflexivity | split; [discriminate | reflexivity]]].
  set (l := fresh (dom (maps s))).
  assert (maps s !! l = None) as Hfresh
      by (apply not_elem_of_dom, is_fresh).
  split; [|split].
  - intros l' [x Hx]. rewrite lookup_insert_ne; [reflexivity|]. congruence.
  - intros l' [= <-]. split; [exact Hfresh|]. rewrite lookup_insert_eq. eauto.
  - unfold contents. simpl. now rewrite lookup_insert_eq.
Qed.

Lemma decodeBool_maps b s : maps (decodeBool b s).2 = maps s.
Proof. now destruct b. Qed.

Lemma decodeOwnerReferences_maps rs s :
  maps (decodeOwnerReferences rs s).2 = maps s.
Proof.
  revert s. induction rs as [|r rs IH]; intros s; [reflexivity|].
  cbn [decodeOwnerReferences]. unfold decodeOwnerReference.
  pose proof (decodeBool_maps (ref_Controller r) s) as H1.
  destruct (decodeBool (ref_Controller r) s) as [c s1].
  pose proof (decodeBool_maps (ref_BlockOwnerDeletion r) s1) as H2.
  destruct (decodeBool (ref_BlockOwnerDeletion r) s1) as [b s2].
  specialize (IH s2). destruct (decodeOwnerReferences rs s2) as [rs' s3].
  cbn [fst snd] in *. congruence.
Qed.

(** Decoding allocates new maps: the maps of the store are untouched,
    those of the decoded object are new, distinct, and hold what was
    received. *)
Lemma decodeObjectMeta_spec m s :
  let m' := (decodeObjectMeta m s).1 in
  let s' := (decodeObjectMeta m s).2 in
  (forall l, is_Some (maps s !! l) -> maps s' !! l = maps s !! l)
  /\ (forall l, Labels m' = Some l \/ Annotations m' = Some l ->
                maps s !! l = None /\ is_Some (maps s' !! l))
  /\ view s' (Labels m') = default ∅ (Labels m)
  /\ view s' (Annotations m') = default ∅ (Annotations m)
  /\ Name m' = Name m
  /\ (forall l, Labels m' = Some l -> Annotations m' <> Some l)
  /\ ResourceVersion m' = ResourceVersion m.
Proof.
  unfold decodeObjectMeta.
  destruct (decodeMap_spec (Labels m) s) as (Hframe1 & Hnew1 & Hview1).
  destruct (decodeMap (Labels m) s) as [labels s1]. cbn [fst snd] in *.
  destruct (decodeMap_spec (Annotations m) s1) as (Hframe2 & Hnew2 & Hview2).
  destruct (decodeMap (Annotations m) s1) as [annotations s2]. cbn [fst snd] in *.
  pose proof (decodeOwnerReferences_maps (OwnerReferences m) s2) as Hmaps.
  destruct (decodeOwnerReferences (OwnerReferences m) s2) as [refs s3].
  cbn [fst snd Labels Annotations Name ResourceVersion] in *.
  assert (forall l, contents s3 l = contents s2 l) as Hc
      by (intros l; unfold contents; now rewrite Hmaps).
  split; [|split; [|split; [|split; [|split; [|split]]]]].
  - intros l Hl. rewrite Hmaps, Hframe2; [now apply Hframe1|].
    now rewrite Hframe1.
  - intros l [Hl|Hl].
    + destruct (Hnew1 l Hl) as [Hnone Hsome]. split; [exact Hnone|].
      now rewrite Hmaps, Hframe2.
    + destruct (Hnew2 l Hl) as [Hnone Hsome]. split.
      * destruct (maps s !! l) eqn:E; [|reflexivity].
        rewrite <- Hframe1 in E by eauto. congruence.
      * now rewrite Hmaps.
  - destruct labels as [l|]; [|exact Hview1]. simpl in *.
    rewrite Hc. unfold contents. rewrite Hframe2; [exact Hview1|].
    now apply Hnew1.
  - destruct annotations as [l|]; [|exact Hview2]. simpl in *.
    rewrite Hc. exact Hview2.
  - reflexivity.
  - intros l Hl Ha. destruct (Hnew1 l Hl) as [_ [x Hx]].
    destruct (Hnew2 l Ha) as [Hnone _]. congruence.
  - reflexivity.
Qed.

(** What [mergeMetadata] touches: the two maps of the observed object
    (or new ones), nothing else that exists; the merged object keeps the
    name and holds maps that exist. *)
Lemma mergeMetadata_footprint desired observed s :
  allocated s desired -> allocated s observed ->
  let merged := (mergeMetadata desired observed s).1 in
  let s' := (mergeMetadata desired observed s).2 in
  (forall l, is_Some (maps s !! l) ->
             Labels observed <> Some l -> Annotations observed <> Some l ->
             contents s' l = contents s l)
  /\ (forall l, is_Some (maps s !! l) -> is_Some (maps s' !! l))
  /\ allocated s' merged
  /\ Name merged = Name desired.
Proof.
  intros [Hdl Hda] [Hol Hoa]. unfold mergeMetadata, mergeMaps. cbn [Labels Annotations].
  destruct (mergeMapsByPrefix_spec (Labels desired) (Labels observed) "" s Hdl Hol)
    as ((l1 & Hr1 & _ & _ & Hnew1) & _ & Hframe1 & Halloc1 & _).
  destruct (mergeMapsByPrefix (Labels desired) (Labels observed) "" s)
    as [labels s1]. cbn [fst snd] in *. subst labels.
  assert (refAllocated s1 (Annotations desired)) as Hda1
      by (intros a Ha; apply Halloc1, Hda, Ha).
  assert (refAllocated s1 (Annotations observed)) as Hoa1
      by (intros a Ha; apply Halloc1, Hoa, Ha).
  destruct (mergeMapsByPrefix_spec (Annotations desired) (Annotations observed) "" s1
              Hda1 Hoa1)
    as ((l2 & Hr2 & _ & _ & Hnew2) & _ & Hframe2 & Halloc2 & _).
  destruct (mergeMapsByPrefix (Annotations desired) (Annotations observed) "" s1)
    as [annotations s2]. cbn [fst snd] in *. subst annotations.
  split; [|split; [|split]].
  - intros l Hl Hnl Hna.
    rewrite Hframe2; [now apply Hframe1 | now apply Halloc1 | exact Hna].
  - intros l Hl. now apply Halloc2, Halloc1.
  - split; intros l [= <-]; [now apply Halloc2 | exact Hnew2].
  - reflexivity.
Qed.

(** The merge as the reconcile functions perform it, on an observed
    object just decoded from the server's answer: no condition on the
    observed object is left. *)
Lemma mergeMetadata_of_decoded (s : store) (desired : ObjectMeta loc loc)
      (observed : ObjectMeta (gmap string string) bool) :
  allocated s desired ->
  let decoded := (decodeObjectMeta observed s).1 in
  let s1 := (decodeObjectMeta observed s).2 in
  let merged := (mergeMetadata desired decoded s1).1 in
  let s' := (mergeMetadata desired decoded s1).2 in
  ResourceVersion merged = ResourceVersion observed
  /\ desiredWins (view s' (Labels merged))
       (view s (Labels desired)) (default ∅ (Labels observed))
  /\ desiredWins (view s' (Annotations merged))
       (view s (Annotations desired)) (default ∅ (Annotations observed)).
Proof.
  intros [Hdl Hda]. cbn zeta.
  destruct (decodeObjectMeta_spec observed s)
    as (Hframe & Hnew & Hvl & Hva & _ & Hdistinct & Hrv).
  destruct (decodeObjectMeta observed s) as [decoded s1]. cbn [fst snd] in *.
  assert (forall r, refAllocated s r -> refAllocated s1 r /\ view s1 r = view s r)
    as Hkeep.
  { intros r Hr. split.
    - intros l Hl. rewrite Hframe; now apply Hr.
    - destruct r as [l|]; [|reflexivity]. simpl. unfold contents.
      rewrite Hframe; [reflexivity | now apply Hr]. }
  assert (allocated s1 desired) as Hd1
      by (split; [apply (Hkeep _ Hdl) | apply (Hkeep _ Hda)]).
  assert (allocated s1 decoded) as Ho1
      by (split; intros l Hl; apply Hnew; auto).
  assert (forall l, Labels decoded = Some l ->
                    Annotations decoded <> Some l /\ Annotations desired <> Some l)
    as Hsep.
  { intros l Hl. split; [now apply Hdistinct|].
    intros Ha. destruct (Hnew l (or_introl Hl)) as [Hnone _].
    destruct (Hda l Ha) as [x Hx]. congruence. }
  destruct (mergeMetadata_desired_wins_store s1 desired decoded Hd1 Ho1 Hsep)
    as (Hr & Hl & Ha).
  rewrite Hvl, (proj2 (Hkeep _ Hdl)) in Hl.
  rewrite Hva, (proj2 (Hkeep _ Hda)) in Ha.
  split; [congruence|]. split; assumption.
Qed.

End DecodeFacts.

(** ** StatefulSet and DaemonSet updates *)
Section WorkloadFacts.
Import gostrings metav1 merge client workloads.
Context `{Classifier} {St : Type} (wclient : Interface St WorkloadW).

(** X12.  An update rejected as invalid, the rejection carrying details:
    the callback, when there is one, is given the cause messages joined
    by ", "; the object is then deleted with foreground propagation and
    the outcome of the deletion is returned. *)
Lemma ForceUpdateStatefulSet_invalid sset onDeleteFunc w ErrStatus details :
  (updateStatefulSet wclient sset w).1.1 = Some (StatusError ErrStatus) ->
  status_Code ErrStatus = 422 ->
  status_Reason ErrStatus = StatusReasonInvalid ->
  status_Details ErrStatus = Some details ->
  let updated := updateStatefulSet wclient sset w in
  let reasons := Join (cause_Message <$> details_Causes details) ", " in
  let notified :=
    match onDeleteFunc with
    | Some f => f reasons updated.2
    | None => updated.2
    end in
  ForceUpdateStatefulSet wclient sset onDeleteFunc w
  = ((Returned (Delete wclient (Name (wl_ObjectMeta updated.1.2))
                  (Some DeletePropagationForeground) (server notified)).1,
      updated.1.2),
     mkWorld (heap notified)
       (Delete wclient (Name (wl_ObjectMeta updated.1.2))
          (Some DeletePropagationForeground) (server notified)).2
       (log notified
        ++ [CallDelete (Name (wl_ObjectMeta updated.1.2))
              (Some DeletePropagationForeground)
              (Delete wclient (Name (wl_ObjectMeta updated.1.2))
                 (Some DeletePropagationForeground) (server notified)).1])).
Proof.
  intros Herr Hcode Hreason Hdetails. cbn zeta.
  unfold ForceUpdateStatefulSet.
  destruct (updateStatefulSet wclient sset w) as [[err sset'] w1].
  cbn [fst snd] in *. subst err.
  rewrite Hcode, Hreason, Hdetails. cbn [Z.eqb Pos.eqb negb orb].
  change (String.eqb StatusReasonInvalid StatusReasonInvalid) with true.
  cbn [negb]. unfold callDelete.
  destruct onDeleteFunc as [f|];
    destruct (Delete wclient _ _ _) as [answer st']; reflexivity.
Qed.

(** X13.  Any other failure of the update is returned with the context
    "failed to update StatefulSet: ", and nothing is deleted: no call is
    issued after the update. *)
Lemma ForceUpdateStatefulSet_other_error sset onDeleteFunc w err :
  (updateStatefulSet wclient sset w).1.1 = Some err ->
  (forall ErrStatus,
      err = StatusError ErrStatus ->
      status_Code ErrStatus <> 422 \/ status_Reason ErrStatus <> StatusReasonInvalid) ->
  ForceUpdateStatefulSet wclient sset onDeleteFunc w
  = ((Returned (Some (Errorf_w "failed to update StatefulSet: " err)),
      (updateStatefulSet wclient sset w).1.2),
     (updateStatefulSet wclient sset w).2).
Proof.
  intros Herr Hother. unfold ForceUpdateStatefulSet.
  destruct (updateStatefulSet wclient sset w) as [[e sset'] w1].
  cbn [fst snd] in *. subst e.
  destruct err as [ErrStatus|text|context wrapped]; try reflexivity.
  destruct (Hother ErrStatus eq_refl) as [Hcode|Hreason].
  - destruct (Z.eqb_spec (status_Code ErrStatus) 422); [contradiction|].
    reflexivity.
  - destruct (String.eqb_spec (status_Reason ErrStatus) StatusReasonInvalid);
      [contradiction|].
    now rewrite orb_true_r.
Qed.

(** An update rejected as invalid without details: the function reads
    the causes through the nil pointer and panics; the object is not
    deleted. *)
Lemma ForceUpdateStatefulSet_invalid_without_details
      sset onDeleteFunc w ErrStatus :
  (updateStatefulSet wclient sset w).1.1 = Some (StatusError ErrStatus) ->
  status_Code ErrStatus = 422 ->
  status_Reason ErrStatus = StatusReasonInvalid ->
  status_Details ErrStatus = None ->
  ForceUpdateStatefulSet wclient sset onDeleteFunc w
  = ((Panicked NilPointerDereference, (updateStatefulSet wclient sset w).1.2),
     (updateStatefulSet wclient sset w).2).
Proof.
  intros Herr Hcode Hreason Hdetails. unfold ForceUpdateStatefulSet.
  destruct (updateStatefulSet wclient sset w) as [[err sset'] w1].
  cbn [fst snd] in *. subst err.
  now rewrite Hcode, Hreason, Hdetails.
Qed.

End WorkloadFacts.

(** C8 at an update rejected with status 422 and reason Invalid that
    carries no details: where the claim has the StatefulSet deleted and the
    outcome of the deletion returned, the function panics, and no delete is
    issued. *)
Theorem ForceUpdateStatefulSet_panics_without_details :
  let result :=
    @workloads.ForceUpdateStatefulSet fake.byReason _ fake.rejecting
      (fake.prometheusM None) None (fake.cluster (fake.prometheus None) None) in
  result.1.1 = Panicked NilPointerDereference
  /\ (exists written,
         client.log result.2
         = [client.CallGet "prometheus" (inl (fake.prometheus None));
            client.CallUpdate written (inr fake.rejected)])
  /\ is_Some (client.server result.2 !! "prometheus").
Proof.
  cbn zeta. split; [vm_compute; reflexivity|]. split.
  - eexists. vm_compute. reflexivity.
  - eexists. vm_compute. reflexivity.
Qed.

(** C9 at a desired StatefulSet whose pod template has no annotation map
    (nil), the live object carrying the restart marker "yesterday": the
    update succeeds and the object written has no template annotation, so
    the marker is lost.  [UpdateDaemonSet] does the same. *)
Theorem updateStatefulSet_loses_marker_on_nil_annotations :
  let existing := fake.prometheus (Some {[ fake.restartedAt := "yesterday" ]}) in
  let result :=
    @workloads.updateStatefulSet fake.byReason _ fake.workloads
      (fake.prometheusM None) (fake.cluster existing None) in
  result.1.1 = None
  /\ (exists written,
         client.log result.2
         = [client.CallGet "prometheus" (inl existing);
            client.CallUpdate written (inl written)]
         /\ metav1.Annotations
              (workloads.tpl_ObjectMeta (workloads.wl_Template written)) = None)
  /\ (fun o => metav1.Annotations
                 (workloads.tpl_ObjectMeta (workloads.wl_Template o)))
       <$> (client.server result.2 !! "prometheus")
     = Some None
  /\ @workloads.UpdateDaemonSet fake.byReason _ fake.workloads
       (fake.prometheusM None) (fake.cluster existing None)
     = result.
Proof.
  cbn zeta. split; [vm_compute; reflexivity|]. split; [|split].
  - eexists. split; vm_compute; reflexivity.
  - vm_compute. reflexivity.
  - reflexivity.
Qed.

(** The scenario of the package's test: the live object carries the restart
    marker "yesterday", the desired one proposes "now" in a map of its own;
    the object written keeps "yesterday". *)
Lemma updateStatefulSet_keeps_marker :
  let existing := fake.prometheus (Some {[ fake.restartedAt := "yesterday" ]}) in
  let result :=
    @workloads.updateStatefulSet fake.byReason _ fake.workloads
      (fake.prometheusM (Some 1%positive))
      (fake.cluster existing (Some {[ fake.restartedAt := "now" ]})) in
  result.1.1 = None
  /\ (fun o => metav1.Annotations
                 (workloads.tpl_ObjectMeta (workloads.wl_Template o)))
       <$> (client.server result.2 !! "prometheus")
     = Some (Some {[ fake.restartedAt := "yesterday" ]}).
Proof.
  cbn zeta. split; vm_compute; reflexivity.
Qed.

(** ** Propagation of kubectl annotations *)
Section KubectlFacts.
Import gostrings metav1 merge client workloads.
Context `{Classifier} {St : Type} (wclient : Interface St WorkloadW).

Lemma decodeWorkload_spec observed s :
  let existing := (decodeWorkload observed s).1 in
  let s' := (decodeWorkload observed s).2 in
  (forall l, is_Some (maps s !! l) -> maps s' !! l = maps s !! l)
  /\ (forall l, Labels (wl_ObjectMeta existing) = Some l
                \/ Annotations (wl_ObjectMeta existing) = Some l ->
                maps s !! l = None /\ is_Some (maps s' !! l))
  /\ (forall l, Annotations (tpl_ObjectMeta (wl_Template existing)) = Some l ->
                maps s !! l = None /\ is_Some (maps s' !! l)
                /\ Labels (wl_ObjectMeta existing) <> Some l
                /\ Annotations (wl_ObjectMeta existing) <> Some l)
  /\ view s' (Annotations (tpl_ObjectMeta (wl_Template existing)))
     = templateAnnotations observed.
Proof.
  unfold decodeWorkload, templateAnnotations.
  destruct (decodeObjectMeta_spec (wl_ObjectMeta observed) s)
    as (Hframe1 & Hnew1 & _ & _ & _).
  destruct (decodeObjectMeta (wl_ObjectMeta observed) s) as [m s1].
  cbn [fst snd] in *.
  destruct (decodeObjectMeta_spec (tpl_ObjectMeta (wl_Template observed)) s1)
    as (Hframe2 & Hnew2 & _ & Hview2 & _).
  destruct (decodeObjectMeta (tpl_ObjectMeta (wl_Template observed)) s1) as [t s2].
  cbn [fst snd wl_ObjectMeta wl_Template tpl_ObjectMeta] in *.
  split; [|split; [|split]].
  - intros l Hl. rewrite Hframe2; [now apply Hframe1|]. now rewrite Hframe1.
  - intros l Hl. destruct (Hnew1 l Hl) as [Hnone Hsome].
    split; [exact Hnone|]. now rewrite Hframe2.
  - intros l Hl. destruct (Hnew2 l (or_intror Hl)) as [Hnone Hsome].
    assert (forall r, (r = Labels m \/ r = Annotations m) -> r <> Some l) as Hne.
    { intros r Hr E.
      assert (Labels m = Some l \/ Annotations m = Some l) as Hl'
          by (destruct Hr; subst r; auto).
      destruct (Hnew1 l Hl') as [_ [x Hx]]. congruence. }
    split; [|split; [exact Hsome | split; apply Hne; auto]].
    destruct (maps s !! l) eqn:E; [|reflexivity].
    rewrite <- Hframe1 in E by eauto. congruence.
  - exact Hview2.
Qed.

(** One attempt: the calls it issues, as the client answers them. *)
Lemma updateAttempt_trace name proposed t sset w :
  attemptReady name proposed t sset w ->
  attemptReady name proposed t (updateAttempt wclient sset w).1.2
               (updateAttempt wclient sset w).2
  /\ exists calls,
      log (updateAttempt wclient sset w).2 = log w ++ calls
      /\ updateCalls name proposed calls
      /\ served wclient (server w) calls (server (updateAttempt wclient sset w).2)
      /\ (updateAttempt wclient sset w).1.1 = attemptError calls.
Proof.
  intros (Hname & Ht & Halloc_t & [Hdl Hda] & Hkeep).
  unfold updateAttempt, callGet, callUpdate, withHeap. rewrite Hname.
  destruct (Get wclient name (server w)) as [[observed|err] st1] eqn:Eget;
    cbn [fst snd log heap server].
  2:{ split; [repeat split; assumption|].
      exists [CallGet name (inr err)]. split; [reflexivity|].
      split; [constructor|]. split; [cbn; rewrite Eget; cbn; auto | reflexivity]. }
  destruct (decodeWorkload_spec observed (heap w))
    as (Hframe1 & Hnew1 & Htpl1 & Hview1).
  destruct (decodeWorkload observed (heap w)) as [existing h1].
  cbn [fst snd] in *.
  assert (forall l, is_Some (maps (heap w) !! l) -> is_Some (maps h1 !! l)) as Hkeep1
      by (intros l Hl; now rewrite Hframe1).
  assert (forall l, is_Some (maps (heap w) !! l) ->
                    contents h1 l = contents (heap w) l) as Hcont1
      by (intros l Hl; unfold contents; now rewrite Hframe1).
  assert (allocated h1 (wl_ObjectMeta sset)) as Hd1.
  { split; intros l Hl; apply Hkeep1; [now apply Hdl | now apply Hda]. }
  assert (allocated h1 (wl_ObjectMeta existing)) as He1.
  { split; intros l Hl; apply Hnew1; auto. }
  destruct (mergeMetadata_footprint (wl_ObjectMeta sset) (wl_ObjectMeta existing)
              h1 Hd1 He1) as (Hframe2 & Hkeep2 & Hm & Hn).
  destruct (mergeMetadata (wl_ObjectMeta sset) (wl_ObjectMeta existing) h1)
    as [m h2]. cbn [fst snd wl_Template] in *.
  assert (forall r, (r = Labels (wl_ObjectMeta existing)
                     \/ r = Annotations (wl_ObjectMeta existing)) ->
                    r <> Some t) as Hnot_t.
  { intros r Hr E.
    assert (Labels (wl_ObjectMeta existing) = Some t
            \/ Annotations (wl_ObjectMeta existing) = Some t) as Hl'
        by (destruct Hr; subst r; auto).
    destruct (Hnew1 t Hl') as [Hnone _]. destruct Halloc_t as [x Hx]. congruence. }
  assert (contents h2 t = contents (heap w) t) as Hcont_t.
  { rewrite Hframe2; [now apply Hcont1 | now apply Hkeep1 | |];
      apply Hnot_t; auto. }
  assert (view h2 (Annotations (tpl_ObjectMeta (wl_Template existing)))
          = templateAnnotations observed) as Hfrom.
  { rewrite <- Hview1.
    destruct (Annotations (tpl_ObjectMeta (wl_Template existing))) as [a|] eqn:Ea;
      [|reflexivity].
    destruct (Htpl1 a eq_refl) as (_ & Hsome & Hnl & Hna).
    simpl. now apply Hframe2. }
  unfold mergeKubectlAnnotations. rewrite Ht.
  assert (refAllocated h2 (Annotations (tpl_ObjectMeta (wl_Template existing))))
    as Hfrom_alloc.
  { intros a Ha. apply Hkeep2. now apply (Htpl1 a Ha). }
  assert (refAllocated h2 (Some t)) as Hto_alloc.
  { intros l [= <-]. now apply Hkeep2, Hkeep1. }
  destruct (mergeMapsByPrefix_spec
              (Annotations (tpl_ObjectMeta (wl_Template existing))) (Some t)
              "kubectl.kubernetes.io/" h2 Hfrom_alloc Hto_alloc)
    as ((r & Hr & Hsame & _ & _) & Hv & _ & Hkeep3 & _).
  destruct (mergeMapsByPrefix _ (Some t) "kubectl.kubernetes.io/" h2)
    as [annotations h3]. cbn [fst snd] in *.
  assert (r = t) as -> by (apply Hsame; reflexivity).
  rewrite Hr, Hfrom in Hv. simpl in Hv.
  rewrite Hcont_t in Hv.
  assert (forall k, HasPrefix k "kubectl.kubernetes.io/" = false ->
                    contents h3 t !! k = proposed !! k) as Hkeep'.
  { intros k Hk. rewrite Hv, Hk, (Hkeep k Hk).
    now destruct (templateAnnotations observed !! k). }
  assert (attemptReady name proposed t
            (mkWorkload m (wl_Selector sset) (wl_Template sset))
            (mkWorld h3 st1 (log w ++ [CallGet name (inl observed)]))) as Hready.
  { unfold attemptReady. cbn [wl_ObjectMeta wl_Template heap].
    split; [congruence|]. split; [exact Ht|].
    split; [now apply Hkeep3, Hkeep2, Hkeep1|].
    split; [|exact Hkeep'].
    destruct Hm as [Hml Hma]. split; intros l Hl; apply Hkeep3;
      [now apply Hml | now apply Hma]. }
  match goal with
  | |- context [Update wclient ?obj ?st] =>
      assert (templateAnnotations obj = contents h3 t) as Hwritten
          by (unfold templateAnnotations, encodeWorkload; cbn; now rewrite Ht);
      destruct (Update wclient obj st) as [answer st2] eqn:Eupdate
  end.
  assert (forall st : St, attemptReady name proposed t
            (mkWorkload m (wl_Selector sset) (wl_Template sset))
            (mkWorld h3 st
               ((log w ++ [CallGet name (inl observed)])
                ++ [CallUpdate
                      (encodeWorkload h3
                         (mkWorkload m (wl_Selector sset) (wl_Template sset)))
                      answer]))) as Hready'.
  { intros st. exact Hready. }
  assert (updateCalls name proposed
            [CallGet name (inl observed);
             CallUpdate
               (encodeWorkload h3
                  (mkWorkload m (wl_Selector sset) (wl_Template sset))) answer])
    as Hcalls.
  { constructor.
    - intros k v Hk Hobs. now rewrite Hwritten, Hv, Hobs, Hk.
    - intros k Hk. rewrite Hwritten. now apply Hkeep'. }
  destruct answer as [updated|err]; cbn [fst snd log server].
  - split; [apply Hready'|]. eexists. rewrite <- app_assoc.
    split; [reflexivity|]. split; [exact Hcalls|].
    split; [cbn; rewrite Eget; cbn; rewrite Eupdate; cbn; auto | reflexivity].
  - split; [apply Hready'|]. eexists. rewrite <- app_assoc.
    split; [reflexivity|]. split; [exact Hcalls|].
    split; [cbn; rewrite Eget; cbn; rewrite Eupdate; cbn; auto | reflexivity].
Qed.

Lemma updateAttempt_calls name proposed t sset w :
  attemptReady name proposed t sset w ->
  attemptReady name proposed t (updateAttempt wclient sset w).1.2
               (updateAttempt wclient sset w).2
  /\ exists calls,
      log (updateAttempt wclient sset w).2 = log w ++ calls
      /\ updateCalls name proposed calls.
Proof.
  intros Hready.
  destruct (updateAttempt_trace name proposed t sset w Hready)
    as (Hready' & calls & Hlog & Hcalls & _).
  split; [exact Hready'|]. exists calls. split; [exact Hlog | exact Hcalls].
Qed.

(** When the desired pod template has an annotation map of its own (not
    nil), every update that [updateStatefulSet] or [UpdateDaemonSet]
    issues writes the kubectl annotations of the object just read, with
    the values read. *)
Lemma update_propagates_kubectl_annotations (sset : WorkloadM)
      (w : world St WorkloadW) (t : loc) :
  Annotations (tpl_ObjectMeta (wl_Template sset)) = Some t ->
  is_Some (maps (heap w) !! t) ->
  allocated (heap w) (wl_ObjectMeta sset) ->
  exists attempts,
    log (updateStatefulSet wclient sset w).2 = log w ++ concat attempts
    /\ log (UpdateDaemonSet wclient sset w).2 = log w ++ concat attempts
    /\ Forall (updateCalls (Name (wl_ObjectMeta sset)) (contents (heap w) t)) attempts
    /\ (length attempts <= 5)%nat.
Proof.
  intros Ht Halloc Hmeta.
  destruct (OnConflict_attempts
              (attemptReady (Name (wl_ObjectMeta sset)) (contents (heap w) t) t)
              (updateCalls (Name (wl_ObjectMeta sset)) (contents (heap w) t))
              (updateAttempt wclient)
              (fun s w => updateAttempt_calls _ _ _ s w)
              DefaultRetry_Steps None sset w)
    as (_ & attempts & Hlog & HQ & Hlen).
  { repeat split; auto; apply Hmeta. }
  exists attempts. unfold updateStatefulSet, UpdateDaemonSet, RetryOnConflict.
  auto.
Qed.


End KubectlFacts.

(** ** The claims on concrete objects *)

(** C3 on the labels of the package's tests: the observed Service carries
    [app = ksm], the desired one overrides [app] and adds [label]. *)
Lemma mergeMetadata_desired_wins_witness :
  merge.allocated fake.metadataStore fake.desiredMeta
  /\ merge.allocated fake.metadataStore fake.observedMeta
  /\ (let merged := (merge.mergeMetadata fake.desiredMeta fake.observedMeta
                       fake.metadataStore).1 in
      let s' := (merge.mergeMetadata fake.desiredMeta fake.observedMeta
                   fake.metadataStore).2 in
      metav1.ResourceVersion merged = "42"
      /\ metav1.view s' (metav1.Labels merged)
         = {[ "app" := "overridden"; "label" := "value" ]}
           ∪ ({[ "app" := "ksm" ]} : gmap string string)
      /\ metav1.view s' (metav1.Annotations merged)
         = ∅ ∪ ({[ "note" := "kept" ]} : gmap string string)).
Proof.
  assert (forall r : positive,
             (r <= 4)%positive ->
             merge.refAllocated fake.metadataStore (Some r)) as Hall.
  { intros r Hr l [= <-].
    assert (r = 1 \/ r = 2 \/ r = 3 \/ r = 4)%positive as Hcases by lia.
    destruct Hcases as [-> | [-> | [-> | ->]]]; eexists; vm_compute; reflexivity. }
  assert (merge.allocated fake.metadataStore fake.desiredMeta) as Hd
      by (split; apply Hall; lia).
  assert (merge.allocated fake.metadataStore fake.observedMeta) as Ho
      by (split; apply Hall; lia).
  assert (forall l, metav1.Labels fake.observedMeta = Some l ->
                    metav1.Annotations fake.observedMeta <> Some l
                    /\ metav1.Annotations fake.desiredMeta <> Some l) as Hsep.
  { intros l [= <-]. split; discriminate. }
  split; [exact Hd|]. split; [exact Ho|].
  destruct (mergeMetadata_desired_wins fake.metadataStore fake.desiredMeta
              fake.observedMeta Hd Ho Hsep) as (Hrv & _ & _ & Hlabels & Hannotations).
  split; [exact Hrv|]. split; [exact Hlabels | exact Hannotations].
Defined.


(** C10 on the fake clientset: the first create is answered with the
    object, as the clientset answers it, and nothing else is asked. *)
Lemma CreateOrUpdateEndpointSlice_nameless_witness :
  metav1.Name (network.eps_ObjectMeta fake.nameless) = ""
  /\ (let w : client.world (gmap string network.EndpointSliceW) network.EndpointSliceW :=
        client.mkWorld fake.emptyStore ∅ [] in
      let obj := network.encodeEndpointSlice fake.emptyStore fake.nameless in
      let result :=
        @network.CreateOrUpdateEndpointSlice fake.byReason _ fake.endpointSlices
          fake.nameless w in
      (exists answers,
          (1 <= length answers <= 5)%nat
          /\ answers !! 0%nat = Some (inl obj)
          /\ client.log result.2 = client.CallCreate obj <$> answers
          /\ client.served fake.endpointSlices ∅ (client.CallCreate obj <$> answers)
               (client.server result.2)
          /\ result.1.1 = last answers ≫= client.answerError)
      /\ result
         = ((None, fake.nameless),
            client.mkWorld fake.emptyStore {[ "" := obj ]}
              [client.CallCreate obj (inl obj)])).
Proof.
  split; [reflexivity|]. cbn zeta.
  destruct (@CreateOrUpdateEndpointSlice_nameless fake.byReason _ fake.endpointSlices
              fake.nameless (client.mkWorld fake.emptyStore ∅ []) eq_refl)
    as [(answers & Hlen & Hfirst & Hlog & Hserved & _ & _ & Herr & _) Honly].
  split.
  - exists answers. split; [exact Hlen|]. split; [exact Hfirst|].
    split; [exact Hlog|]. split; [exact Hserved | exact Herr].
  - exact (Honly eq_refl).
Defined.

(** The nameless EndpointSlice on the fake clientset: on an empty server
    the create succeeds and nothing else is asked; on a server that holds
    an object under the empty name the create is refused, and the refusal
    is returned. *)
Example CreateOrUpdateEndpointSlice_nameless_runs :
  let obj := network.encodeEndpointSlice fake.emptyStore fake.nameless in
  let run server :=
    @network.CreateOrUpdateEndpointSlice fake.byReason _ fake.endpointSlices
      fake.nameless (client.mkWorld fake.emptyStore server []) in
  ((run ∅).1.1 = None
   /\ client.log (run ∅).2 = [client.CallCreate obj (inl obj)]
   /\ client.server (run ∅).2 !! "" = Some obj)
  /\ ((run {[ "" := obj ]}).1.1 = Some (fake.alreadyExists "")
      /\ client.log (run {[ "" := obj ]}).2
         = [client.CallCreate obj (inr (fake.alreadyExists ""))]).
Proof. cbn zeta. repeat split; vm_compute; reflexivity. Qed.

(** The package's test of the immutable fields, on the model: the server
    holds the Service with the four fields it assigned, the operator
    submits it with none of them and one port less.  The update succeeds;
    the caller's object, the object returned and the object the server
    holds afterwards have the four fields as they were, and the one port
    submitted. *)
Example TestCreateOrUpdateImmutableFields :
  let result :=
    @network.CreateOrUpdateService fake.byReason _ fake.services fake.modifiedSvc
      (client.mkWorld fake.emptyStore
         {[ "prometheus-operated-test" := fake.service ]} []) in
  let expected :=
    network.mkServiceSpec [network.mkServicePort "https-metrics" 10250] ∅
      "127.0.0.1" ["127.0.0.1"; "192.168.0.159"] ["IPv6"] (Some "RequireDualStack") in
  result.1.1.2 = None
  /\ network.svc_Spec result.1.2 = expected
  /\ network.svc_Spec <$> result.1.1.1 = Some expected
  /\ network.svc_Spec <$> (client.server result.2 !! "prometheus-operated-test")
     = Some expected.
Proof. cbn zeta. repeat split; vm_compute; reflexivity. Qed.

(** C4 on the package's test of the immutable fields: the read finds the
    Service, and the object the update writes has the four fields the
    server had assigned. *)
Lemma CreateOrUpdateService_keeps_assigned_fields_witness :
  let st : gmap string network.ServiceW :=
    {[ "prometheus-operated-test" := fake.service ]} in
  (client.Get fake.services "prometheus-operated-test" st).1 = inl fake.service
  /\ exists written rest,
      client.log
        (@network.CreateOrUpdateService fake.byReason _ fake.services fake.modifiedSvc
           (client.mkWorld fake.emptyStore st [])).2
      = client.CallGet "prometheus-operated-test" (inl fake.service)
          :: client.CallUpdate written (client.Update fake.services written st).1
          :: rest
      /\ network.ClusterIP (network.svc_Spec written) = "127.0.0.1"
      /\ network.ClusterIPs (network.svc_Spec written) = ["127.0.0.1"; "192.168.0.159"]
      /\ network.IPFamilies (network.svc_Spec written) = ["IPv6"]
      /\ network.IPFamilyPolicy (network.svc_Spec written) = Some "RequireDualStack".
Proof.
  cbn zeta.
  assert ((client.Get fake.services "prometheus-operated-test"
             {[ "prometheus-operated-test" := fake.service ]}).1 = inl fake.service)
    as Hget by (vm_compute; reflexivity).
  split; [exact Hget|].
  exact (proj2 (@CreateOrUpdateService_keeps_assigned_fields fake.byReason _
                  fake.services fake.modifiedSvc
                  (client.mkWorld fake.emptyStore
                     {[ "prometheus-operated-test" := fake.service ]} []))
           fake.service Hget).
Defined.

(** [mergeOwnerReferences] compares the flag pointers by address: a desired
    reference with the content of an observed one but a [Controller] flag
    of its own is appended. *)
Example mergeOwnerReferences_compares_addresses :
  let observed := metav1.mkOwnerReference "monitoring.coreos.com/v1" "Prometheus"
                    "k8s" "uid-1" (Some 1%positive) None in
  let desired := metav1.mkOwnerReference "monitoring.coreos.com/v1" "Prometheus"
                   "k8s" "uid-1" (Some 2%positive) None in
  merge.mergeOwnerReferences [observed] [desired] = [observed; desired]
  /\ merge.mergeOwnerReferences [observed] [observed] = [observed].
Proof. split; vm_compute; reflexivity. Qed.

(** ** The package's tests of the namer, run on the model *)

Example TestUniqueVolumeName_illegal_only :
  exists e, examples.unique "" "@$!!@$%!#$%!#$%!#$!#$%%$#@!#" = Returned ("", Some e).
Proof. eexists. vm_compute. reflexivity. Qed.

Example TestUniqueVolumeName_mixed_case :
  examples.unique "" "fOo^%#$bar" = Returned ("foo-bar-ee5c3c18", None).
Proof. vm_compute. reflexivity. Qed.

Example TestUniqueVolumeName_long :
  examples.unique "" (examples.repeated "a" 126)
  = Returned (examples.repeated "a" 54 +:+ "-4ed69ce2", None).
Proof. vm_compute. reflexivity. Qed.

Example TestUniqueVolumeName_prefix :
  examples.unique "with-prefix" "name" = Returned ("with-prefix-name-6c5f7b2e", None)
  /\ examples.unique "with-prefix-" "name"
     = Returned ("with-prefix-name-6c5f7b2e", None).
Proof. split; vm_compute; reflexivity. Qed.

Example TestUniqueVolumeName_prefix_long :
  examples.unique "with-prefix" (examples.repeated "a" 126)
  = Returned ("with-prefix-aaaaaaaaaaaaaaaaaaaaaaaaaaaaaaaaaaaaaaaaaa-4ed69ce2", None).
Proof. vm_compute. reflexivity. Qed.

Example TestUniqueVolumeNameCollision :
  examples.unique "" (examples.repeated "a" 63 +:+ "foo")
  <> examples.unique "" (examples.repeated "a" 63 +:+ "bar").
Proof. vm_compute. discriminate. Qed.

(** Plain truncation can end a label with a hyphen, which is refused. *)
Example DNS1123Label_truncated_hyphen :
  exists e,
    examples.label "" (examples.repeated "a" 62 +:+ "-b")
    = (examples.repeated "a" 62 +:+ "-", Some e).
Proof. eexists. vm_compute. reflexivity. Qed.

(** * Further properties of the package *)

(** ** Resource namer: what sanitization guarantees *)
Section NamerInvariants.
Import gostrings validation grammar namer.
Context `{UnicodeTables} `{Messages}.

Lemma hyphen_of_code c : isHyphen c = true -> c = "-"%char.
Proof.
  unfold isHyphen, code. intros Hc. apply Z.eqb_eq in Hc.
  rewrite <- (ascii_N_embedding c).
  replace (N_of_ascii c) with 45%N by lia. reflexivity.
Qed.

Lemma alnum_not_hyphen c : isAlnum c = true -> Ascii.eqb c "-" = false.
Proof.
  intros Hc. apply Ascii.eqb_neq. intros ->. discriminate Hc.
Qed.

Lemma label_byte_cases c :
  isLabelByte c = true -> isAlnum c = true \/ c = "-"%char.
Proof.
  unfold isLabelByte. intros Hc. apply orb_true_iff in Hc as [Hc|Hc];
    [now left | right; now apply hyphen_of_code].
Qed.

Lemma label_byte_bounds c : isLabelByte c = true -> 45 <= code c <= 122.
Proof.
  unfold isLabelByte, isAlnum, isLower, isDigit, isHyphen. intros Hc.
  repeat match goal with
         | H : _ || _ = true |- _ => apply orb_true_iff in H as [H|H]
         | H : _ && _ = true |- _ => apply andb_true_iff in H as [? ?]
         | H : (_ <=? _) = true |- _ => apply Z.leb_le in H
         | H : (_ =? _) = true |- _ => apply Z.eqb_eq in H
         end; lia.
Qed.

Lemma label_byte_not_upper c : isLabelByte c = true -> isUpper c = false.
Proof.
  intros Hc. unfold isUpper.
  destruct (label_byte_cases c Hc) as [Ha| ->]; [|reflexivity].
  unfold isAlnum, isLower, isDigit in Ha.
  repeat match goal with
         | H : _ || _ = true |- _ => apply orb_true_iff in H as [H|H]
         | H : _ && _ = true |- _ => apply andb_true_iff in H as [? ?]
         | H : (_ <=? _) = true |- _ => apply Z.leb_le in H
         end.
  - destruct (Z.leb_spec (code c) 90); [lia | apply andb_false_r].
  - destruct (Z.leb_spec 65 (code c)); [lia | reflexivity].
Qed.

(** Label bytes are ASCII and already in lower case: [strings.ToLower]
    leaves them alone, without consulting the Unicode tables. *)
Lemma ToLower_label_bytes s : all isLabelByte s = true -> ToLower s = s.
Proof.
  intros Hs. unfold ToLower.
  assert (all (fun c => code c <? 128) s = true /\ mapBytes lowerByte s = s)
    as [-> E]; [|exact E].
  induction s as [|c s IH]; [split; reflexivity|].
  simpl in Hs. apply andb_true_iff in Hs as [Hc Hs].
  destruct (IH Hs) as [Hascii Hmap]. simpl. rewrite Hascii, Hmap. split.
  - pose proof (label_byte_bounds c Hc).
    destruct (Z.ltb_spec (code c) 128); [reflexivity | lia].
  - unfold lowerByte. now rewrite (label_byte_not_upper c Hc).
Qed.

(** No byte to replace: the replacement is the identity. *)
Lemma replaceRuns_fixes_label_bytes b s :
  all isLabelByte s = true -> replaceRuns invalidDNS1123Characters "-" b s = s.
Proof.
  revert b. induction s as [|c s IH]; intros b Hs; [reflexivity|].
  simpl in Hs. apply andb_true_iff in Hs as [Hc Hs]. simpl.
  unfold invalidDNS1123Characters at 1. rewrite Hc. simpl.
  now rewrite IH.
Qed.

Lemma matchRest_tail c r : matchRest (String c r) = true -> matchRest r = true.
Proof.
  destruct r as [|c' r']; [reflexivity|]. simpl.
  intros Hm. now apply andb_true_iff in Hm as [_ Hm].
Qed.

Lemma matchRest_label_bytes s : matchRest s = true -> all isLabelByte s = true.
Proof.
  induction s as [|c s IH]; [reflexivity|]. intros Hm.
  pose proof (matchRest_tail c s Hm) as Ht. simpl.
  rewrite (IH Ht), andb_true_r.
  destruct s as [|c' s'].
  - simpl in Hm. unfold isLabelByte. now rewrite Hm.
  - simpl in Hm. now apply andb_true_iff in Hm as [Hc _].
Qed.

(** [strings.TrimRight(s, "-")] leaves a text that is empty or ends with
    a letter or a digit, when [s] holds label bytes only. *)
Lemma TrimRight_matchRest s :
  all isLabelByte s = true -> matchRest (TrimRight s "-") = true.
Proof.
  induction s as [|c s IH]; [reflexivity|]. intros Hs.
  simpl in Hs. apply andb_true_iff in Hs as [Hc Hs]. specialize (IH Hs).
  simpl. destruct (TrimRight s "-") as [|c' r'].
  - destruct (Ascii.eqb_spec c "-") as [->|Hne]; [reflexivity|].
    simpl. destruct (label_byte_cases c Hc); [assumption | contradiction].
  - change (isLabelByte c && matchRest (String c' r') = true).
    now rewrite Hc, IH.
Qed.

Lemma TrimLeft_matchRest s :
  matchRest s = true -> matchRest (TrimLeft s "-") = true.
Proof.
  induction s as [|c s IH]; [reflexivity|]. intros Hm. simpl.
  destruct (Ascii.eqb c "-"); [|exact Hm].
  apply IH. exact (matchRest_tail c s Hm).
Qed.

Lemma TrimRight_fixes s : matchRest s = true -> TrimRight s "-" = s.
Proof.
  induction s as [|c s IH]; [reflexivity|]. intros Hm.
  pose proof (matchRest_tail c s Hm) as Ht. simpl. rewrite (IH Ht).
  destruct s as [|c' s']; [|reflexivity].
  simpl in Hm. now rewrite (alnum_not_hyphen c Hm).
Qed.

Lemma sanitizedLabel_matchRest rn name :
  matchRest (sanitizedLabel rn name) = true.
Proof.
  unfold sanitizedLabel, Trim, ReplaceAllString.
  apply TrimLeft_matchRest, TrimRight_matchRest, replaceRuns_label_bytes.
Qed.

Lemma sanitizedLabel_MatchString rn name c r :
  sanitizedLabel rn name = String c r ->
  isAlnum c = true /\ matchRest r = true.
Proof.
  intros E. split; [exact (sanitizedLabel_head rn name c r E)|].
  pose proof (sanitizedLabel_matchRest rn name) as Hm. rewrite E in Hm.
  exact (matchRest_tail c r Hm).
Qed.

(** A text in the label language, of any length, is left as it is by the
    namer without prefix. *)
Lemma sanitizedLabel_fixes s :
  s = "" \/ dns1123LabelRegexp_MatchString s = true ->
  sanitizedLabel (NewResourceNamerWithPrefix "") s = s.
Proof.
  intros Hs. unfold sanitizedLabel, Trim, ReplaceAllString. cbn [prefix].
  change (negb (String.eqb "" "")) with false. cbv iota.
  destruct Hs as [->|Hm].
  { unfold ToLower. reflexivity. }
  destruct s as [|c r]; [discriminate|]. simpl in Hm.
  apply andb_true_iff in Hm as [Hc Hr].
  assert (all isLabelByte (String c r) = true) as Hall.
  { simpl. rewrite (matchRest_label_bytes r Hr), andb_true_r.
    unfold isLabelByte. now rewrite Hc. }
  rewrite (ToLower_label_bytes _ Hall), (replaceRuns_fixes_label_bytes _ _ Hall).
  assert (matchRest (String c r) = true) as Hm.
  { destruct r as [|c' r']; [exact Hc|].
    change (isLabelByte c && matchRest (String c' r') = true).
    unfold isLabelByte. now rewrite Hc, Hr. }
  rewrite (TrimRight_fixes _ Hm). simpl.
  now rewrite (alnum_not_hyphen c Hc).
Qed.

Lemma slice_to_short s n : (String.length s <= n)%nat -> slice_to s n = s.
Proof.
  unfold slice_to. revert n. induction s as [|c s IH]; intros n Hn.
  - now destruct n.
  - destruct n as [|n]; [simpl in Hn; lia|]. simpl.
    rewrite IH; [reflexivity | simpl in Hn; lia].
Qed.

Lemma get_beyond s n : (String.length s <= n)%nat -> String.get n s = None.
Proof.
  revert n. induction s as [|c s IH]; intros n Hn; [reflexivity|].
  destruct n as [|n]; [simpl in Hn; lia|]. simpl. apply IH. simpl in Hn. lia.
Qed.

(** Cutting a text of label bytes after its byte [n] leaves a text that
    ends well exactly when that byte is no hyphen. *)
Lemma matchRest_slice s n :
  all isLabelByte s = true -> (n < String.length s)%nat ->
  matchRest (slice_to s (S n)) = true <-> String.get n s <> Some "-"%char.
Proof.
  revert n. induction s as [|c s IH]; intros n Hs Hn; [simpl in Hn; lia|].
  simpl in Hs. apply andb_true_iff in Hs as [Hc Hs].
  rewrite slice_to_head. destruct n as [|n].
  - assert (slice_to s 0 = "") as -> by (unfold slice_to; now destruct s).
    simpl. split.
    + intros Ha [= ->]. discriminate Ha.
    + intros Hne. destruct (label_byte_cases c Hc) as [Ha| ->];
        [exact Ha | now contradiction Hne].
  - simpl in Hn. assert (n < String.length s)%nat as Hn' by lia.
    specialize (IH n Hs Hn').
    change (String.get (S n) (String c s)) with (String.get n s).
    rewrite <- IH. destruct s as [|c' s']; [simpl in Hn'; lia|].
    rewrite slice_to_head.
    change (matchRest (String c (String c' (slice_to s' n))))
      with (isLabelByte c && matchRest (String c' (slice_to s' n))).
    rewrite Hc. reflexivity.
Qed.

(** X1.  Sanitization always leaves nothing or a text of the label
    language [[a-z0-9]([-a-z0-9]*[a-z0-9])?], whatever the name and the
    prefix: only its length can be against it.  Sanitizing it again
    (without prefix) changes nothing. *)
Theorem sanitizedLabel_grammatical rn name :
  (sanitizedLabel rn name = "" \/ matches dns1123LabelFmt (sanitizedLabel rn name))
  /\ sanitizedLabel (NewResourceNamerWithPrefix "") (sanitizedLabel rn name)
     = sanitizedLabel rn name.
Proof.
  assert (sanitizedLabel rn name = ""
          \/ dns1123LabelRegexp_MatchString (sanitizedLabel rn name) = true) as Hs.
  { destruct (sanitizedLabel rn name) as [|c r] eqn:E; [now left|]. right.
    destruct (sanitizedLabel_MatchString rn name c r E) as [Hc Hr].
    simpl. now rewrite Hc, Hr. }
  split; [|now apply sanitizedLabel_fixes].
  destruct Hs as [Hs|Hs]; [now left | right; now apply MatchString_grammar].
Qed.

(** X2.  [DNS1123Label] without prefix returns every legal label as it
    is, without error. *)
Theorem DNS1123Label_keeps_legal_labels name :
  legalLabel name ->
  DNS1123Label (NewResourceNamerWithPrefix "") name = (name, None).
Proof.
  intros Hlegal. pose proof Hlegal as [Hm Hlen].
  apply MatchString_grammar in Hm.
  unfold DNS1123Label. rewrite (sanitizedLabel_fixes name (or_intror Hm)).
  destruct (Nat.ltb_spec DNS1123LabelMaxLength (String.length name)); [lia|].
  now rewrite (proj2 (isValidDNS1123Label_None name) Hlegal).
Qed.

(** X3.  [DNS1123Label] returns the first 63 bytes of the sanitized
    name, with or without an error; the error is nil exactly when the
    sanitized name is not empty and its 63rd byte, if it has one, is not
    a hyphen (the cut would leave a label that ends with a hyphen). *)
Theorem DNS1123Label_fails_iff rn name :
  (DNS1123Label rn name).1 = slice_to (sanitizedLabel rn name) 63
  /\ ((DNS1123Label rn name).2 = None
      <-> sanitizedLabel rn name <> ""
          /\ String.get 62 (sanitizedLabel rn name) <> Some "-"%char).
Proof.
  unfold DNS1123Label. cbn [fst snd]. unfold DNS1123LabelMaxLength.
  assert ((if (63 <? String.length (sanitizedLabel rn name))%nat
           then slice_to (sanitizedLabel rn name) 63 else sanitizedLabel rn name)
          = slice_to (sanitizedLabel rn name) 63) as ->.
  { destruct (Nat.ltb_spec 63 (String.length (sanitizedLabel rn name)));
      [reflexivity | now rewrite slice_to_short]. }
  split; [reflexivity|].
  rewrite isValidDNS1123Label_None. unfold legalLabel.
  rewrite <- MatchString_grammar, slice_to_length.
  destruct (sanitizedLabel rn name) as [|c r] eqn:E.
  { split; [intros [Hm _]; discriminate Hm | intros [Hne _]; now contradiction Hne]. }
  destruct (sanitizedLabel_MatchString rn name c r E) as [Hc Hr].
  pose proof (matchRest_label_bytes r Hr) as Hall.
  change 63%nat with (S 62) at 1. rewrite slice_to_head.
  change (String.get 62 (String c r)) with (String.get 61 r).
  change (dns1123LabelRegexp_MatchString (String c (slice_to r 62)))
    with (isAlnum c && matchRest (slice_to r 62)).
  rewrite Hc. cbn [andb].
  destruct (Nat.lt_ge_cases 61 (String.length r)) as [Hlong|Hshort].
  - rewrite (matchRest_slice r 61 Hall Hlong).
    split; [intros [Hg _]; split; [discriminate | exact Hg]
           | intros [_ Hg]; split; [exact Hg | unfold DNS1123LabelMaxLength; lia]].
  - rewrite slice_to_short by lia. rewrite (get_beyond r 61 Hshort).
    split; [intros _; split; discriminate
           | intros _; split; [exact Hr | unfold DNS1123LabelMaxLength; lia]].
Qed.

Lemma append_suffix_inj a1 a2 b1 b2 :
  a1 +:+ b1 = a2 +:+ b2 -> String.length b1 = String.length b2 -> b1 = b2.
Proof.
  revert a2. induction a1 as [|c a1 IH]; intros [|d a2] E Hlen.
  - exact E.
  - exfalso. apply (f_equal String.length) in E.
    change (String.length b1 = S (String.length (a2 +:+ b2))) in E.
    rewrite length_app in E. lia.
  - exfalso. apply (f_equal String.length) in E.
    change (S (String.length (a1 +:+ b1)) = String.length b2) in E.
    rewrite length_app in E. lia.
  - change (String c (a1 +:+ b1) = String d (a2 +:+ b2)) in E.
    injection E as _ E. exact (IH a2 E Hlen).
Qed.

(** A label returned without error is the cut name followed by the nine
    bytes of the hash suffix. *)
Lemma UniqueDNS1123Label_suffix rn name label :
  UniqueDNS1123Label rn name = Returned (label, None) ->
  exists cut,
    label = cut +:+ ("-" +:+ slice_to (FormatHex (xxhash.Sum64 name)) 8)
    /\ String.length (slice_to (FormatHex (xxhash.Sum64 name)) 8) = 8%nat.
Proof.
  unfold UniqueDNS1123Label.
  destruct (Nat.ltb_spec (String.length ("-" +:+ FormatHex (xxhash.Sum64 name))) 9)
    as [|Hlen]; [discriminate|].
  rewrite suffix_slice.
  destruct (IsDNS1123Label _); [|discriminate].
  intros [= <- _]. eexists. split; [reflexivity|].
  rewrite slice_to_length.
  change (9 <= S (String.length (FormatHex (xxhash.Sum64 name))))%nat in Hlen.
  lia.
Qed.

(** X4.  Two names whose hashes differ in their first eight hexadecimal
    digits never get the same unique label, whatever the prefixes and
    however the names are cut. *)
Theorem UniqueDNS1123Label_distinct rn1 rn2 name1 name2 label1 label2 :
  UniqueDNS1123Label rn1 name1 = Returned (label1, None) ->
  UniqueDNS1123Label rn2 name2 = Returned (label2, None) ->
  slice_to (FormatHex (xxhash.Sum64 name1)) 8
  <> slice_to (FormatHex (xxhash.Sum64 name2)) 8 ->
  label1 <> label2.
Proof.
  intros H1 H2 Hdiff E.
  destruct (UniqueDNS1123Label_suffix _ _ _ H1) as (cut1 & -> & Hlen1).
  destruct (UniqueDNS1123Label_suffix _ _ _ H2) as (cut2 & -> & Hlen2).
  apply append_suffix_inj in E.
  - change (String "-" (slice_to (FormatHex (xxhash.Sum64 name1)) 8)
            = String "-" (slice_to (FormatHex (xxhash.Sum64 name2)) 8)) in E.
    injection E as E. contradiction.
  - change (S (String.length (slice_to (FormatHex (xxhash.Sum64 name1)) 8))
            = S (String.length (slice_to (FormatHex (xxhash.Sum64 name2)) 8))).
    now rewrite Hlen1, Hlen2.
Qed.

End NamerInvariants.

(** X2 at the label "prometheus-k8s-0". *)
Lemma DNS1123Label_keeps_legal_labels_witness :
  grammar.legalLabel "prometheus-k8s-0"
  /\ examples.label "" "prometheus-k8s-0" = ("prometheus-k8s-0", None).
Proof.
  assert (grammar.legalLabel "prometheus-k8s-0") as Hlegal.
  { split; [|vm_compute; lia].
    apply MatchString_grammar. reflexivity. }
  split; [exact Hlegal|].
  exact (@DNS1123Label_keeps_legal_labels examples.asciiOnly examples.messages
           "prometheus-k8s-0" Hlegal).
Defined.

(** X4 on the two names of the package's collision test, 63 times "a"
    followed by "foo" and by "bar": both are cut to 54 times "a". *)
Lemma UniqueDNS1123Label_distinct_witness :
  let foo := examples.repeated "a" 63 +:+ "foo" in
  let bar := examples.repeated "a" 63 +:+ "bar" in
  exists label1 label2,
    examples.unique "" foo = Returned (label1, None)
    /\ examples.unique "" bar = Returned (label2, None)
    /\ gostrings.slice_to label1 54 = gostrings.slice_to label2 54
    /\ label1 <> label2.
Proof.
  intros foo bar.
  eexists. eexists.
  split; [vm_compute; reflexivity|]. split; [vm_compute; reflexivity|].
  split; [vm_compute; reflexivity|].
  apply (@UniqueDNS1123Label_distinct examples.asciiOnly examples.messages
           (namer.NewResourceNamerWithPrefix "") (namer.NewResourceNamerWithPrefix "")
           foo bar).
  - vm_compute. reflexivity.
  - vm_compute. reflexivity.
  - vm_compute. discriminate.
Defined.

(** ** The store under decoding and merging *)
Section StoreFacts.
Import gostrings metav1 merge protocol.

Lemma keeps_refl s : keeps s s.
Proof. split; reflexivity. Qed.

Lemma keeps_trans s1 s2 s3 : keeps s1 s2 -> keeps s2 s3 -> keeps s1 s3.
Proof.
  intros [Hm12 Hb12] [Hm23 Hb23]. split; intros l Hl.
  - rewrite Hm23; [now apply Hm12 | now rewrite Hm12].
  - rewrite Hb23; [now apply Hb12 | now rewrite Hb12].
Qed.

Lemma keeps_contents s s' l :
  keeps s s' -> is_Some (maps s !! l) -> contents s' l = contents s l.
Proof. intros [Hm _] Hl. unfold contents. now rewrite Hm. Qed.

Lemma keeps_view s s' r : keeps s s' -> refAllocated s r -> view s' r = view s r.
Proof.
  intros Hk Hr. destruct r as [l|]; [|reflexivity].
  simpl. apply keeps_contents; [exact Hk | now apply Hr].
Qed.

Lemma keeps_allocated s s' m : keeps s s' -> allocated s m -> allocated s' m.
Proof.
  intros [Hm _] [Hl Ha].
  split; intros l E; (rewrite Hm; [|]); auto.
Qed.

Lemma decodeMap_keeps m s :
  let r := (decodeMap m s).1 in
  let s' := (decodeMap m s).2 in
  keeps s s'
  /\ (forall l, r = Some l -> maps s !! l = None /\ is_Some (maps s' !! l))
  /\ (forall s'', (forall l, r = Some l -> maps s'' !! l = maps s' !! l) ->
                  contents s'' <$> r = m).
Proof.
  destruct m as [m|]; simpl.
  2:{ split; [apply keeps_refl|]. split; [discriminate | reflexivity]. }
  set (l := fresh (dom (maps s))).
  assert (maps s !! l = None) as Hfresh by (apply not_elem_of_dom, is_fresh).
  split; [|split].
  - split; [|reflexivity]. intros l' [x Hx]. simpl.
    rewrite lookup_insert_ne; [reflexivity | congruence].
  - intros l' [= <-]. split; [exact Hfresh|]. rewrite lookup_insert_eq. eauto.
  - intros s'' Hs''. f_equal. unfold contents.
    now rewrite (Hs'' l eq_refl), lookup_insert_eq.
Qed.

Lemma decodeBool_keeps b s :
  let r := (decodeBool b s).1 in
  let s' := (decodeBool b s).2 in
  keeps s s'
  /\ (forall l, r = Some l -> is_Some (bools s' !! l))
  /\ (forall s'', (forall l, is_Some (bools s' !! l) -> bools s'' !! l = bools s' !! l) ->
                  (fun l => default false (bools s'' !! l)) <$> r = b).
Proof.
  destruct b as [b|]; simpl.
  2:{ split; [apply keeps_refl|]. split; [discriminate | reflexivity]. }
  set (l := fresh (dom (bools s))).
  assert (bools s !! l = None) as Hfresh by (apply not_elem_of_dom, is_fresh).
  split; [|split].
  - split; [reflexivity|]. intros l' [x Hx]. simpl.
    rewrite lookup_insert_ne; [reflexivity | congruence].
  - intros l' [= <-]. rewrite lookup_insert_eq. eauto.
  - intros s'' Hs''. f_equal.
    rewrite Hs''; rewrite lookup_insert_eq; [reflexivity | eauto].
Qed.

Lemma decodeOwnerReferences_keeps rs s :
  let rs' := (decodeOwnerReferences rs s).1 in
  let s' := (decodeOwnerReferences rs s).2 in
  keeps s s'
  /\ flagsAllocated s' rs'
  /\ (forall s'', (forall l, is_Some (bools s' !! l) -> bools s'' !! l = bools s' !! l) ->
                  encodeOwnerReference s'' <$> rs' = rs).
Proof.
  revert s. induction rs as [|r rs IH]; intros s.
  { simpl. split; [apply keeps_refl|]. split; [|reflexivity].
    intros r l Hr. inversion Hr. }
  cbn [decodeOwnerReferences]. unfold decodeOwnerReference.
  destruct (decodeBool_keeps (ref_Controller r) s) as (Hk1 & Ha1 & Hr1).
  destruct (decodeBool (ref_Controller r) s) as [c s1]. cbn [fst snd] in *.
  destruct (decodeBool_keeps (ref_BlockOwnerDeletion r) s1) as (Hk2 & Ha2 & Hr2).
  destruct (decodeBool (ref_BlockOwnerDeletion r) s1) as [b s2]. cbn [fst snd] in *.
  destruct (IH s2) as (Hk3 & Ha3 & Hr3).
  destruct (decodeOwnerReferences rs s2) as [rs' s3]. cbn [fst snd] in *.
  assert (keeps s1 s3) as Hk13 by (eapply keeps_trans; eassumption).
  split; [eapply keeps_trans; eassumption|]. split.
  - intros r' l Hin Hl. apply elem_of_cons in Hin as [->|Hin];
      [|now apply (Ha3 r' l Hin)].
    cbn [ref_Controller ref_BlockOwnerDeletion] in Hl. destruct Hl as [Hl|Hl].
    + rewrite (proj2 Hk13); now apply Ha1.
    + rewrite (proj2 Hk3); now apply Ha2.
  - intros s'' Hs''. rewrite fmap_cons, (Hr3 s'' Hs''). f_equal.
    unfold encodeOwnerReference.
    cbn [ref_APIVersion ref_Kind ref_Name ref_UID ref_Controller
         ref_BlockOwnerDeletion].
    rewrite Hr2; [|intros l Hl; rewrite Hs''; [apply Hk3, Hl|];
                   now rewrite (proj2 Hk3)].
    rewrite Hr1; [|intros l Hl; rewrite Hs''; [apply Hk13, Hl|];
                   now rewrite (proj2 Hk13)].
    now destruct r.
Qed.

(** Decoding what the server sent and encoding it again, in the store
    as decoding left it or in any store that has kept the decoded maps
    and the flags, gives what the server sent. *)
Lemma decodeObjectMeta_roundtrip observed s :
  let m := (decodeObjectMeta observed s).1 in
  let s' := (decodeObjectMeta observed s).2 in
  keeps s s'
  /\ allocated s' m
  /\ (forall l, Labels m = Some l \/ Annotations m = Some l -> maps s !! l = None)
  /\ flagsAllocated s' (OwnerReferences m)
  /\ (forall s'',
         (forall l, Labels m = Some l \/ Annotations m = Some l ->
                    maps s'' !! l = maps s' !! l) ->
         (forall l, is_Some (bools s' !! l) -> bools s'' !! l = bools s' !! l) ->
         encodeObjectMeta s'' m = observed).
Proof.
  unfold decodeObjectMeta.
  destruct (decodeMap_keeps (Labels observed) s) as (Hk1 & Hn1 & Hr1).
  destruct (decodeMap (Labels observed) s) as [labels s1]. cbn [fst snd] in *.
  destruct (decodeMap_keeps (Annotations observed) s1) as (Hk2 & Hn2 & Hr2).
  destruct (decodeMap (Annotations observed) s1) as [annotations s2].
  cbn [fst snd] in *.
  destruct (decodeOwnerReferences_keeps (OwnerReferences observed) s2)
    as (Hk3 & Ha3 & Hr3).
  destruct (decodeOwnerReferences (OwnerReferences observed) s2) as [refs s3].
  cbn [fst snd Labels Annotations OwnerReferences] in *.
  assert (keeps s1 s3) as Hk13 by (eapply keeps_trans; eassumption).
  split; [eapply keeps_trans; eassumption|].
  split; [|split; [|split; [exact Ha3|]]].
  - split; intros l [= ->].
    + rewrite (proj1 Hk13); now apply Hn1.
    + rewrite (proj1 Hk3); now apply Hn2.
  - intros l [-> | ->].
    + now apply Hn1.
    + destruct (Hn2 l eq_refl) as [Hnone _].
      destruct (maps s !! l) eqn:E; [|reflexivity].
      rewrite <- (proj1 Hk1) in E by eauto. congruence.
  - intros s'' Hmaps Hbools. unfold encodeObjectMeta.
    cbn [Name Namespace ResourceVersion Labels Annotations OwnerReferences].
    rewrite (Hr3 s'' Hbools).
    rewrite Hr2; [|intros l ->; rewrite Hmaps; [|now right];
                   apply (proj1 Hk3); now apply Hn2].
    rewrite Hr1; [|intros l ->; rewrite Hmaps; [|now left];
                   apply (proj1 Hk13); now apply Hn1].
    now destruct observed.
Qed.

(** Encoding reads the object's own maps and flags only. *)
Lemma encodeObjectMeta_stable s s' m :
  (forall l, Labels m = Some l \/ Annotations m = Some l ->
             maps s' !! l = maps s !! l) ->
  flagsAllocated s (OwnerReferences m) ->
  (forall l, is_Some (bools s !! l) -> bools s' !! l = bools s !! l) ->
  encodeObjectMeta s' m = encodeObjectMeta s m.
Proof.
  intros Hmaps Hflags Hbools. unfold encodeObjectMeta. f_equal.
  - destruct (Labels m) as [l|] eqn:E; [|reflexivity]. simpl. f_equal.
    unfold contents. now rewrite Hmaps by auto.
  - destruct (Annotations m) as [l|] eqn:E; [|reflexivity]. simpl. f_equal.
    unfold contents. now rewrite Hmaps by auto.
  - apply list_fmap_ext. intros i r Hr.
    apply list_elem_of_lookup_2 in Hr.
    unfold encodeOwnerReference. f_equal.
    + destruct (ref_Controller r) as [l|] eqn:E; [|reflexivity]. simpl.
      now rewrite Hbools by (apply (Hflags r l Hr); auto).
    + destruct (ref_BlockOwnerDeletion r) as [l|] eqn:E; [|reflexivity]. simpl.
      now rewrite Hbools by (apply (Hflags r l Hr); auto).
Qed.

Lemma mergeMetadata_bools desired observed s :
  bools (mergeMetadata desired observed s).2 = bools s.
Proof.
  unfold mergeMetadata, mergeMaps, mergeMapsByPrefix.
  assert (forall from to s0, bools (copyByPrefix from to "" s0) = bools s0) as Hcopy.
  { intros from to s0. unfold copyByPrefix.
    apply (map_fold_weak_ind (fun r _ => bools r = bools s0)); [reflexivity|].
    intros k v m r _ IH. now destruct (HasPrefix k ""). }
  cbn [Labels Annotations].
  destruct (Labels observed), (Labels desired),
           (Annotations observed), (Annotations desired);
    cbn [fst snd make]; rewrite ?Hcopy; cbn [bools]; rewrite ?Hcopy;
    reflexivity.
Qed.

Lemma encoded_view s (r : option loc) :
  default ∅ (contents s <$> r) = view s r.
Proof. now destruct r. Qed.

(** The merge as the reconcile functions perform it, on the object just
    decoded from the server's answer: what the merged object reads as,
    and what is left untouched. *)
Lemma merge_decoded (s : store) (desired : ObjectMeta loc loc)
      (observed : ObjectMetaW) :
  allocated s desired ->
  let decoded := (decodeObjectMeta observed s).1 in
  let s1 := (decodeObjectMeta observed s).2 in
  let merged := (mergeMetadata desired decoded s1).1 in
  let s2 := (mergeMetadata desired decoded s1).2 in
  Name merged = Name desired
  /\ ResourceVersion merged = ResourceVersion observed
  /\ view s2 (Labels merged)
     = view s (Labels desired) ∪ default ∅ (Labels observed)
  /\ view s2 (Annotations merged)
     = view s (Annotations desired) ∪ default ∅ (Annotations observed)
  /\ allocated s2 merged
  /\ keeps s s2.
Proof.
  intros Hd. cbn zeta.
  destruct (mergeMetadata_of_decoded s desired observed Hd) as (Hrv & Hl & Ha).
  destruct (decodeObjectMeta_roundtrip observed s) as (Hk1 & Ho1 & Hfresh & _ & _).
  pose proof (mergeMetadata_bools desired (decodeObjectMeta observed s).1
                (decodeObjectMeta observed s).2) as Hbools.
  destruct (decodeObjectMeta observed s) as [decoded s1]. cbn [fst snd] in *.
  pose proof (keeps_allocated _ _ _ Hk1 Hd) as Hd1.
  destruct (mergeMetadata_footprint desired decoded s1 Hd1 Ho1)
    as (Hframe & Hkeep & Hm & Hn).
  destruct (mergeMetadata desired decoded s1) as [merged s2]. cbn [fst snd] in *.
  split; [exact Hn|]. split; [exact Hrv|].
  split; [now apply desiredWins_union|]. split; [now apply desiredWins_union|].
  split; [exact Hm|]. split.
  - intros l Hl0.
    assert (is_Some (maps s1 !! l)) as Hl1 by (rewrite (proj1 Hk1); auto).
    assert (contents s2 l = contents s1 l) as Hc.
    { apply Hframe; [exact Hl1 | |]; intros E; destruct Hl0 as [x Hx];
        [rewrite (Hfresh l (or_introl E)) in Hx
        |rewrite (Hfresh l (or_intror E)) in Hx]; discriminate. }
    destruct (Hkeep l Hl1) as [x2 Hx2]. destruct Hl1 as [x1 Hx1].
    unfold contents in Hc. rewrite Hx2, Hx1 in Hc. simpl in Hc.
    rewrite <- (proj1 Hk1) by exact Hl0. congruence.
  - intros l Hl0. rewrite Hbools. now apply (proj2 Hk1).
Qed.

End StoreFacts.
(** ** Owner references: identity by address *)
Section OwnerFacts.
Import metav1 merge protocol.

Lemma decodeBool_fresh b s l :
  (decodeBool b s).1 = Some l -> bools s !! l = None.
Proof.
  destruct b as [b|]; simpl; [|discriminate].
  intros [= <-]. apply not_elem_of_dom, is_fresh.
Qed.

(** A decoded reference points to flags that did not exist before the
    decoding. *)
Lemma decodeOwnerReferences_fresh rs s r l :
  r ∈ (decodeOwnerReferences rs s).1 ->
  ref_Controller r = Some l \/ ref_BlockOwnerDeletion r = Some l ->
  bools s !! l = None.
Proof.
  revert s. induction rs as [|r0 rs IH]; intros s Hin Hl.
  { inversion Hin. }
  cbn [decodeOwnerReferences] in Hin. unfold decodeOwnerReference in Hin.
  pose proof (decodeBool_fresh (ref_Controller r0) s) as Hf1.
  destruct (decodeBool_keeps (ref_Controller r0) s) as (Hk1 & _ & _).
  destruct (decodeBool (ref_Controller r0) s) as [c s1]. cbn [fst snd] in *.
  pose proof (decodeBool_fresh (ref_BlockOwnerDeletion r0) s1) as Hf2.
  destruct (decodeBool_keeps (ref_BlockOwnerDeletion r0) s1) as (Hk2 & _ & _).
  destruct (decodeBool (ref_BlockOwnerDeletion r0) s1) as [b s2]. cbn [fst snd] in *.
  specialize (IH s2).
  destruct (decodeOwnerReferences rs s2) as [rs' s3]. cbn [fst snd] in *.
  assert (forall l', bools s1 !! l' = None -> bools s !! l' = None) as Hback1.
  { intros l' Hnone. destruct (bools s !! l') eqn:E; [|reflexivity].
    rewrite <- (proj2 Hk1) in E by eauto. congruence. }
  assert (forall l', bools s2 !! l' = None -> bools s1 !! l' = None) as Hback2.
  { intros l' Hnone. destruct (bools s1 !! l') eqn:E; [|reflexivity].
    rewrite <- (proj2 Hk2) in E by eauto. congruence. }
  apply elem_of_cons in Hin as [->|Hin].
  - cbn [ref_Controller ref_BlockOwnerDeletion] in Hl. destruct Hl as [Hl|Hl].
    + now apply Hf1.
    + apply Hback1. now apply Hf2.
  - apply Hback1, Hback2. now apply IH.
Qed.

(** X14.  A desired reference that has a flag is equal to no reference
    decoded from the server's answer, whatever its content: it is
    appended. *)
Lemma mergeOwnerReferences_appends_flagged s observed desired l :
  ref_Controller desired = Some l \/ ref_BlockOwnerDeletion desired = Some l ->
  is_Some (bools s !! l) ->
  mergeOwnerReferences (decodeOwnerReferences observed s).1 [desired]
  = (decodeOwnerReferences observed s).1 ++ [desired].
Proof.
  intros Hl [x Hx].
  destruct (mergeOwnerReferences_appends_missing
              (decodeOwnerReferences observed s).1 [desired]) as [-> _].
  f_equal. rewrite filter_cons, filter_nil.
  destruct (decide (desired ∉ (decodeOwnerReferences observed s).1)) as [_|Hin];
    [reflexivity|].
  apply dec_stable in Hin.
  rewrite (decodeOwnerReferences_fresh observed s desired l Hin Hl) in Hx.
  discriminate.
Qed.

(** X15.  A desired reference without flags is compared by content: it
    is appended when the server's answer does not hold it, and only
    then. *)
Lemma mergeOwnerReferences_flagless s observed desired :
  ref_Controller desired = None ->
  ref_BlockOwnerDeletion desired = None ->
  let decoded := (decodeOwnerReferences observed s).1 in
  (encodeOwnerReference s desired ∈ observed ->
   mergeOwnerReferences decoded [desired] = decoded)
  /\ (encodeOwnerReference s desired ∉ observed ->
      mergeOwnerReferences decoded [desired] = decoded ++ [desired]).
Proof.
  intros Hc Hb decoded.
  destruct (decodeOwnerReferences_keeps observed s) as (_ & _ & Hround).
  specialize (Hround (decodeOwnerReferences observed s).2 (fun _ _ => eq_refl)).
  fold decoded in Hround.
  assert (desired ∈ decoded <-> encodeOwnerReference s desired ∈ observed) as Hiff.
  { rewrite <- Hround, list_elem_of_fmap. split.
    - intros Hin. exists desired. split; [|exact Hin].
      unfold encodeOwnerReference. now rewrite Hc, Hb.
    - intros (r & Hr & Hin).
      assert (r = desired) as ->; [|exact Hin].
      unfold encodeOwnerReference in Hr. rewrite Hc, Hb in Hr.
      destruct r as [a k n u c b], desired as [a' k' n' u' c' b'].
      cbn in *. subst c' b'.
      destruct c; [discriminate|]. destruct b; [discriminate|].
      now injection Hr as -> -> -> ->. }
  destruct (mergeOwnerReferences_appends_missing decoded [desired]) as [-> _].
  rewrite filter_cons, filter_nil.
  split; intros Hin.
  - destruct (decide (desired ∉ decoded)) as [Hn|_]; [|now rewrite app_nil_r].
    exfalso. apply Hn. now apply Hiff.
  - destruct (decide (desired ∉ decoded)) as [_|Hn]; [reflexivity|].
    exfalso. apply Hin, Hiff. now apply dec_stable.
Qed.

End OwnerFacts.

(** C6 at a desired Service whose owner reference is already on the
    Service the server holds, with the same API version, kind, name, UID
    and [Controller] flag: where the claim has the reference left out as
    already present, [mergeOwnerReferences] appends it, because the flag
    of the desired reference is a pointer of its own, and the update
    writes the reference twice. *)
Theorem mergeOwnerReferences_repeats_present_reference :
  let existing : network.ServiceW :=
    fake.governing "42" [fake.owner (Some true)] fake.assigned in
  let desired : network.ServiceM :=
    fake.governing "" [fake.owner (Some 1%positive)] fake.unassigned in
  let w := client.mkWorld fake.flagStore {[ "prometheus-operated" := existing ]} [] in
  let decoded :=
    (metav1.decodeOwnerReferences [fake.owner (Some true)] fake.flagStore).1 in
  let result := @network.CreateOrUpdateService fake.byReason _ fake.services desired w in
  metav1.encodeOwnerReference fake.flagStore
    <$> metav1.OwnerReferences (network.svc_ObjectMeta desired)
  = metav1.OwnerReferences (network.svc_ObjectMeta existing)
  /\ merge.mergeOwnerReferences decoded [fake.owner (Some 1%positive)]
     = decoded ++ [fake.owner (Some 1%positive)]
  /\ result.1.1.2 = None
  /\ (exists written,
         client.log result.2
         = [client.CallGet "prometheus-operated" (inl existing);
            client.CallUpdate written (inl written)]
         /\ metav1.OwnerReferences (network.svc_ObjectMeta written)
            = [fake.owner (Some true); fake.owner (Some true)])
  /\ (fun o => metav1.OwnerReferences (network.svc_ObjectMeta o))
       <$> (client.server result.2 !! "prometheus-operated")
     = Some [fake.owner (Some true); fake.owner (Some true)].
Proof.
  cbn zeta. split; [vm_compute; reflexivity|]. split; [vm_compute; reflexivity|].
  split; [vm_compute; reflexivity|]. split.
  - eexists. split; vm_compute; reflexivity.
  - vm_compute. reflexivity.
Qed.

(** ** Create-or-update of Endpoints *)
Section EndpointsFacts.
Import gostrings metav1 merge client network endpoints protocol.
Context `{Classifier} {St : Type} (eclient : Interface St EndpointsW).

(** An object encoded from metadata that asks for [d] carries [d]. *)
Lemma asks_carries {O Q : Type} (meta : O -> ObjectMetaW) (body : O -> Q)
      (d : wanted) (m : ObjectMeta loc loc) (h : store) (o : O) :
  asks d m h -> meta o = encodeObjectMeta h m -> body o = content d ->
  carries meta body d o.
Proof.
  intros (Hname & _ & Hl & Ha) Hmeta Hbody. unfold carries. rewrite Hmeta.
  cbn [encodeObjectMeta Name Labels Annotations]. rewrite !encoded_view. auto.
Qed.

(** After the merge with the object read, the desired metadata still
    asks for [d], and the object encoded from it is based on the object
    read. *)
Lemma merged_asks {Q : Type} (d : wanted (Q := Q)) (desired : ObjectMeta loc loc)
      (observed : ObjectMetaW) (h : store) :
  asks d desired h ->
  let decoded := (decodeObjectMeta observed h).1 in
  let h1 := (decodeObjectMeta observed h).2 in
  let merged := (mergeMetadata desired decoded h1).1 in
  let h2 := (mergeMetadata desired decoded h1).2 in
  asks d merged h2
  /\ ResourceVersion merged = ResourceVersion observed
  /\ dom (default ∅ (Labels observed)) ⊆ dom (view h2 (Labels merged))
  /\ dom (default ∅ (Annotations observed)) ⊆ dom (view h2 (Annotations merged))
  /\ keeps h h2.
Proof.
  intros (Hname & Halloc & Hl & Ha). cbn zeta.
  destruct (merge_decoded h desired observed Halloc)
    as (Hn & Hrv & Hvl & Hva & Hm & Hk).
  split; [|split; [exact Hrv | split; [|split; [|exact Hk]]]].
  - split; [congruence|]. split; [exact Hm|]. rewrite Hvl, Hva. split.
    + etransitivity; [exact Hl | apply map_union_subseteq_l].
    + etransitivity; [exact Ha | apply map_union_subseteq_l].
  - rewrite Hvl, dom_union_L. apply union_subseteq_r.
  - rewrite Hva, dom_union_L. apply union_subseteq_r.
Qed.

(** One attempt, started with a desired object that asks for [d]. *)
Lemma endpointsAttempt_trace d eps w :
  asks d (ep_ObjectMeta eps) (heap w) /\ ep_Subsets eps = content d ->
  exists calls,
    log (endpointsAttempt eclient eps w).2 = log w ++ calls
    /\ served eclient (server w) calls (server (endpointsAttempt eclient eps w).2)
    /\ (endpointsAttempt eclient eps w).1.1 = attemptError calls
    /\ attemptCalls ep_ObjectMeta ep_Subsets (fun _ _ => False) d calls
    /\ (asks d (ep_ObjectMeta (endpointsAttempt eclient eps w).1.2)
             (heap (endpointsAttempt eclient eps w).2)
        /\ ep_Subsets (endpointsAttempt eclient eps w).1.2 = content d).
Proof.
  intros [Hasks Hbody]. pose proof Hasks as (Hname & _).
  unfold endpointsAttempt, callGet, callCreate, callUpdate, withHeap.
  rewrite Hname.
  destruct (Get eclient (name d) (server w)) as [[observed|err] st1] eqn:Eget;
    cbn [fst snd log heap server].
  - unfold decodeEndpoints.
    destruct (merged_asks d (ep_ObjectMeta eps) (ep_ObjectMeta observed) (heap w)
                Hasks) as (Hasks' & Hrv & Hdl & Hda & _).
    destruct (decodeObjectMeta (ep_ObjectMeta observed) (heap w)) as [decoded h1].
    cbn [fst snd ep_ObjectMeta] in *.
    destruct (mergeMetadata (ep_ObjectMeta eps) decoded h1) as [merged h2].
    cbn [fst snd heap] in *.
    destruct (Update eclient (encodeEndpoints h2 (mkEndpoints merged (ep_Subsets eps)))
                st1) as [answer st2] eqn:Eupdate.
    exists [CallGet (name d) (inl observed);
            CallUpdate (encodeEndpoints h2 (mkEndpoints merged (ep_Subsets eps)))
              answer].
    assert (attemptCalls ep_ObjectMeta ep_Subsets (fun _ _ => False) d
              [CallGet (name d) (inl observed);
               CallUpdate (encodeEndpoints h2 (mkEndpoints merged (ep_Subsets eps)))
                 answer]) as Hcalls.
    { apply attempt_updated.
      - now apply (asks_carries _ _ d merged h2).
      - unfold basedOn, encodeEndpoints.
        cbn [ep_ObjectMeta encodeObjectMeta ResourceVersion Labels Annotations].
        rewrite !encoded_view. auto.
      - tauto. }
    destruct answer as [updated|err];
      cbn [fst snd log heap server ep_ObjectMeta ep_Subsets] in *.
    + split; [now rewrite <- app_assoc|].
      split; [cbn; rewrite Eget; cbn; rewrite Eupdate; cbn; auto|].
      split; [reflexivity|]. split; [exact Hcalls|]. now split.
    + split; [now rewrite <- app_assoc|].
      split; [cbn; rewrite Eget; cbn; rewrite Eupdate; cbn; auto|].
      split; [reflexivity|]. split; [exact Hcalls|]. now split.
  - destruct (IsNotFound err) eqn:Enf; cbn [negb fst snd log heap server].
    + destruct (Create eclient (encodeEndpoints (heap w) eps) st1)
        as [answer st2] eqn:Ecreate.
      exists [CallGet (name d) (inr err);
              CallCreate (encodeEndpoints (heap w) eps) answer].
      assert (attemptCalls ep_ObjectMeta ep_Subsets (fun _ _ => False) d
                [CallGet (name d) (inr err);
                 CallCreate (encodeEndpoints (heap w) eps) answer])
        as Hcalls.
      { apply attempt_created; [exact Enf|].
        now apply (asks_carries _ _ d (ep_ObjectMeta eps) (heap w)). }
      destruct answer as [created|err'];
        cbn [fst snd log heap server] in *.
      * split; [now rewrite <- app_assoc|].
        split; [cbn; rewrite Eget; cbn; rewrite Ecreate; cbn; auto|].
        split; [reflexivity|]. split; [exact Hcalls|]. now split.
      * split; [now rewrite <- app_assoc|].
        split; [cbn; rewrite Eget; cbn; rewrite Ecreate; cbn; auto|].
        split; [reflexivity|]. split; [exact Hcalls|]. now split.
    + exists [CallGet (name d) (inr err)].
      split; [reflexivity|].
      split; [cbn; rewrite Eget; cbn; auto|].
      split; [reflexivity|].
      split; [now apply attempt_read_failed | now split].
Qed.

(** X5.  [CreateOrUpdateEndpoints] makes between one and five attempts
    against [eclient].  Each one reads the Endpoints by the desired name
    and then: stops, when the read failed otherwise than with "not
    found"; creates the desired object, after "not found"; otherwise
    updates.  Every object created or written has the desired name and
    subsets and every label and annotation entry the desired object came
    with (a desired value is never replaced by an observed one, also
    across retries); an object written by an update moreover has the
    resource version just read and every label and annotation key of the
    object just read.  Every attempt but the last ended on a conflict,
    the last did not unless it was the fifth; the calls are answered by
    the client in this order, and the error of the last call is
    returned.  The caller's object, updated in place, still holds the
    desired entries and subsets. *)
Theorem CreateOrUpdateEndpoints_protocol (eps : EndpointsM) (w : world St EndpointsW) :
  allocated (heap w) (ep_ObjectMeta eps) ->
  let d := mkWanted (Name (ep_ObjectMeta eps))
             (view (heap w) (Labels (ep_ObjectMeta eps)))
             (view (heap w) (Annotations (ep_ObjectMeta eps)))
             (ep_Subsets eps) in
  let result := CreateOrUpdateEndpoints eclient eps w in
  exists conflicts final,
    log result.2 = log w ++ concat conflicts ++ final
    /\ served eclient (server w) (concat conflicts ++ final) (server result.2)
    /\ Forall (fun calls =>
                 attemptCalls ep_ObjectMeta ep_Subsets (fun _ _ => False) d calls
                 /\ conflicted calls = true) conflicts
    /\ attemptCalls ep_ObjectMeta ep_Subsets (fun _ _ => False) d final
    /\ (length conflicts < 5)%nat
    /\ ((length conflicts < 4)%nat -> conflicted final = false)
    /\ result.1.1 = attemptError final
    /\ asks d (ep_ObjectMeta result.1.2) (heap result.2)
    /\ ep_Subsets result.1.2 = ep_Subsets eps.
Proof.
  intros Halloc d result.
  destruct (OnConflict_trace eclient
              (fun eps w => asks d (ep_ObjectMeta eps) (heap w)
                            /\ ep_Subsets eps = content d)
              (attemptCalls ep_ObjectMeta ep_Subsets (fun _ _ => False) d)
              (fun _ eps w => asks d (ep_ObjectMeta eps) (heap w)
                              /\ ep_Subsets eps = content d)
              (endpointsAttempt eclient)
              (fun s w Hs =>
                 match endpointsAttempt_trace d s w Hs with
                 | ex_intro _ calls (conj Hlog (conj Hserved (conj Herr (conj HP HR)))) =>
                     ex_intro _ calls
                       (conj Hlog (conj Hserved (conj Herr (conj HP
                          (conj HR (fun _ => HR))))))
                 end)
              DefaultRetry_Steps None eps w)
    as (conflicts & final & Hlog & Hserved & Hall & HP & [Hasks Hsubsets] & Herr
        & Hlen & Hfinal).
  { split; [|reflexivity]. split; [reflexivity|]. split; [exact Halloc|].
    split; reflexivity. }
  { unfold DefaultRetry_Steps. lia. }
  exists conflicts, final. unfold DefaultRetry_Steps in *.
  fold (CreateOrUpdateEndpoints eclient eps w) in *. fold result in Hlog, Hserved, Hasks, Hsubsets, Herr.
  split; [exact Hlog|]. split; [exact Hserved|]. split; [exact Hall|].
  split; [exact HP|]. split; [exact Hlen|].
  split; [intros Hlt; apply Hfinal; lia|]. split; [exact Herr|].
  split; [exact Hasks | exact Hsubsets].
Qed.

(** The attempt that finds the object: the object it writes. *)
Lemma endpointsAttempt_found eps w observed st1 :
  allocated (heap w) (ep_ObjectMeta eps) ->
  Get eclient (Name (ep_ObjectMeta eps)) (server w) = (inl observed, st1) ->
  exists written,
    endpointsAttempt eclient eps w
    = ((answerError (Update eclient written st1).1,
        (endpointsAttempt eclient eps w).1.2),
       mkWorld (heap (endpointsAttempt eclient eps w).2)
         (Update eclient written st1).2
         (log w ++ [CallGet (Name (ep_ObjectMeta eps)) (inl observed);
                    CallUpdate written (Update eclient written st1).1]))
    /\ ep_Subsets written = ep_Subsets eps
    /\ Name (ep_ObjectMeta written) = Name (ep_ObjectMeta eps)
    /\ ResourceVersion (ep_ObjectMeta written)
       = ResourceVersion (ep_ObjectMeta observed)
    /\ default ∅ (Labels (ep_ObjectMeta written))
       = view (heap w) (Labels (ep_ObjectMeta eps))
         ∪ default ∅ (Labels (ep_ObjectMeta observed))
    /\ default ∅ (Annotations (ep_ObjectMeta written))
       = view (heap w) (Annotations (ep_ObjectMeta eps))
         ∪ default ∅ (Annotations (ep_ObjectMeta observed)).
Proof.
  intros Halloc Hget.
  unfold endpointsAttempt, callGet, callUpdate, withHeap, decodeEndpoints.
  rewrite Hget. cbn [fst snd log heap server].
  destruct (merge_decoded (heap w) (ep_ObjectMeta eps) (ep_ObjectMeta observed)
              Halloc) as (Hn & Hrv & Hvl & Hva & _).
  destruct (decodeObjectMeta (ep_ObjectMeta observed) (heap w)) as [decoded h1].
  cbn [fst snd ep_ObjectMeta] in *.
  destruct (mergeMetadata (ep_ObjectMeta eps) decoded h1) as [merged h2].
  cbn [fst snd heap] in *.
  exists (encodeEndpoints h2 (mkEndpoints merged (ep_Subsets eps))).
  split.
  { destruct (Update eclient _ st1) as [[updated|err] st2];
      cbn [fst snd log heap answerError]; now rewrite <- app_assoc. }
  unfold encodeEndpoints.
  cbn [ep_Subsets ep_ObjectMeta encodeObjectMeta Name ResourceVersion
       Labels Annotations].
  rewrite !encoded_view. auto.
Qed.

(** X6.  When the first read of [CreateOrUpdateEndpoints] finds the
    Endpoints, the next request is an update that writes the desired
    subsets under the resource version read, with labels and annotations
    that are the union of the desired and the observed entries, the
    desired value on a shared key.  Unless the client answers the update
    with a conflict, nothing more is asked: the function returns the
    outcome of the update and leaves the server as the update left it. *)
Theorem CreateOrUpdateEndpoints_first_update
        (eps : EndpointsM) (w : world St EndpointsW) observed st1 :
  allocated (heap w) (ep_ObjectMeta eps) ->
  Get eclient (Name (ep_ObjectMeta eps)) (server w) = (inl observed, st1) ->
  let result := CreateOrUpdateEndpoints eclient eps w in
  exists written rest,
    log result.2
    = log w ++ CallGet (Name (ep_ObjectMeta eps)) (inl observed)
               :: CallUpdate written (Update eclient written st1).1 :: rest
    /\ ep_Subsets written = ep_Subsets eps
    /\ Name (ep_ObjectMeta written) = Name (ep_ObjectMeta eps)
    /\ ResourceVersion (ep_ObjectMeta written)
       = ResourceVersion (ep_ObjectMeta observed)
    /\ default ∅ (Labels (ep_ObjectMeta written))
       = view (heap w) (Labels (ep_ObjectMeta eps))
         ∪ default ∅ (Labels (ep_ObjectMeta observed))
    /\ default ∅ (Annotations (ep_ObjectMeta written))
       = view (heap w) (Annotations (ep_ObjectMeta eps))
         ∪ default ∅ (Annotations (ep_ObjectMeta observed))
    /\ (conflicted [CallUpdate written (Update eclient written st1).1] = false ->
        rest = []
        /\ result.1.1 = answerError (Update eclient written st1).1
        /\ server result.2 = (Update eclient written st1).2).
Proof.
  intros Halloc Hget result.
  destruct (endpointsAttempt_found eps w observed st1 Halloc Hget)
    as (written & Hrun & Hrest).
  set (d := mkWanted (Name (ep_ObjectMeta eps))
              (view (heap w) (Labels (ep_ObjectMeta eps)))
              (view (heap w) (Annotations (ep_ObjectMeta eps)))
              (ep_Subsets eps)).
  assert (asks d (ep_ObjectMeta eps) (heap w) /\ ep_Subsets eps = content d)
    as Hready.
  { split; [|reflexivity]. split; [reflexivity|]. split; [exact Halloc|].
    split; reflexivity. }
  destruct (endpointsAttempt_trace d eps w Hready) as (_ & _ & _ & _ & _ & Hready').
  exists written.
  subst result.
  unfold CreateOrUpdateEndpoints, RetryOnConflict, DefaultRetry_Steps.
  cbn [OnConflict]. rewrite Hrun in Hready' |- *.
  set (eps' := (endpointsAttempt eclient eps w).1.2) in *.
  set (h' := heap (endpointsAttempt eclient eps w).2) in *.
  cbn [fst snd heap] in Hready'.
  set (answer := (Update eclient written st1).1) in *.
  set (w' := mkWorld h' (Update eclient written st1).2
               (log w ++ [CallGet (Name (ep_ObjectMeta eps)) (inl observed);
                          CallUpdate written answer])).
  assert (forall e,
             exists rest,
               log (OnConflict 4 (endpointsAttempt eclient) e eps' w').2
               = log w ++ CallGet (Name (ep_ObjectMeta eps)) (inl observed)
                          :: CallUpdate written answer :: rest) as Hmore.
  { intros e.
    destruct (OnConflict_attempts
                (fun eps w => asks d (ep_ObjectMeta eps) (heap w)
                              /\ ep_Subsets eps = content d)
                (fun _ => True)
                (endpointsAttempt eclient)
                (fun s w Hs =>
                   match endpointsAttempt_trace d s w Hs with
                   | ex_intro _ calls (conj Hlog (conj _ (conj _ (conj _ HR)))) =>
                       conj HR (ex_intro _ calls (conj Hlog I))
                   end)
                4%nat e eps' w' Hready')
      as (_ & attempts & Hlog' & _).
    exists (concat attempts). rewrite Hlog'. subst w'. cbn [log].
    rewrite <- app_assoc. reflexivity. }
  unfold conflicted, attemptError. cbn [last mbind option_bind callError].
  destruct answer as [updated|e] eqn:Eanswer; cbn [answerError].
  - exists []. split; [reflexivity|]. split; [apply Hrest|].
    repeat (split; [apply Hrest|]). intros _. auto.
  - destruct (IsConflict e) eqn:Ec.
    + destruct (Hmore (Some e)) as (rest & Hlog'). exists rest.
      split; [exact Hlog'|]. split; [apply Hrest|].
      repeat (split; [apply Hrest|]). intros Hc. discriminate Hc.
    + exists []. split; [reflexivity|]. split; [apply Hrest|].
      repeat (split; [apply Hrest|]). intros _. auto.
Qed.

End EndpointsFacts.

(** ** Create-or-update of Secrets and ConfigMaps *)
Section ConfigFacts.
Import gostrings metav1 merge client config protocol.
Context `{Classifier} {D St : Type}
        `{Equalities (Object D (gmap string string) bool)}
        (c : Interface St (Object D (gmap string string) bool)).

Lemma asks_keeps {Q : Type} (d : wanted (Q := Q)) m h h' :
  keeps h h' -> asks d m h -> asks d m h'.
Proof.
  intros Hk (Hname & Halloc & Hl & Ha).
  split; [exact Hname|]. split; [exact (keeps_allocated _ _ _ Hk Halloc)|].
  rewrite !(keeps_view _ _ _ Hk); [auto | apply Halloc | apply Halloc].
Qed.

(** One attempt.  The object read, decoded, is still what was read
    after the copy and the merge: the merge writes into the maps of the
    copy. *)
Lemma writeAttempt_trace d desired w :
  asks d (obj_ObjectMeta desired) (heap w) /\ obj_Content desired = content d ->
  exists calls,
    log (writeAttempt c desired w).2 = log w ++ calls
    /\ served c (server w) calls (server (writeAttempt c desired w).2)
    /\ (writeAttempt c desired w).1.1 = attemptError calls
    /\ attemptCalls obj_ObjectMeta obj_Content
         (fun observed merged => Semantic_DeepEqual observed merged = true)
         d calls
    /\ (asks d (obj_ObjectMeta (writeAttempt c desired w).1.2)
             (heap (writeAttempt c desired w).2)
        /\ obj_Content (writeAttempt c desired w).1.2 = content d).
Proof.
  intros [Hasks Hbody]. pose proof Hasks as (Hname & _).
  unfold writeAttempt, callGet, callCreate, callUpdate, withHeap.
  rewrite Hname.
  destruct (Get c (name d) (server w)) as [[observed|err] st1] eqn:Eget;
    cbn [fst snd log heap server].
  - unfold DeepCopyObject, decodeObject.
    destruct (decodeObjectMeta_roundtrip (obj_ObjectMeta observed) (heap w))
      as (Hk1 & He1 & _ & _ & Hround).
    destruct (decodeObjectMeta (obj_ObjectMeta observed) (heap w))
      as [existing h1]. cbn [fst snd obj_ObjectMeta obj_Content] in *.
    assert (encodeObject h1 (mkObject existing (obj_Content observed)) = observed)
      as Hsame.
    { unfold encodeObject. cbn [obj_ObjectMeta obj_Content].
      rewrite (Hround h1); [now destruct observed | reflexivity | reflexivity]. }
    rewrite Hsame.
    pose proof (asks_keeps d _ _ _ Hk1 Hasks) as Hasks1.
    destruct (merged_asks d (obj_ObjectMeta desired) (obj_ObjectMeta observed) h1
                Hasks1) as (Hasks' & Hrv & Hdl & Hda & Hk3).
    destruct (decodeObjectMeta (obj_ObjectMeta observed) h1) as [mutated h2].
    cbn [fst snd obj_ObjectMeta] in *.
    destruct (mergeMetadata (obj_ObjectMeta desired) mutated h2) as [merged h3].
    cbn [fst snd heap] in *.
    assert (encodeObject h3 (mkObject existing (obj_Content observed)) = observed)
      as Hsame3.
    { unfold encodeObject. cbn [obj_ObjectMeta obj_Content].
      rewrite (Hround h3); [now destruct observed | |].
      - intros l Hl. apply (proj1 Hk3).
        destruct He1 as [Hel Hea]. destruct Hl; [now apply Hel | now apply Hea].
      - apply (proj2 Hk3). }
    rewrite Hsame3.
    set (written := encodeObject h3 (mkObject merged (obj_Content desired))).
    assert (carries obj_ObjectMeta obj_Content d written) as Hcarries
        by now apply (asks_carries _ _ d merged h3).
    assert (basedOn obj_ObjectMeta observed written) as Hbased.
    { unfold basedOn, written, encodeObject.
      cbn [obj_ObjectMeta encodeObjectMeta ResourceVersion Labels Annotations].
      rewrite !encoded_view. auto. }
    destruct (Semantic_DeepEqual observed written) eqn:Eq;
      cbn [fst snd log heap server obj_ObjectMeta obj_Content].
    + exists [CallGet (name d) (inl observed)].
      split; [reflexivity|].
      split; [cbn; rewrite Eget; cbn; auto|].
      split; [reflexivity|].
      split; [now apply (attempt_converged _ _ _ d observed written) | now split].
    + destruct (Update c written st1) as [answer st2] eqn:Eupdate.
      exists [CallGet (name d) (inl observed); CallUpdate written answer].
      assert (attemptCalls obj_ObjectMeta obj_Content
                (fun observed merged => Semantic_DeepEqual observed merged = true) d
                [CallGet (name d) (inl observed); CallUpdate written answer])
        as Hcalls.
      { apply attempt_updated; [exact Hcarries | exact Hbased | congruence]. }
      destruct answer as [updated|err];
        cbn [fst snd log heap server obj_ObjectMeta obj_Content] in *.
      * split; [now rewrite <- app_assoc|].
        split; [cbn; rewrite Eget; cbn; rewrite Eupdate; cbn; auto|].
        split; [reflexivity|]. split; [exact Hcalls | now split].
      * split; [now rewrite <- app_assoc|].
        split; [cbn; rewrite Eget; cbn; rewrite Eupdate; cbn; auto|].
        split; [reflexivity|]. split; [exact Hcalls | now split].
  - destruct (IsNotFound err) eqn:Enf; cbn [negb fst snd log heap server].
    + destruct (Create c (encodeObject (heap w) desired) st1)
        as [answer st2] eqn:Ecreate.
      exists [CallGet (name d) (inr err);
              CallCreate (encodeObject (heap w) desired) answer].
      assert (attemptCalls obj_ObjectMeta obj_Content
                (fun observed merged => Semantic_DeepEqual observed merged = true) d
                [CallGet (name d) (inr err);
                 CallCreate (encodeObject (heap w) desired) answer])
        as Hcalls.
      { apply attempt_created; [exact Enf|].
        now apply (asks_carries _ _ d (obj_ObjectMeta desired) (heap w)). }
      destruct answer as [created|err'];
        cbn [fst snd log heap server] in *.
      * split; [now rewrite <- app_assoc|].
        split; [cbn; rewrite Eget; cbn; rewrite Ecreate; cbn; auto|].
        split; [reflexivity|]. split; [exact Hcalls | now split].
      * split; [now rewrite <- app_assoc|].
        split; [cbn; rewrite Eget; cbn; rewrite Ecreate; cbn; auto|].
        split; [reflexivity|]. split; [exact Hcalls | now split].
    + exists [CallGet (name d) (inr err)].
      split; [reflexivity|].
      split; [cbn; rewrite Eget; cbn; auto|].
      split; [reflexivity|].
      split; [now apply attempt_read_failed | now split].
Qed.

Lemma writeAttempts_protocol desired w :
  allocated (heap w) (obj_ObjectMeta desired) ->
  let d := mkWanted (Name (obj_ObjectMeta desired))
             (view (heap w) (Labels (obj_ObjectMeta desired)))
             (view (heap w) (Annotations (obj_ObjectMeta desired)))
             (obj_Content desired) in
  let result := RetryOnConflict (writeAttempt c) desired w in
  exists conflicts final,
    log result.2 = log w ++ concat conflicts ++ final
    /\ served c (server w) (concat conflicts ++ final) (server result.2)
    /\ Forall (fun calls =>
                 attemptCalls obj_ObjectMeta obj_Content
                   (fun observed merged => Semantic_DeepEqual observed merged = true)
                   d calls
                 /\ conflicted calls = true) conflicts
    /\ attemptCalls obj_ObjectMeta obj_Content
         (fun observed merged => Semantic_DeepEqual observed merged = true) d final
    /\ (length conflicts < 5)%nat
    /\ ((length conflicts < 4)%nat -> conflicted final = false)
    /\ result.1.1 = attemptError final.
Proof.
  intros Halloc d result.
  destruct (OnConflict_trace c
              (fun desired w => asks d (obj_ObjectMeta desired) (heap w)
                                /\ obj_Content desired = content d)
              (attemptCalls obj_ObjectMeta obj_Content
                 (fun observed merged => Semantic_DeepEqual observed merged = true) d)
              (fun _ desired w => asks d (obj_ObjectMeta desired) (heap w)
                                  /\ obj_Content desired = content d)
              (writeAttempt c)
              (fun s w Hs =>
                 match writeAttempt_trace d s w Hs with
                 | ex_intro _ calls (conj Hlog (conj Hserved (conj Herr (conj HP HR)))) =>
                     ex_intro _ calls
                       (conj Hlog (conj Hserved (conj Herr (conj HP
                          (conj HR (fun _ => HR))))))
                 end)
              DefaultRetry_Steps None desired w)
    as (conflicts & final & Hlog & Hserved & Hall & HP & _ & Herr & Hlen & Hfinal).
  { split; [|reflexivity]. split; [reflexivity|]. split; [exact Halloc|].
    split; reflexivity. }
  { unfold DefaultRetry_Steps. lia. }
  exists conflicts, final. unfold DefaultRetry_Steps in *.
  split; [exact Hlog|]. split; [exact Hserved|]. split; [exact Hall|].
  split; [exact HP|]. split; [exact Hlen|].
  split; [intros Hlt; apply Hfinal; lia | exact Herr].
Qed.

End ConfigFacts.

Section ConfigKinds.
Import gostrings metav1 merge client config protocol.
Context `{Classifier} {St : Type}.

(** X7.  [CreateOrUpdateSecret] makes between one and five attempts
    against the client, each one a read by the desired name followed by:
    nothing more, when the read failed otherwise than with "not found";
    a create of the desired object, after "not found"; nothing more
    either, when the object that would be written is semantically equal
    to the object as it was read (the merge does not disturb the object
    read: it works on a copy); an update otherwise.  The object created,
    compared or written has the desired name and content and every
    desired label and annotation entry; the object compared or written
    has the resource version and every label and annotation key of the
    object read.  Every attempt but the last ended on a conflict, the
    last did not unless it was the fifth; the calls are answered by the
    client in this order and the error of the last call is returned. *)
Theorem CreateOrUpdateSecret_protocol
        `{Equalities SecretW} (secretClient : Interface St SecretW)
        (desired : SecretM) (w : world St SecretW) :
  allocated (heap w) (obj_ObjectMeta desired) ->
  let d := mkWanted (Name (obj_ObjectMeta desired))
             (view (heap w) (Labels (obj_ObjectMeta desired)))
             (view (heap w) (Annotations (obj_ObjectMeta desired)))
             (obj_Content desired) in
  let result := CreateOrUpdateSecret secretClient desired w in
  exists conflicts final,
    log result.2 = log w ++ concat conflicts ++ final
    /\ served secretClient (server w) (concat conflicts ++ final) (server result.2)
    /\ Forall (fun calls =>
                 attemptCalls obj_ObjectMeta obj_Content
                   (fun observed merged => Semantic_DeepEqual observed merged = true)
                   d calls
                 /\ conflicted calls = true) conflicts
    /\ attemptCalls obj_ObjectMeta obj_Content
         (fun observed merged => Semantic_DeepEqual observed merged = true) d final
    /\ (length conflicts < 5)%nat
    /\ ((length conflicts < 4)%nat -> conflicted final = false)
    /\ result.1.1 = attemptError final.
Proof.
  intros Halloc. exact (writeAttempts_protocol secretClient desired w Halloc).
Qed.

(** X8.  [CreateOrUpdateConfigMap] follows the same protocol as
    [CreateOrUpdateSecret]: between one and five attempts, each a read
    by the desired name followed by nothing (failed read, or nothing to
    change), a create (after "not found") or an update; every attempt
    but the last ended on a conflict; the objects sent hold the desired
    name, content and entries, an update moreover the resource version
    and keys of the object read; the calls are answered by the client in
    this order and the error of the last call is returned. *)
Theorem CreateOrUpdateConfigMap_protocol
        `{Equalities ConfigMapW} (cmClient : Interface St ConfigMapW)
        (desired : ConfigMapM) (w : world St ConfigMapW) :
  allocated (heap w) (obj_ObjectMeta desired) ->
  let d := mkWanted (Name (obj_ObjectMeta desired))
             (view (heap w) (Labels (obj_ObjectMeta desired)))
             (view (heap w) (Annotations (obj_ObjectMeta desired)))
             (obj_Content desired) in
  let result := CreateOrUpdateConfigMap cmClient desired w in
  exists conflicts final,
    log result.2 = log w ++ concat conflicts ++ final
    /\ served cmClient (server w) (concat conflicts ++ final) (server result.2)
    /\ Forall (fun calls =>
                 attemptCalls obj_ObjectMeta obj_Content
                   (fun observed merged => Semantic_DeepEqual observed merged = true)
                   d calls
                 /\ conflicted calls = true) conflicts
    /\ attemptCalls obj_ObjectMeta obj_Content
         (fun observed merged => Semantic_DeepEqual observed merged = true) d final
    /\ (length conflicts < 5)%nat
    /\ ((length conflicts < 4)%nat -> conflicted final = false)
    /\ result.1.1 = attemptError final.
Proof.
  intros Halloc. exact (writeAttempts_protocol cmClient desired w Halloc).
Qed.

End ConfigKinds.
(** ** Pod helpers *)
Section PodFacts.
Import corev1 pods.
Context {P : Type}.

(** The loop over the conditions stops at the first one of type Ready. *)
Lemma readyCondition_first (conditions : list PodCondition) :
  (Forall (fun c => cond_Type c <> PodReady) conditions
   /\ readyCondition conditions
      = (false, Some (errors_New "pod ready condition not found")))
  \/ (exists before cond after,
         conditions = before ++ cond :: after
         /\ Forall (fun c => cond_Type c <> PodReady) before
         /\ cond_Type cond = PodReady
         /\ readyCondition conditions
            = (String.eqb (cond_Status cond) ConditionTrue, None)).
Proof.
  induction conditions as [|c conditions IH]; simpl.
  - left. split; [constructor | reflexivity].
  - destruct (String.eqb_spec (cond_Type c) PodReady) as [Hc|Hc]; cbn [negb].
    + right. exists [], c, conditions. simpl.
      split; [reflexivity|]. split; [constructor|]. split; [exact Hc | reflexivity].
    + destruct IH as [[Hnone Hr] | (before & cond & after & -> & Hb & Hcond & Hr)].
      * left. split; [now constructor | exact Hr].
      * right. exists (c :: before), cond, after. simpl.
        split; [reflexivity|]. split; [now constructor|].
        split; [exact Hcond | exact Hr].
Qed.

Lemma first_ready_unique (before before' after after' : list PodCondition) cond cond' :
  before ++ cond :: after = before' ++ cond' :: after' ->
  Forall (fun c => cond_Type c <> PodReady) before ->
  Forall (fun c => cond_Type c <> PodReady) before' ->
  cond_Type cond = PodReady -> cond_Type cond' = PodReady ->
  cond = cond'.
Proof.
  revert before'. induction before as [|b before IH]; intros [|b' before'] E Hb Hb' Hc Hc';
    simpl in E.
  - now injection E.
  - injection E as <- _. inversion Hb'; subst. contradiction.
  - injection E as -> _. inversion Hb; subst. contradiction.
  - injection E as _ E. inversion Hb; inversion Hb'; subst. eauto.
Qed.

(** X9.  [PodRunningAndReady] reports a pod ready exactly when its phase
    is Running and the first of its conditions of type Ready has status
    True; conditions after that one are not looked at.  It fails, with
    an error, exactly when the phase is Failed or Succeeded, or the phase
    is Running and no condition has type Ready; in every other phase it
    answers "not ready" without an error.  A pod is never reported ready
    together with an error. *)
Theorem PodRunningAndReady_first_ready_condition (pod : Pod P) :
  let phase := Phase (pod_Status pod) in
  let conditions := Conditions (pod_Status pod) in
  ((PodRunningAndReady pod).1 = true <->
   phase = PodRunning
   /\ exists before cond after,
       conditions = before ++ cond :: after
       /\ Forall (fun c => cond_Type c <> PodReady) before
       /\ cond_Type cond = PodReady
       /\ cond_Status cond = ConditionTrue)
  /\ ((PodRunningAndReady pod).2 <> None <->
      phase = PodFailed \/ phase = PodSucceeded
      \/ (phase = PodRunning
          /\ Forall (fun c => cond_Type c <> PodReady) conditions))
  /\ ((PodRunningAndReady pod).1 = true -> (PodRunningAndReady pod).2 = None).
Proof.
  cbn zeta. unfold PodRunningAndReady.
  destruct (String.eqb_spec (Phase (pod_Status pod)) PodFailed) as [Hf|Hf].
  { cbn [orb fst snd]. rewrite Hf.
    split; [split; [discriminate | intros [Hr _]; discriminate Hr]|].
    split; [split; [auto | discriminate] | discriminate]. }
  destruct (String.eqb_spec (Phase (pod_Status pod)) PodSucceeded) as [Hs|Hs].
  { cbn [orb fst snd]. rewrite Hs.
    split; [split; [discriminate | intros [Hr _]; discriminate Hr]|].
    split; [split; [auto | discriminate] | discriminate]. }
  cbn [orb].
  destruct (String.eqb_spec (Phase (pod_Status pod)) PodRunning) as [Hr|Hr].
  2:{ cbn [fst snd].
      split; [split; [discriminate | intros [? _]; contradiction]|].
      split; [|discriminate].
      split; [intros Hn; now contradiction Hn|].
      intros [?|[?|[? _]]]; contradiction. }
  destruct (readyCondition_first (Conditions (pod_Status pod)))
    as [[Hnone ->] | (before & cond & after & Hsplit & Hb & Hcond & ->)];
    cbn [fst snd].
  - split; [|split; [|discriminate]].
    + split; [discriminate|].
      intros (_ & before & cond & after & Hsplit & _ & Hcond & _).
      rewrite Hsplit in Hnone. apply Forall_app in Hnone as [_ Hnone].
      inversion Hnone; subst. contradiction.
    + split; [intros _; right; right; now split | discriminate].
  - split; [|split; [|reflexivity]].
    + split.
      * intros Htrue. split; [exact Hr|]. exists before, cond, after.
        split; [exact Hsplit|]. split; [exact Hb|]. split; [exact Hcond|].
        now apply String.eqb_eq.
      * intros (_ & before' & cond' & after' & Hsplit' & Hb' & Hcond' & Hstatus).
        rewrite Hsplit in Hsplit'.
        rewrite (first_ready_unique _ _ _ _ _ _ Hsplit' Hb Hb' Hcond Hcond').
        now apply String.eqb_eq.
    + split; [intros Hn; now contradiction Hn|].
      intros [?|[?|[_ Hall]]]; try contradiction.
      rewrite Hsplit in Hall. apply Forall_app in Hall as [_ Hall].
      inversion Hall; subst. contradiction.
Qed.

Lemma foldl_options (config : monitoringv1.PodDNSConfig P) acc :
  foldl (fun dnsConfig opt =>
           mkPodDNSConfig (Nameservers dnsConfig) (Searches dnsConfig)
             (Options dnsConfig
              ++ [mkPodDNSConfigOption (monitoringv1.Name opt)
                    (monitoringv1.Value opt)]))
        acc (monitoringv1.Options config)
  = mkPodDNSConfig (Nameservers acc) (Searches acc)
      (Options acc
       ++ ((fun opt => mkPodDNSConfigOption (monitoringv1.Name opt)
                         (monitoringv1.Value opt))
             <$> monitoringv1.Options config)).
Proof.
  revert acc. induction (monitoringv1.Options config) as [|opt opts IH];
    intros acc; simpl.
  - rewrite app_nil_r. now destruct acc.
  - rewrite IH. cbn [Nameservers Searches Options]. now rewrite <- app_assoc.
Qed.

(** X10.  [UpdateDNSConfig] with a configuration replaces the DNS
    configuration of the pod spec, whatever it was, by one with the same
    name servers and searches and with the options converted one by one,
    in the same order (each keeps its name and its value pointer);
    [UpdateDNSPolicy] with a policy sets the policy.  Each leaves every
    other field as it was, does nothing when given nil, gives the same
    spec when applied twice, and the two can be applied in either
    order. *)
Theorem UpdateDNS_settings (podSpec : PodSpec P)
        (config : monitoringv1.PodDNSConfig P) (dnsPolicy : string) :
  UpdateDNSConfig podSpec (Some config)
  = mkPodSpec (HostNetwork podSpec) (DNSPolicy podSpec)
      (Some (mkPodDNSConfig (monitoringv1.Nameservers config)
               (monitoringv1.Searches config)
               ((fun opt => mkPodDNSConfigOption (monitoringv1.Name opt)
                              (monitoringv1.Value opt))
                  <$> monitoringv1.Options config)))
  /\ UpdateDNSPolicy podSpec (Some dnsPolicy)
     = mkPodSpec (HostNetwork podSpec) dnsPolicy (DNSConfig podSpec)
  /\ UpdateDNSConfig podSpec None = podSpec
  /\ UpdateDNSPolicy podSpec None = podSpec
  /\ UpdateDNSConfig (UpdateDNSConfig podSpec (Some config)) (Some config)
     = UpdateDNSConfig podSpec (Some config)
  /\ (forall config' policy',
         UpdateDNSPolicy (UpdateDNSConfig podSpec config') policy'
         = UpdateDNSConfig (UpdateDNSPolicy podSpec policy') config').
Proof.
  assert (forall spec : PodSpec P,
             UpdateDNSConfig spec (Some config)
             = mkPodSpec (HostNetwork spec) (DNSPolicy spec)
                 (Some (mkPodDNSConfig (monitoringv1.Nameservers config)
                          (monitoringv1.Searches config)
                          ((fun opt => mkPodDNSConfigOption (monitoringv1.Name opt)
                                         (monitoringv1.Value opt))
                             <$> monitoringv1.Options config)))) as Hconfig.
  { intros spec. unfold UpdateDNSConfig. now rewrite foldl_options. }
  split; [apply Hconfig|]. split; [reflexivity|]. split; [reflexivity|].
  split; [reflexivity|]. split; [now rewrite !Hconfig|].
  intros [config'|] [policy'|]; reflexivity.
Qed.

End PodFacts.

(** The package's test of the DNS conversion, on the model: two name
    servers, one search, the options ndots and timeout. *)
Example TestConvertToK8sDNSConfig :
  let monitoringDNSConfig :=
    monitoringv1.mkPodDNSConfig ["8.8.8.8"; "8.8.4.4"] ["custom.search"]
      [monitoringv1.mkPodDNSConfigOption "ndots" (Some "5");
       monitoringv1.mkPodDNSConfigOption "timeout" (Some "1")] in
  corev1.DNSConfig
    (pods.UpdateDNSConfig (corev1.mkPodSpec false "" None) (Some monitoringDNSConfig))
  = Some (corev1.mkPodDNSConfig ["8.8.8.8"; "8.8.4.4"] ["custom.search"]
            [corev1.mkPodDNSConfigOption "ndots" (Some "5");
             corev1.mkPodDNSConfigOption "timeout" (Some "1")]).
Proof. reflexivity. Qed.
(** ** The status-cleanup finalizer *)
Section CleanupFacts.
Import finalizer cleanup.
Context `{Encoder} {T : Type} `{Object T}.

Lemma first_index (l : list string) x :
  x ∈ l -> exists i, l !! i = Some x /\ forall j, (j < i)%nat -> l !! j <> Some x.
Proof.
  induction l as [|y l IH]; intros Hin; [inversion Hin|].
  destruct (String.eqb_spec y x) as [->|Hne].
  - exists 0%nat. split; [reflexivity | intros j Hj; lia].
  - apply elem_of_cons in Hin as [->|Hin]; [contradiction|].
    destruct (IH Hin) as (i & Hi & Hfirst). exists (S i).
    split; [exact Hi|]. intros [|j] Hj; simpl; [congruence|].
    apply Hfirst. lia.
Qed.

(** X11.  [HasStatusCleanupFinalizer] tells which of the two patches
    for the status-cleanup finalizer has something to do.  When it
    answers true, adding the finalizer needs no patch (the empty
    payload) and removing it is the test and the removal at the first
    index that holds the name; when it answers false, removing needs no
    patch (nil) and adding is the one [add] operation, on the whole
    field for an object without finalizers and at the end of the list
    otherwise. *)
Theorem HasStatusCleanupFinalizer_patches (obj : T) :
  let name := StatusCleanupFinalizerName in
  (HasStatusCleanupFinalizer obj = true ->
   FinalizerAddPatch (GetFinalizers obj) name = (Some "", None)
   /\ exists i,
       GetFinalizers obj !! i = Some name
       /\ (forall j, (j < i)%nat -> GetFinalizers obj !! j <> Some name)
       /\ FinalizerDeletePatch (GetFinalizers obj) name
          = json_Marshal [ object_of (Test (indexPath i) (AnyString name));
                           object_of (Remove (indexPath i)) ])
  /\ (HasStatusCleanupFinalizer obj = false ->
      FinalizerDeletePatch (GetFinalizers obj) name = (None, None)
      /\ FinalizerAddPatch (GetFinalizers obj) name
         = json_Marshal
             [ object_of
                 (match GetFinalizers obj with
                  | [] => Add "/metadata/finalizers" (AnyStrings [name])
                  | _ :: _ => Add "/metadata/finalizers/-" (AnyString name)
                  end) ]).
Proof.
  cbn zeta. unfold HasStatusCleanupFinalizer, FinalizerAddPatch, FinalizerDeletePatch.
  split; intros Hhas; rewrite Hhas.
  - split; [reflexivity|].
    apply Contains_elem_of in Hhas.
    destruct (first_index _ _ Hhas) as (i & Hi & Hfirst).
    exists i. split; [exact Hi|]. split; [exact Hfirst|].
    exact (deleteFrom_first 0 _ _ i Hi Hfirst).
  - split.
    + apply deleteFrom_absent. intros Hin.
      apply Contains_elem_of in Hin. congruence.
    + now destruct (GetFinalizers obj).
Qed.

End CleanupFacts.
(** ** The further properties on concrete objects *)

Lemma labelStore_allocated :
  merge.allocated fixtures.labelStore (fixtures.labelledM (Some 1%positive)).
Proof.
  split; intros l E; [|discriminate E].
  injection E as <-. eexists. reflexivity.
Defined.

(** X11 on an object that holds the status-cleanup finalizer in second
    place, and on one without finalizers. *)
Lemma HasStatusCleanupFinalizer_patches_witness :
  let held := ["kubernetes"; finalizer.StatusCleanupFinalizerName] in
  @cleanup.HasStatusCleanupFinalizer _ fixtures.finalized held = true
  /\ @cleanup.HasStatusCleanupFinalizer _ fixtures.finalized [] = false
  /\ @finalizer.FinalizerAddPatch examples.countingEncoder held
       finalizer.StatusCleanupFinalizerName = (Some "", None)
  /\ @finalizer.FinalizerDeletePatch examples.countingEncoder []
       finalizer.StatusCleanupFinalizerName = (None, None).
Proof.
  cbn zeta.
  assert (@cleanup.HasStatusCleanupFinalizer _ fixtures.finalized
            ["kubernetes"; finalizer.StatusCleanupFinalizerName] = true) as Hheld
      by reflexivity.
  assert (@cleanup.HasStatusCleanupFinalizer _ fixtures.finalized [] = false) as Hnone
      by reflexivity.
  split; [exact Hheld|]. split; [exact Hnone|]. split.
  - exact (proj1 (proj1 (@HasStatusCleanupFinalizer_patches examples.countingEncoder
                           _ fixtures.finalized
                           ["kubernetes"; finalizer.StatusCleanupFinalizerName])
                    Hheld)).
  - exact (proj1 (proj2 (@HasStatusCleanupFinalizer_patches examples.countingEncoder
                           _ fixtures.finalized []) Hnone)).
Defined.

(** X5 on the fake clientset holding Endpoints under the desired name. *)
Lemma CreateOrUpdateEndpoints_protocol_witness :
  merge.allocated (client.heap (fixtures.holding fixtures.observedEndpoints))
    (endpoints.ep_ObjectMeta fixtures.desiredEndpoints)
  /\ (let result :=
        @endpoints.CreateOrUpdateEndpoints fake.byReason _ fixtures.endpointsClient
          fixtures.desiredEndpoints (fixtures.holding fixtures.observedEndpoints) in
      exists conflicts final,
        client.log result.2 = concat conflicts ++ final
        /\ client.served fixtures.endpointsClient
             {[ "kube-state-metrics" := fixtures.observedEndpoints ]}
             (concat conflicts ++ final) (client.server result.2)
        /\ result.1.1 = client.attemptError final).
Proof.
  split; [exact labelStore_allocated|]. cbn zeta.
  destruct (@CreateOrUpdateEndpoints_protocol fake.byReason _ fixtures.endpointsClient
              fixtures.desiredEndpoints (fixtures.holding fixtures.observedEndpoints)
              labelStore_allocated)
    as (conflicts & final & Hlog & Hserved & _ & _ & _ & _ & Herr & _).
  exists conflicts, final. split; [exact Hlog|]. split; [exact Hserved | exact Herr].
Defined.

(** X6 on the same server: the update writes the desired subsets under
    resource version 7, with the desired label and the label read; the
    clientset never answers with a conflict, so nothing more is asked. *)
Lemma CreateOrUpdateEndpoints_first_update_witness :
  merge.allocated (client.heap (fixtures.holding fixtures.observedEndpoints))
    (endpoints.ep_ObjectMeta fixtures.desiredEndpoints)
  /\ client.Get fixtures.endpointsClient "kube-state-metrics"
       {[ "kube-state-metrics" := fixtures.observedEndpoints ]}
     = (inl fixtures.observedEndpoints,
        {[ "kube-state-metrics" := fixtures.observedEndpoints ]})
  /\ (let result :=
        @endpoints.CreateOrUpdateEndpoints fake.byReason _ fixtures.endpointsClient
          fixtures.desiredEndpoints (fixtures.holding fixtures.observedEndpoints) in
      exists written,
        client.log result.2
        = [client.CallGet "kube-state-metrics" (inl fixtures.observedEndpoints);
           client.CallUpdate written
             (client.Update fixtures.endpointsClient written
                {[ "kube-state-metrics" := fixtures.observedEndpoints ]}).1]
        /\ endpoints.ep_Subsets written = fixtures.subsets
        /\ metav1.ResourceVersion (endpoints.ep_ObjectMeta written) = "7"
        /\ default ∅ (metav1.Labels (endpoints.ep_ObjectMeta written))
           = metav1.view fixtures.labelStore (Some 1%positive)
             ∪ {[ "team" := "observability" ]}).
Proof.
  split; [exact labelStore_allocated|].
  assert (client.Get fixtures.endpointsClient "kube-state-metrics"
            {[ "kube-state-metrics" := fixtures.observedEndpoints ]}
          = (inl fixtures.observedEndpoints,
             {[ "kube-state-metrics" := fixtures.observedEndpoints ]})) as Hget
      by (vm_compute; reflexivity).
  split; [exact Hget|]. cbn zeta.
  destruct (@CreateOrUpdateEndpoints_first_update fake.byReason _
              fixtures.endpointsClient fixtures.desiredEndpoints
              (fixtures.holding fixtures.observedEndpoints)
              fixtures.observedEndpoints
              {[ "kube-state-metrics" := fixtures.observedEndpoints ]}
              labelStore_allocated Hget)
    as (written & rest & Hlog & Hsubsets & _ & Hrv & Hlabels & _ & Honly).
  assert (rest = []) as ->.
  { apply Honly. unfold client.conflicted, client.attemptError.
    cbn [last mbind option_bind client.callError client.Update
         fixtures.endpointsClient fake.clientset].
    destruct (_ !! _); reflexivity. }
  exists written. split; [exact Hlog|]. split; [exact Hsubsets|].
  split; [exact Hrv | exact Hlabels].
Defined.

(** X7 on the fake clientset holding a Secret under the desired name. *)
Lemma CreateOrUpdateSecret_protocol_witness :
  merge.allocated (client.heap (fixtures.holding fixtures.observedSecret))
    (config.obj_ObjectMeta fixtures.desiredSecret)
  /\ (let result :=
        @config.CreateOrUpdateSecret fake.byReason _ fixtures.secretEqualities
          fixtures.secrets fixtures.desiredSecret
          (fixtures.holding fixtures.observedSecret) in
      exists conflicts final,
        client.log result.2 = concat conflicts ++ final
        /\ client.served fixtures.secrets
             {[ "kube-state-metrics" := fixtures.observedSecret ]}
             (concat conflicts ++ final) (client.server result.2)
        /\ result.1.1 = client.attemptError final).
Proof.
  split; [exact labelStore_allocated|]. cbn zeta.
  destruct (@CreateOrUpdateSecret_protocol fake.byReason _ fixtures.secretEqualities
              fixtures.secrets fixtures.desiredSecret
              (fixtures.holding fixtures.observedSecret) labelStore_allocated)
    as (conflicts & final & Hlog & Hserved & _ & _ & _ & _ & Herr).
  exists conflicts, final. split; [exact Hlog|]. split; [exact Hserved | exact Herr].
Defined.

(** X8 on the fake clientset holding a ConfigMap under the desired name. *)
Lemma CreateOrUpdateConfigMap_protocol_witness :
  merge.allocated (client.heap (fixtures.holding fixtures.observedConfigMap))
    (config.obj_ObjectMeta fixtures.desiredConfigMap)
  /\ (let result :=
        @config.CreateOrUpdateConfigMap fake.byReason _ fixtures.configMapEqualities
          fixtures.configMaps fixtures.desiredConfigMap
          (fixtures.holding fixtures.observedConfigMap) in
      exists conflicts final,
        client.log result.2 = concat conflicts ++ final
        /\ client.served fixtures.configMaps
             {[ "kube-state-metrics" := fixtures.observedConfigMap ]}
             (concat conflicts ++ final) (client.server result.2)
        /\ result.1.1 = client.attemptError final).
Proof.
  split; [exact labelStore_allocated|]. cbn zeta.
  destruct (@CreateOrUpdateConfigMap_protocol fake.byReason _
              fixtures.configMapEqualities
              fixtures.configMaps fixtures.desiredConfigMap
              (fixtures.holding fixtures.observedConfigMap) labelStore_allocated)
    as (conflicts & final & Hlog & Hserved & _ & _ & _ & _ & Herr).
  exists conflicts, final. split; [exact Hlog|]. split; [exact Hserved | exact Herr].
Defined.

(** The package's tests of the metadata merge, on the model: the object
    held by the server afterwards has the desired content, the desired
    label and the label it had. *)
Example TestMergeMetadata_CreateOrUpdateEndpoints :
  let result :=
    @endpoints.CreateOrUpdateEndpoints fake.byReason _ fixtures.endpointsClient
      fixtures.desiredEndpoints (fixtures.holding fixtures.observedEndpoints) in
  result.1.1 = None
  /\ (fun o => (endpoints.ep_Subsets o,
                metav1.Labels (endpoints.ep_ObjectMeta o)))
       <$> (client.server result.2 !! "kube-state-metrics")
     = Some (fixtures.subsets,
             Some ({[ "app.kubernetes.io/name" := "kube-state-metrics";
                      "team" := "observability" ]} : gmap string string)).
Proof. cbn zeta. split; vm_compute; reflexivity. Qed.

Example TestMergeMetadata_CreateOrUpdateSecret :
  let result :=
    @config.CreateOrUpdateSecret fake.byReason _ fixtures.secretEqualities
      fixtures.secrets fixtures.desiredSecret
      (fixtures.holding fixtures.observedSecret) in
  result.1.1 = None
  /\ (fun o => (config.obj_Content o, metav1.Labels (config.obj_ObjectMeta o)))
       <$> (client.server result.2 !! "kube-state-metrics")
     = Some (fixtures.credentials "new",
             Some ({[ "app.kubernetes.io/name" := "kube-state-metrics";
                      "team" := "observability" ]} : gmap string string)).
Proof. cbn zeta. split; vm_compute; reflexivity. Qed.

(** A second reconciliation of the same Secret finds nothing to change
    and sends no update. *)
Example CreateOrUpdateSecret_converged :
  let first :=
    @config.CreateOrUpdateSecret fake.byReason _ fixtures.secretEqualities
      fixtures.secrets fixtures.desiredSecret
      (fixtures.holding fixtures.observedSecret) in
  let second :=
    @config.CreateOrUpdateSecret fake.byReason _ fixtures.secretEqualities
      fixtures.secrets first.1.2
      (client.mkWorld (client.heap first.2) (client.server first.2) []) in
  second.1.1 = None
  /\ exists observed,
      client.log second.2 = [client.CallGet "kube-state-metrics" (inl observed)].
Proof. cbn zeta. split; [|eexists]; vm_compute; reflexivity. Qed.

(** X12 on a server that refuses the update of the StatefulSet with two
    causes: the callback, which keeps what it is told in the map at
    location 1, is told both causes, joined; the StatefulSet is deleted
    and the deletion succeeds. *)
Lemma ForceUpdateStatefulSet_invalid_witness :
  let w := fake.cluster (fake.prometheus None) None in
  let told reasons (w : client.world (gmap string workloads.WorkloadW) workloads.WorkloadW) :=
    client.mkWorld (metav1.mapassign 1%positive "reason" reasons (client.heap w))
      (client.server w) (client.log w) in
  (@workloads.updateStatefulSet fake.byReason _ fixtures.refusing
     (fake.prometheusM None) w).1.1 = Some (StatusError fixtures.forbidden)
  /\ status_Code fixtures.forbidden = 422
  /\ status_Reason fixtures.forbidden = StatusReasonInvalid
  /\ status_Details fixtures.forbidden = Some fixtures.immutable
  /\ (let result :=
        @workloads.ForceUpdateStatefulSet fake.byReason _ fixtures.refusing
          (fake.prometheusM None) (Some told) w in
      result.1.1 = Returned None
      /\ client.server result.2 !! "prometheus" = None
      /\ last (client.log result.2)
         = Some (client.CallDelete "prometheus"
                   (Some client.DeletePropagationForeground) None)
      /\ metav1.contents (client.heap result.2) 1%positive !! "reason"
         = Some "spec: Forbidden: updates to statefulset spec, selector is immutable").
Proof.
  cbn zeta.
  assert ((@workloads.updateStatefulSet fake.byReason _ fixtures.refusing
             (fake.prometheusM None) (fake.cluster (fake.prometheus None) None)).1.1
          = Some (StatusError fixtures.forbidden)) as Hupdate
      by (vm_compute; reflexivity).
  split; [exact Hupdate|]. split; [reflexivity|]. split; [reflexivity|].
  split; [reflexivity|].
  rewrite (@ForceUpdateStatefulSet_invalid fake.byReason _ fixtures.refusing
             (fake.prometheusM None) _ (fake.cluster (fake.prometheus None) None)
             fixtures.forbidden fixtures.immutable
             Hupdate eq_refl eq_refl eq_refl).
  split; [vm_compute; reflexivity|]. split; [vm_compute; reflexivity|].
  split; vm_compute; reflexivity.
Defined.

(** X13 on a server that does not hold the StatefulSet: the read fails
    with "not found", which is returned with the context, and nothing is
    deleted. *)
Lemma ForceUpdateStatefulSet_other_error_witness :
  let w : client.world (gmap string workloads.WorkloadW) workloads.WorkloadW :=
    client.mkWorld fake.emptyStore ∅ [] in
  (@workloads.updateStatefulSet fake.byReason _ fake.workloads
     (fake.prometheusM None) w).1.1 = Some (fake.notFound "prometheus")
  /\ (forall ErrStatus,
         fake.notFound "prometheus" = StatusError ErrStatus ->
         status_Code ErrStatus <> 422 \/ status_Reason ErrStatus <> StatusReasonInvalid)
  /\ (let result :=
        @workloads.ForceUpdateStatefulSet fake.byReason _ fake.workloads
          (fake.prometheusM None) None w in
      result.1.1
      = Returned (Some (Errorf_w "failed to update StatefulSet: "
                          (fake.notFound "prometheus")))
      /\ client.log result.2
         = [client.CallGet "prometheus" (inr (fake.notFound "prometheus"))]).
Proof.
  cbn zeta.
  assert ((@workloads.updateStatefulSet fake.byReason _ fake.workloads
             (fake.prometheusM None) (client.mkWorld fake.emptyStore ∅ [])).1.1
          = Some (fake.notFound "prometheus")) as Hupdate
      by (vm_compute; reflexivity).
  assert (forall ErrStatus,
             fake.notFound "prometheus" = StatusError ErrStatus ->
             status_Code ErrStatus <> 422
             \/ status_Reason ErrStatus <> StatusReasonInvalid) as Hother.
  { intros ErrStatus [= <-]. left. discriminate. }
  split; [exact Hupdate|]. split; [exact Hother|].
  rewrite (@ForceUpdateStatefulSet_other_error fake.byReason _ fake.workloads
             (fake.prometheusM None) None (client.mkWorld fake.emptyStore ∅ [])
             (fake.notFound "prometheus") Hupdate Hother).
  split; vm_compute; reflexivity.
Defined.

(** X14 on the owner reference of the governing Service: the desired
    reference, whose [Controller] flag is at location 1, is appended to the
    decoded reference of the same content. *)
Lemma mergeOwnerReferences_appends_flagged_witness :
  (metav1.ref_Controller (fake.owner (Some 1%positive)) = Some 1%positive
   \/ metav1.ref_BlockOwnerDeletion (fake.owner (Some 1%positive)) = Some 1%positive)
  /\ is_Some (metav1.bools fake.flagStore !! 1%positive)
  /\ (let decoded :=
        (metav1.decodeOwnerReferences [fake.owner (Some true)] fake.flagStore).1 in
      merge.mergeOwnerReferences decoded [fake.owner (Some 1%positive)]
      = decoded ++ [fake.owner (Some 1%positive)]).
Proof.
  assert (is_Some (metav1.bools fake.flagStore !! 1%positive)) as Hflag
      by (eexists; reflexivity).
  split; [left; reflexivity|]. split; [exact Hflag|].
  exact (mergeOwnerReferences_appends_flagged fake.flagStore [fake.owner (Some true)]
           (fake.owner (Some 1%positive)) 1%positive (or_introl eq_refl) Hflag).
Defined.

(** X15 on the same reference without the flag: present by content, it is
    not appended. *)
Lemma mergeOwnerReferences_flagless_witness :
  metav1.ref_Controller (fake.owner (B := metav1.loc) None) = None
  /\ metav1.ref_BlockOwnerDeletion (fake.owner (B := metav1.loc) None) = None
  /\ (let decoded :=
        (metav1.decodeOwnerReferences [fake.owner None] fake.emptyStore).1 in
      merge.mergeOwnerReferences decoded [fake.owner None] = decoded).
Proof.
  split; [reflexivity|]. split; [reflexivity|].
  apply (mergeOwnerReferences_flagless fake.emptyStore [fake.owner None]
           (fake.owner None) eq_refl eq_refl).
  apply list_elem_of_here.
Defined.

